(** * VImagePreviewer: in-place image preview of a markdown document

    Shallow embedding of [src/vimagepreviewer.cpp] (vnote).  The engine walks
    the blocks of a [QTextDocument], recognises lines holding one image link,
    and keeps one generated preview block after each of them.

    Layout of the development:
    - [Text]    : [QChar], [QString], trimming, the image-link regular
                  expression of [fetchImageUrlToPreview];
    - [Doc]     : the part of [QTextDocument]/[QTextCursor] the engine uses;
    - [Engine]  : the member functions of [VImagePreviewer];
    - theorems about them. *)

From Stdlib Require Import ZArith NArith List Bool Lia String Ascii.
From stdpp Require Import base tactics option list gmap.

Open Scope Z_scope.

(* ===================================================================== *)
(** ** Text: QChar and QString                                            *)
(* ===================================================================== *)

Module Text.

(** A [QChar] is one UTF-16 code unit; no arithmetic is done on it here, so
    it is kept as its code point. *)
Definition QChar := N.
Abbreviation QString := (list QChar).

(** [QChar::ObjectReplacementCharacter], U+FFFC. *)
Definition ObjectReplacementCharacter : QChar := 65532%N.

(** [QChar::isSpace]: the Unicode separators (Zs, Zl, Zp) and the control
    characters U+0009..U+000D, U+0085 (Qt library, qchar.h). *)
Definition isSpace (c : QChar) : bool :=
  ((9 <=? c) && (c <=? 13) || (c =? 32) || (c =? 133) || (c =? 160)
   || (c =? 5760) || (8192 <=? c) && (c <=? 8202) || (c =? 8232)
   || (c =? 8233) || (c =? 8239) || (c =? 8287) || (c =? 12288))%N.
#[global] Arguments isSpace : simpl never.

Definition isEmpty (s : QString) : bool :=
  match s with [] => true | _ => false end.

Definition qstring_eqb (s t : QString) : bool := bool_decide (s = t).

Fixpoint dropSpaces (s : QString) : QString :=
  match s with
  | c :: s' => if isSpace c then dropSpaces s' else s
  | [] => []
  end.

(** [QString::trimmed]: whitespace removed from both ends. *)
Definition trimmed (s : QString) : QString :=
  rev (dropSpaces (rev (dropSpaces s))).

(** [QString::indexOf(QChar)], -1 when the character does not occur. *)
Fixpoint indexOfFrom (c : QChar) (s : QString) (pos : Z) : Z :=
  match s with
  | [] => -1
  | d :: s' => if (d =? c)%N then pos else indexOfFrom c s' (pos + 1)
  end.

Definition indexOf (c : QChar) (s : QString) : Z := indexOfFrom c s 0.

(** [QString::remove(QChar)]: every occurrence of the character removed. *)
Definition remove (c : QChar) (s : QString) : QString :=
  filter (fun d => d ≠ c) s.

(** *** The regular expression of [fetchImageUrlToPreview]

    [QRegExp("\\!\\[[^\\]]*\\]\\(([^\\)]+)\\)")], that is
    [!\[[^\]]*\]\(([^\)]+)\)]: a bang, a bracketed run free of closing
    brackets, and a parenthesised non-empty run free of closing parentheses,
    which is capture 1. *)

Definition chBang : QChar := 33%N.
Definition chLBracket : QChar := 91%N.
Definition chRBracket : QChar := 93%N.
Definition chLParen : QChar := 40%N.
Definition chRParen : QChar := 41%N.

(** The greedy run [[^c]*] and what follows it. *)
Fixpoint takeUntil (c : QChar) (s : QString) : QString :=
  match s with
  | d :: s' => if (d =? c)%N then [] else d :: takeUntil c s'
  | [] => []
  end.

Fixpoint dropUntil (c : QChar) (s : QString) : QString :=
  match s with
  | d :: s' => if (d =? c)%N then s else dropUntil c s'
  | [] => []
  end.

(** The expression matched at the start of [s]: capture 1 on success. *)
Definition matchAt (s : QString) : option QString :=
  match s with
  | c0 :: c1 :: r =>
      if (c0 =? chBang)%N && (c1 =? chLBracket)%N then
        match dropUntil chRBracket r with
        | c2 :: c3 :: r2 =>
            if (c2 =? chRBracket)%N && (c3 =? chLParen)%N then
              match takeUntil chRParen r2, dropUntil chRParen r2 with
              | d :: cap, c4 :: _ =>
                  if (c4 =? chRParen)%N then Some (d :: cap) else None
              | _, _ => None
              end
            else None
        | _ => None
        end
      else None
  | _ => None
  end.

(** [QRegExp::indexIn]: the first position where the expression matches,
    -1 when there is none. *)
Fixpoint indexInFrom (s : QString) (pos : Z) : Z :=
  match matchAt s with
  | Some _ => pos
  | None =>
      match s with
      | [] => -1
      | _ :: s' => indexInFrom s' (pos + 1)
      end
  end.

Definition indexIn (s : QString) : Z := indexInFrom s 0.

(** [QRegExp::lastIndexIn]: the search runs backwards from the last
    character, so the result is the highest position where the expression
    matches, -1 when there is none. *)
Fixpoint lastIndexInFrom (s : QString) (pos : Z) : Z :=
  match s with
  | [] => -1
  | _ :: s' =>
      let later := lastIndexInFrom s' (pos + 1) in
      if later =? -1 then
        match matchAt s with Some _ => pos | None => -1 end
      else later
  end.

Definition lastIndexIn (s : QString) : Z := lastIndexInFrom s 0.

(** [capturedTexts()[1]] after a search that matched at [pos]. *)
Definition capturedText1 (s : QString) (pos : Z) : QString :=
  match matchAt (drop (Z.to_nat pos) s) with
  | Some cap => cap
  | None => []
  end.

(** [VImagePreviewer::fetchImageUrlToPreview]. *)
Definition fetchImageUrlToPreview (p_text : QString) : QString :=
  let index := indexIn p_text in
  if index =? -1 then []
  else
    let lastIndex := lastIndexIn p_text in
    if negb (lastIndex =? index) then []
    else capturedText1 p_text lastIndex.

(** An occurrence of the markup [![...](ref)] in a line, as the
    specification words it: the line splits around the literal markup at
    position [pos]; the bracketed part holds no closing bracket and [ref] is
    non-empty and holds no closing parenthesis. *)
Definition Occurrence (line : QString) (pos : nat) (ref : QString) : Prop :=
  ∃ pre alt post,
    line = pre ++ [chBang; chLBracket] ++ alt ++ [chRBracket; chLParen]
               ++ ref ++ [chRParen] ++ post
    ∧ length pre = pos
    ∧ (chRBracket ∉ alt) ∧ (chRParen ∉ ref) ∧ ref ≠ [].

Definition ExactlyOneOccurrence (line ref : QString) : Prop :=
  ∃ pos, Occurrence line pos ref
         ∧ ∀ pos' ref', Occurrence line pos' ref' → pos' = pos.

End Text.

(* ===================================================================== *)
(** ** Doc: the document as the engine sees it                            *)
(* ===================================================================== *)

Module Doc.
Import Text.

(** A decoded bitmap; [QImage::isNull] holds of a failed decode. *)
Inductive QImage : Type :=
| NullImage
| Bitmap (content : N).

Definition isNull (i : QImage) : bool :=
  match i with NullImage => true | Bitmap _ => false end.

Abbreviation QByteArray := (list N).

(** [QTextImageFormat]: the resource name and the user property
    [ImagePath] ([enum ImageProperty { ImagePath = 1 }]); a property that
    was never set reads as the empty string. *)
Record QTextImageFormat : Type := mkImageFormat {
  imageName : QString;
  propImagePath : QString
}.

(** [QTextImageFormat()]: an image format with nothing set. *)
Definition defaultImageFormat : QTextImageFormat := mkImageFormat [] [].

(** One character of a block with its character format;
    [toImageFormat().isValid()] holds when the format is an image format. *)
Record Cell : Type := mkCell {
  chr : QChar;
  toImageFormat : option QTextImageFormat
}.

(** The characters of one block (the block separator is implicit). *)
Abbreviation BlockData := (list Cell).

Definition blockText (b : BlockData) : QString := map chr b.

(** A [QTextBlock] handle.  Blocks are kept by position; a handle is valid
    when its position is inside the document. *)
Abbreviation QTextBlock := nat.

(** Primitive changes, as they reach the undo stack. *)
Inductive EditOp : Type :=
| OpInsertBlock (blk off : nat)
| OpInsertImage (blk off : nat) (f : QTextImageFormat)
| OpDeleteChar (blk off : nat)
| OpRemoveBlock (blk : nat)
| OpSetCharFormat (blk off : nat) (f : QTextImageFormat).

(** [QTextDocument] with the editor's modified flag.  [editBlockDepth]
    counts the open [beginEditBlock] calls, [editBlockOps] holds the changes
    of the open edit block, [undoStack] the finished undo steps, most recent
    first. *)
Record QTextDocument : Type := mkDocument {
  blocks : list BlockData;
  imageResources : gmap QString QImage;
  isModified : bool;
  editBlockDepth : nat;
  editBlockOps : list EditOp;
  undoStack : list (list EditOp)
}.

Definition isValid (d : QTextDocument) (b : QTextBlock) : bool :=
  bool_decide (b < length (blocks d))%nat.

Definition next (b : QTextBlock) : QTextBlock := S b.

Definition text (d : QTextDocument) (b : QTextBlock) : QString :=
  match blocks d !! b with
  | Some data => blockText data
  | None => []
  end.

(** A handle keeps designating its block when the document changes around
    it.  [rebase d d' edited h] is where the handle [h], taken in [d], is
    found in [d'] after an edit at block [edited]: handles behind the edit
    move with the number of blocks that came or went. *)
Definition rebase (d d' : QTextDocument) (edited h : QTextBlock) : QTextBlock :=
  if bool_decide (edited < h)%nat
  then (h + length (blocks d') - length (blocks d))%nat
  else h.

(** Every change of the content marks the document modified and is entered
    in the undo stack: as a step of its own outside an edit block, as part
    of the open edit block otherwise. *)
Definition recordEdit (op : EditOp) (bs : list BlockData) (d : QTextDocument)
  : QTextDocument :=
  match editBlockDepth d with
  | O => mkDocument bs (imageResources d) true O (editBlockOps d)
                    ([op] :: undoStack d)
  | S _ => mkDocument bs (imageResources d) true (editBlockDepth d)
                      (editBlockOps d ++ [op]) (undoStack d)
  end.

Definition beginEditBlock (d : QTextDocument) : QTextDocument :=
  mkDocument (blocks d) (imageResources d) (isModified d)
             (S (editBlockDepth d)) (editBlockOps d) (undoStack d).

Definition endEditBlock (d : QTextDocument) : QTextDocument :=
  match editBlockDepth d with
  | O => d
  | S O =>
      mkDocument (blocks d) (imageResources d) (isModified d) O []
                 (match editBlockOps d with
                  | [] => undoStack d
                  | ops => ops :: undoStack d
                  end)
  | S n =>
      mkDocument (blocks d) (imageResources d) (isModified d) n
                 (editBlockOps d) (undoStack d)
  end.

Definition setModified (m : bool) (d : QTextDocument) : QTextDocument :=
  mkDocument (blocks d) (imageResources d) m
             (editBlockDepth d) (editBlockOps d) (undoStack d).

(** [QTextDocument::addResource(ImageResource, name, image)]. *)
Definition addResource (name : QString) (image : QImage) (d : QTextDocument)
  : QTextDocument :=
  mkDocument (blocks d) (<[name := image]> (imageResources d)) (isModified d)
             (editBlockDepth d) (editBlockOps d) (undoStack d).

(** A [QTextCursor] without selection: a block and an offset in it. *)
Abbreviation QTextCursor := (QTextBlock * nat)%type.

Definition cursorAt (b : QTextBlock) : QTextCursor := (b, O).

(** [movePosition(QTextCursor::EndOfBlock)]. *)
Definition moveEndOfBlock (d : QTextDocument) (c : QTextCursor) : QTextCursor :=
  match blocks d !! c.1 with
  | Some data => (c.1, length data)
  | None => c
  end.

(** [QTextCursor::insertBlock]: the block is split at the cursor, which
    ends at the start of the new block. *)
Definition insertBlock (c : QTextCursor) (d : QTextDocument)
  : QTextDocument * QTextCursor :=
  match blocks d !! c.1 with
  | Some data =>
      (recordEdit (OpInsertBlock c.1 c.2)
         (take c.1 (blocks d) ++ [take c.2 data; drop c.2 data]
            ++ drop (S c.1) (blocks d)) d,
       (S c.1, O))
  | None => (d, c)
  end.

(** [QTextCursor::insertImage]: a placeholder character carrying the image
    format is put at the cursor. *)
Definition insertImage (f : QTextImageFormat) (c : QTextCursor)
  (d : QTextDocument) : QTextDocument * QTextCursor :=
  match blocks d !! c.1 with
  | Some data =>
      (recordEdit (OpInsertImage c.1 c.2 f)
         (<[c.1 := take c.2 data
                    ++ [mkCell ObjectReplacementCharacter (Some f)]
                    ++ drop c.2 data]> (blocks d)) d,
       (c.1, S c.2))
  | None => (d, c)
  end.

(** [QTextCursor::deleteChar] with no selection: the character at the
    cursor goes; at the end of a block the separator goes and the next block
    is joined; at the end of the document nothing happens. *)
Definition deleteChar (c : QTextCursor) (d : QTextDocument) : QTextDocument :=
  match blocks d !! c.1 with
  | Some data =>
      if bool_decide (c.2 < length data)%nat then
        recordEdit (OpDeleteChar c.1 c.2)
          (<[c.1 := take c.2 data ++ drop (S c.2) data]> (blocks d)) d
      else
        match blocks d !! S c.1 with
        | Some data' =>
            recordEdit (OpDeleteChar c.1 c.2)
              (take c.1 (blocks d) ++ [data ++ data']
                 ++ drop (S (S c.1)) (blocks d)) d
        | None => d
        end
  | None => d
  end.

(** [select(QTextCursor::BlockUnderCursor)] followed by
    [removeSelectedText]: an empty block selects nothing; the first block
    loses its characters; any other block goes together with the separator
    in front of it. *)
Definition removeBlockUnderCursor (b : QTextBlock) (d : QTextDocument)
  : QTextDocument :=
  match blocks d !! b with
  | Some [] => d
  | Some _ =>
      match b with
      | O => recordEdit (OpRemoveBlock b) (<[O := []]> (blocks d)) d
      | S _ => recordEdit (OpRemoveBlock b) (delete b (blocks d)) d
      end
  | None => d
  end.

(** [QTextCursor::charFormat] of the character in front of offset
    [S off] of a block, read as an image format. *)
Definition charImageFormat (d : QTextDocument) (b : QTextBlock) (off : nat)
  : option QTextImageFormat :=
  match blocks d !! b with
  | Some data =>
      match data !! off with
      | Some cell => toImageFormat cell
      | None => None
      end
  | None => None
  end.

(** [QTextCursor::setCharFormat] on the one selected character at [off]. *)
Definition setCharFormat (b : QTextBlock) (off : nat) (f : QTextImageFormat)
  (d : QTextDocument) : QTextDocument :=
  match blocks d !! b with
  | Some data =>
      match data !! off with
      | Some cell =>
          recordEdit (OpSetCharFormat b off f)
            (<[b := <[off := mkCell (chr cell) (Some f)]> data]> (blocks d)) d
      | None => d
      end
  | None => d
  end.

End Doc.

(* ===================================================================== *)
(** ** Engine: the member functions of VImagePreviewer                    *)
(* ===================================================================== *)

Module Engine.
Import Text Doc.

(** Outcome of a member function: a value, a failed [V_ASSERT], or a walk
    that used up its fuel (which [previewImages_fuel] and [clearAll_spec]
    show not to happen). *)
Inductive result (A : Type) : Type :=
| Ok (a : A)
| AssertFailed
| OutOfFuel.
Arguments Ok {A} a.
Arguments AssertFailed {A}.
Arguments OutOfFuel {A}.

#[global] Instance result_ret : MRet result := @Ok.
#[global] Instance result_bind : MBind result :=
  fun A B (f : A → result B) (r : result A) =>
    match r with
    | Ok a => f a
    | AssertFailed => AssertFailed
    | OutOfFuel => OutOfFuel
    end.

(** Modelled from the spec: the macro [V_ASSERT] is declared in
    utils/vutils.h, which is not among the translated sources.  The
    specification lets no error reach the caller, so the conditions under
    the macro are meant to hold on every run; a run on which one fails is
    cut off here with [AssertFailed], and nothing is stated about what
    would follow it.  Where an assertion holds the macro does nothing,
    whether it is compiled in or not. *)
Definition V_ASSERT (cond : bool) : result unit :=
  if cond then Ok tt else AssertFailed.

(** What the engine reads from outside: the file system below the note's
    base path, [QUrl], the image decoder and the global configuration. *)
Record Env : Type := mkEnv {
  (** [QFileInfo(m_file->retriveBasePath(), url)]: [exists],
      [isNativePath], [absoluteFilePath] *)
  relExists : QString → bool;
  relIsNativePath : QString → bool;
  relAbsoluteFilePath : QString → QString;
  (** [QUrl(url).toString()] *)
  urlToString : QString → QString;
  (** [QFileInfo(path).exists()] and [QImage(path)] *)
  fileExists : QString → bool;
  loadImage : QString → QImage;
  (** [QImage::fromData] *)
  imageFromData : QByteArray → QImage;
  (** [vconfig.getEnablePreviewImages()] *)
  getEnablePreviewImages : bool
}.

(** The object state.  [m_timerActive] is the single-shot [m_timer];
    [downloadRequests] are the URLs handed to [m_downloader], [imageLoads]
    the paths given to the synchronous decoder, [statusChanged] counts the
    emitted [statusChanged] signals; the last three are the visible trace of
    the engine, most recent first. *)
Record VImagePreviewer : Type := mkPreviewer {
  m_document : QTextDocument;
  m_enablePreview : bool;
  m_isPreviewing : bool;
  m_requestCearBlocks : bool;
  m_requestRefreshBlocks : bool;
  m_imageCache : gmap QString QString;
  m_timerActive : bool;
  downloadRequests : list QString;
  imageLoads : list QString;
  statusChanged : nat
}.

Definition withDocument (d : QTextDocument) (v : VImagePreviewer) :=
  mkPreviewer d (m_enablePreview v) (m_isPreviewing v)
    (m_requestCearBlocks v) (m_requestRefreshBlocks v) (m_imageCache v)
    (m_timerActive v) (downloadRequests v) (imageLoads v) (statusChanged v).

Definition withEnablePreview (b : bool) (v : VImagePreviewer) :=
  mkPreviewer (m_document v) b (m_isPreviewing v)
    (m_requestCearBlocks v) (m_requestRefreshBlocks v) (m_imageCache v)
    (m_timerActive v) (downloadRequests v) (imageLoads v) (statusChanged v).

Definition withIsPreviewing (b : bool) (v : VImagePreviewer) :=
  mkPreviewer (m_document v) (m_enablePreview v) b
    (m_requestCearBlocks v) (m_requestRefreshBlocks v) (m_imageCache v)
    (m_timerActive v) (downloadRequests v) (imageLoads v) (statusChanged v).

Definition withRequestCearBlocks (b : bool) (v : VImagePreviewer) :=
  mkPreviewer (m_document v) (m_enablePreview v) (m_isPreviewing v)
    b (m_requestRefreshBlocks v) (m_imageCache v)
    (m_timerActive v) (downloadRequests v) (imageLoads v) (statusChanged v).

Definition withRequestRefreshBlocks (b : bool) (v : VImagePreviewer) :=
  mkPreviewer (m_document v) (m_enablePreview v) (m_isPreviewing v)
    (m_requestCearBlocks v) b (m_imageCache v)
    (m_timerActive v) (downloadRequests v) (imageLoads v) (statusChanged v).

Definition withImageCache (c : gmap QString QString) (v : VImagePreviewer) :=
  mkPreviewer (m_document v) (m_enablePreview v) (m_isPreviewing v)
    (m_requestCearBlocks v) (m_requestRefreshBlocks v) c
    (m_timerActive v) (downloadRequests v) (imageLoads v) (statusChanged v).

(** [m_timer->stop()] and [m_timer->start()]. *)
Definition timerStop (v : VImagePreviewer) :=
  mkPreviewer (m_document v) (m_enablePreview v) (m_isPreviewing v)
    (m_requestCearBlocks v) (m_requestRefreshBlocks v) (m_imageCache v)
    false (downloadRequests v) (imageLoads v) (statusChanged v).

Definition timerStart (v : VImagePreviewer) :=
  mkPreviewer (m_document v) (m_enablePreview v) (m_isPreviewing v)
    (m_requestCearBlocks v) (m_requestRefreshBlocks v) (m_imageCache v)
    true (downloadRequests v) (imageLoads v) (statusChanged v).

(** [m_downloader->download(url)]: the request leaves the engine; its
    answer comes back later through [imageDownloaded]. *)
Definition download (url : QString) (v : VImagePreviewer) :=
  mkPreviewer (m_document v) (m_enablePreview v) (m_isPreviewing v)
    (m_requestCearBlocks v) (m_requestRefreshBlocks v) (m_imageCache v)
    (m_timerActive v) (url :: downloadRequests v) (imageLoads v)
    (statusChanged v).

(** [QImage(path)]: one synchronous decode of a local file. *)
Definition noteImageLoad (path : QString) (v : VImagePreviewer) :=
  mkPreviewer (m_document v) (m_enablePreview v) (m_isPreviewing v)
    (m_requestCearBlocks v) (m_requestRefreshBlocks v) (m_imageCache v)
    (m_timerActive v) (downloadRequests v) (path :: imageLoads v)
    (statusChanged v).

(** [emit m_edit->statusChanged()]. *)
Definition emitStatusChanged (v : VImagePreviewer) :=
  mkPreviewer (m_document v) (m_enablePreview v) (m_isPreviewing v)
    (m_requestCearBlocks v) (m_requestRefreshBlocks v) (m_imageCache v)
    (m_timerActive v) (downloadRequests v) (imageLoads v)
    (S (statusChanged v)).

(** The state the constructor leaves for an editor holding document [d]. *)
Definition construct (d : QTextDocument) : VImagePreviewer :=
  mkPreviewer d true false false false ∅ false [] [] O.

(** [VImagePreviewer::isImagePreviewBlock]. *)
Definition isImagePreviewBlock (v : VImagePreviewer) (p_block : QTextBlock)
  : bool :=
  if negb (isValid (m_document v) p_block) then false
  else
    let text := trimmed (text (m_document v) p_block) in
    qstring_eqb text [ObjectReplacementCharacter].

(** [VImagePreviewer::fetchFormatFromPreviewBlock]. *)
Definition fetchFormatFromPreviewBlock (v : VImagePreviewer)
  (p_block : QTextBlock) : option QTextImageFormat :=
  let shift := indexOf ObjectReplacementCharacter (text (m_document v) p_block) in
  if 0 <=? shift then charImageFormat (m_document v) p_block (Z.to_nat shift)
  else Some defaultImageFormat.

(** [VImagePreviewer::fetchImagePathFromPreviewBlock]. *)
Definition fetchImagePathFromPreviewBlock (v : VImagePreviewer)
  (p_block : QTextBlock) : QString :=
  let format := fetchFormatFromPreviewBlock v p_block in
  if negb (bool_decide (is_Some format)) then []
  else from_option propImagePath [] format.

(** [VImagePreviewer::fetchImagePathToPreview]. *)
Definition fetchImagePathToPreview (env : Env) (p_text : QString) : QString :=
  let imageUrl := fetchImageUrlToPreview p_text in
  if isEmpty imageUrl then imageUrl
  else if relExists env imageUrl then
    if relIsNativePath env imageUrl then relAbsoluteFilePath env imageUrl
    else imageUrl
  else urlToString env imageUrl.

(** [VImagePreviewer::isValidImagePreviewBlock]. *)
Definition isValidImagePreviewBlock (env : Env) (v : VImagePreviewer)
  (p_block : QTextBlock) : bool :=
  if negb (isImagePreviewBlock v p_block) then false
  else
    match p_block with
    | S prevBlock =>
        let imagePath :=
          fetchImagePathToPreview env (text (m_document v) prevBlock) in
        if isEmpty imagePath then false
        else
          let curPath := fetchImagePathFromPreviewBlock v p_block in
          qstring_eqb curPath imagePath
    | O => false
    end.

(** [VImagePreviewer::imagePathToCacheResourceName]. *)
Definition imagePathToCacheResourceName (p_imagePath : QString) : QString :=
  p_imagePath.

(** [VImagePreviewer::imageCacheResourceName]. *)
Definition imageCacheResourceName (env : Env) (p_imagePath : QString)
  (v : VImagePreviewer) : result (QString * VImagePreviewer) :=
  _ ← V_ASSERT (negb (isEmpty p_imagePath));
  match m_imageCache v !! p_imagePath with
  | Some name => Ok (name, v)
  | None =>
      let '(image, v) :=
        if fileExists env p_imagePath
        then (loadImage env p_imagePath, noteImageLoad p_imagePath v)
        else (NullImage, download p_imagePath v) in
      if isNull image then Ok ([], v)
      else
        let name := imagePathToCacheResourceName p_imagePath in
        let v := withDocument (addResource name image (m_document v)) v in
        let v := withImageCache (<[p_imagePath := name]> (m_imageCache v)) v in
        Ok (name, v)
  end.

(** [VImagePreviewer::removeBlock]. *)
Definition removeBlock (p_block : QTextBlock) (v : VImagePreviewer)
  : VImagePreviewer :=
  let modified := isModified (m_document v) in
  let d := removeBlockUnderCursor p_block (m_document v) in
  withDocument (setModified modified d) v.

(** [VImagePreviewer::insertImagePreviewBlock]. *)
Definition insertImagePreviewBlock (env : Env) (p_block : QTextBlock)
  (p_imagePath : QString) (v : VImagePreviewer)
  : result (QTextBlock * VImagePreviewer) :=
  '(imageName, v) ← imageCacheResourceName env p_imagePath v;
  if isEmpty imageName then Ok (p_block, v)
  else
    let modified := isModified (m_document v) in
    let cursor := cursorAt p_block in
    let d := beginEditBlock (m_document v) in
    let cursor := moveEndOfBlock d cursor in
    let '(d, cursor) := insertBlock cursor d in
    let imgFormat := mkImageFormat imageName p_imagePath in
    let '(d, cursor) := insertImage imgFormat cursor d in
    let d := endEditBlock d in
    _ ← V_ASSERT (bool_decide (head (Doc.text d cursor.1)
                               = Some ObjectReplacementCharacter));
    Ok (cursor.1, withDocument (setModified modified d) v).

(** [VImagePreviewer::updateFormatInPreviewBlock]. *)
Definition updateFormatInPreviewBlock (p_block : QTextBlock)
  (p_format : QTextImageFormat) (v : VImagePreviewer)
  : result VImagePreviewer :=
  let shift := indexOf ObjectReplacementCharacter (text (m_document v) p_block) in
  _ ← V_ASSERT (0 <=? shift);
  _ ← V_ASSERT (bool_decide (is_Some
         (charImageFormat (m_document v) p_block (Z.to_nat shift))));
  Ok (withDocument
        (setCharFormat p_block (Z.to_nat shift) p_format (m_document v)) v).

(** [VImagePreviewer::updateImagePreviewBlock]. *)
Definition updateImagePreviewBlock (env : Env) (p_block : QTextBlock)
  (p_imagePath : QString) (v : VImagePreviewer) : result VImagePreviewer :=
  let format := fetchFormatFromPreviewBlock v p_block in
  _ ← V_ASSERT (bool_decide (is_Some format));
  let curPath := from_option propImagePath [] format in
  if qstring_eqb curPath p_imagePath then Ok v
  else
    '(imageName, v) ← imageCacheResourceName env p_imagePath v;
    if isEmpty imageName then Ok (removeBlock p_block v)
    else
      let format := mkImageFormat imageName p_imagePath in
      updateFormatInPreviewBlock p_block format v.

(** The first loop of [clearCorruptedImagePreviewBlock]: the positions of
    the placeholder characters and whether all other characters are
    spaces. *)
Fixpoint scanReplacementChars (text : QString) (i : nat)
  (replacementChars : list nat) (onlySpaces : bool) : list nat * bool :=
  match text with
  | [] => (replacementChars, onlySpaces)
  | c :: text' =>
      if (c =? ObjectReplacementCharacter)%N then
        scanReplacementChars text' (S i) (replacementChars ++ [i]) onlySpaces
      else if negb (isSpace c) then
        scanReplacementChars text' (S i) replacementChars false
      else
        scanReplacementChars text' (S i) replacementChars onlySpaces
  end.

(** Its second loop: the positions are deleted from the last to the
    first. *)
Definition deleteReplacementChars (p_block : QTextBlock)
  (replacementChars : list nat) (d : QTextDocument) : QTextDocument :=
  fold_left (fun d pos => deleteChar (p_block, pos) d)
            (rev replacementChars) d.

(** [VImagePreviewer::clearCorruptedImagePreviewBlock]. *)
Definition clearCorruptedImagePreviewBlock (p_block : QTextBlock)
  (v : VImagePreviewer) : result VImagePreviewer :=
  if negb (isValid (m_document v) p_block) then Ok v
  else
    let text := Doc.text (m_document v) p_block in
    let '(replacementChars, onlySpaces) :=
      scanReplacementChars text O [] true in
    if negb onlySpaces && negb (bool_decide (replacementChars = [])) then
      let modified := isModified (m_document v) in
      let d := beginEditBlock (m_document v) in
      let d := deleteReplacementChars p_block replacementChars d in
      let d := endEditBlock d in
      let d := setModified modified d in
      _ ← V_ASSERT (qstring_eqb (remove ObjectReplacementCharacter text)
                                (Doc.text d p_block));
      Ok (withDocument d v)
    else Ok v.

(** [VImagePreviewer::previewImageOfOneBlock]. *)
Definition previewImageOfOneBlock (env : Env) (p_block : QTextBlock)
  (v : VImagePreviewer) : result (QTextBlock * VImagePreviewer) :=
  if negb (isValid (m_document v) p_block) then Ok (p_block, v)
  else
    let nblock := next p_block in
    let imagePath :=
      fetchImagePathToPreview env (text (m_document v) p_block) in
    if isEmpty imagePath then Ok (nblock, v)
    else if isImagePreviewBlock v nblock then
      let nextBlock := next nblock in
      v' ← updateImagePreviewBlock env nblock imagePath v;
      Ok (rebase (m_document v) (m_document v') nblock nextBlock, v')
    else
      '(imgBlock, v') ← insertImagePreviewBlock env p_block imagePath v;
      Ok (next imgBlock, v').

(** The loop of [clearAllImagePreviewBlocks]. *)
Fixpoint clearAllLoop (fuel : nat) (block : QTextBlock) (v : VImagePreviewer)
  : result VImagePreviewer :=
  if isValid (m_document v) block then
    match fuel with
    | O => OutOfFuel
    | S fuel' =>
        if isImagePreviewBlock v block then
          let nextBlock := next block in
          let v' := removeBlock block v in
          clearAllLoop fuel'
            (rebase (m_document v) (m_document v') block nextBlock) v'
        else
          v' ← clearCorruptedImagePreviewBlock block v;
          clearAllLoop fuel' (next block) v'
    end
  else Ok v.

(** [VImagePreviewer::clearAllImagePreviewBlocks].  (Its edits restart the
    timer through [handleContentChange]; see there.) *)
Definition clearAllImagePreviewBlocks (v : VImagePreviewer)
  : result VImagePreviewer :=
  _ ← V_ASSERT (negb (m_isPreviewing v));
  let block : QTextBlock := O in
  let modified := isModified (m_document v) in
  let v := withDocument (beginEditBlock (m_document v)) v in
  v ← clearAllLoop (length (blocks (m_document v))) block v;
  let v := withDocument (endEditBlock (m_document v)) v in
  let v := withDocument (setModified modified (m_document v)) v in
  Ok (emitStatusChanged v).

(** [VImagePreviewer::isPreviewEnabled]. *)
Definition isPreviewEnabled (v : VImagePreviewer) : bool := m_enablePreview v.

(** [VImagePreviewer::enableImagePreview]. *)
Definition enableImagePreview (env : Env) (v : VImagePreviewer)
  : VImagePreviewer :=
  let v := withEnablePreview true v in
  if getEnablePreviewImages env then timerStart (timerStop v) else v.

(** [VImagePreviewer::disableImagePreview].  (The edits of the clear
    restart the timer through [handleContentChange]; see there.) *)
Definition disableImagePreview (v : VImagePreviewer)
  : result VImagePreviewer :=
  let v := withEnablePreview false v in
  if m_isPreviewing v then Ok (withRequestCearBlocks true v)
  else clearAllImagePreviewBlocks v.

(** [VImagePreviewer::refresh]. *)
Definition refresh (v : VImagePreviewer) : result VImagePreviewer :=
  if m_isPreviewing v then Ok (withRequestRefreshBlocks true v)
  else
    let v := timerStop v in
    let v := withImageCache ∅ v in
    v ← clearAllImagePreviewBlocks v;
    Ok (timerStart v).

(** [VImagePreviewer::fetchCachedImageFromPreviewBlock]. *)
Definition fetchCachedImageFromPreviewBlock (v : VImagePreviewer)
  (p_block : QTextBlock) : QImage :=
  let path := fetchImagePathFromPreviewBlock v p_block in
  if isEmpty path then NullImage
  else
    match m_imageCache v !! path with
    | None => NullImage
    | Some name => default NullImage (imageResources (m_document v) !! name)
    end.

(** [VImagePreviewer::imageDownloaded]. *)
Definition imageDownloaded (env : Env) (p_data : QByteArray) (p_url : QString)
  (v : VImagePreviewer) : VImagePreviewer :=
  let image := imageFromData env p_data in
  if negb (isNull image) then
    match m_imageCache v !! p_url with
    | Some _ => v
    | None =>
        let v := timerStop v in
        let name := imagePathToCacheResourceName p_url in
        let v := withDocument (addResource name image (m_document v)) v in
        let v := withImageCache (<[p_url := name]> (m_imageCache v)) v in
        timerStart v
    end
  else v.

(** [VImagePreviewer::handleContentChange].  The constructor connects the
    [contentsChange] signal of the document to this slot, so it runs for
    the edits of the user and for the edits the engine makes itself.  It
    touches the timer only, and no member function reads the timer.  The
    model leaves the delivery of the signal to the host ([ReqContentChange]
    during a scan, [EvContentChange] between scans): after a member function
    that edited the document, [m_timerActive] is the timer before that
    delivery. *)
Definition handleContentChange (p_charsRemoved p_charsAdded : Z)
  (v : VImagePreviewer) : VImagePreviewer :=
  if (p_charsRemoved =? 0) && (p_charsAdded =? 0) then v
  else timerStart (timerStop v).

(** [VImagePreviewer::timerTimeout], over the [previewImages] it calls. *)
Definition timerTimeoutWith (env : Env)
  (previewImages : VImagePreviewer → result VImagePreviewer)
  (v : VImagePreviewer) : result VImagePreviewer :=
  if negb (getEnablePreviewImages env) then
    if m_enablePreview v then disableImagePreview v else Ok v
  else if negb (m_enablePreview v) then Ok v
  else previewImages v.

(** Calls the host makes back into the engine while a scan is running (Qt
    delivers the signals of an edit synchronously to its slots). *)
Inductive Request : Type :=
| ReqEnable
| ReqDisable
| ReqRefresh
| ReqTimerTimeout
| ReqContentChange (p_charsRemoved p_charsAdded : Z)
| ReqImageDownloaded (p_data : QByteArray) (p_url : QString).

Definition deliver (env : Env)
  (previewImages : VImagePreviewer → result VImagePreviewer)
  (r : Request) (v : VImagePreviewer) : result VImagePreviewer :=
  match r with
  | ReqEnable => Ok (enableImagePreview env v)
  | ReqDisable => disableImagePreview v
  | ReqRefresh => refresh v
  | ReqTimerTimeout => timerTimeoutWith env previewImages v
  | ReqContentChange r a => Ok (handleContentChange r a v)
  | ReqImageDownloaded data url => Ok (imageDownloaded env data url v)
  end.

Fixpoint deliverAll (env : Env)
  (previewImages : VImagePreviewer → result VImagePreviewer)
  (rs : list Request) (v : VImagePreviewer) : result VImagePreviewer :=
  match rs with
  | [] => Ok v
  | r :: rs' =>
      v' ← deliver env previewImages r v;
      deliverAll env previewImages rs' v'
  end.

(** The body of the [while] loop of [previewImages]. *)
Definition scanStep (env : Env) (block : QTextBlock) (v : VImagePreviewer)
  : result (QTextBlock * VImagePreviewer) :=
  if isImagePreviewBlock v block then
    if negb (isValidImagePreviewBlock env v block) then
      let nblock := next block in
      let v' := removeBlock block v in
      Ok (rebase (m_document v) (m_document v') block nblock, v')
    else Ok (next block, v)
  else
    v' ← clearCorruptedImagePreviewBlock block v;
    previewImageOfOneBlock env block v'.

(** The [while] loop of [previewImages].  [hooks] lists, pass by pass, the
    calls the host makes back into the engine during that pass; they have
    run when the loop condition is read again. *)
Fixpoint scanLoop (env : Env)
  (previewImages : VImagePreviewer → result VImagePreviewer)
  (fuel : nat) (hooks : list (list Request))
  (block : QTextBlock) (v : VImagePreviewer)
  : result (QTextBlock * VImagePreviewer) :=
  if isValid (m_document v) block && m_enablePreview v then
    match fuel with
    | O => OutOfFuel
    | S fuel' =>
        '(block', v') ← scanStep env block v;
        v'' ← deliverAll env previewImages (hd [] hooks) v';
        scanLoop env previewImages fuel' (tl hooks) block' v''
    end
  else Ok (block, v).

(** What [previewImages] does once its loop is left. *)
Definition finishPreview (v : VImagePreviewer) : result VImagePreviewer :=
  let v := withIsPreviewing false v in
  v ← (if m_requestCearBlocks v
       then clearAllImagePreviewBlocks (withRequestCearBlocks false v)
       else Ok v);
  v ← (if m_requestRefreshBlocks v
       then refresh (withRequestRefreshBlocks false v)
       else Ok v);
  Ok (emitStatusChanged v).

(** [VImagePreviewer::previewImages].  [depth] bounds the nesting of
    re-entrant calls; a nested call finds [m_isPreviewing] set and returns
    at once, so depth 1 is enough. *)
Fixpoint previewImagesAt (depth : nat) (env : Env)
  (hooks : list (list Request)) (v : VImagePreviewer)
  : result VImagePreviewer :=
  if m_isPreviewing v then Ok v
  else
    match depth with
    | O => OutOfFuel
    | S depth' =>
        let v := withIsPreviewing true v in
        let block : QTextBlock := O in
        '(_, v) ← scanLoop env (previewImagesAt depth' env [])
                     (length (blocks (m_document v))) hooks block v;
        finishPreview v
    end.

Definition previewImages (env : Env) (hooks : list (list Request))
  (v : VImagePreviewer) : result VImagePreviewer :=
  previewImagesAt 1 env hooks v.

(** [VImagePreviewer::timerTimeout] as the event loop calls it. *)
Definition timerTimeout (env : Env) (hooks : list (list Request))
  (v : VImagePreviewer) : result VImagePreviewer :=
  timerTimeoutWith env (previewImages env hooks) v.

(** What the event loop hands to the engine between scans: the timer
    firing (with the calls made back into the scan it starts), the
    document's [contentsChange] signal, the public slots and a finished
    download. *)
Inductive Event : Type :=
| EvTimerTimeout (hooks : list (list Request))
| EvContentChange (p_charsRemoved p_charsAdded : Z)
| EvEnable
| EvDisable
| EvRefresh
| EvImageDownloaded (p_data : QByteArray) (p_url : QString).

Definition handle (env : Env) (e : Event) (v : VImagePreviewer)
  : result VImagePreviewer :=
  match e with
  | EvTimerTimeout hooks => timerTimeout env hooks (timerStop v)
  | EvContentChange r a => Ok (handleContentChange r a v)
  | EvEnable => Ok (enableImagePreview env v)
  | EvDisable => disableImagePreview v
  | EvRefresh => refresh v
  | EvImageDownloaded data url => Ok (imageDownloaded env data url v)
  end.

(** States the engine can be in when control is back in the event loop. *)
Inductive Reachable : VImagePreviewer → Prop :=
| reach_construct (d : QTextDocument) : Reachable (construct d)
| reach_handle (env : Env) (e : Event) (v v' : VImagePreviewer) :
    Reachable v → handle env e v = Ok v' → Reachable v'.

End Engine.

(* ===================================================================== *)
(** ** Spec: the vocabulary of the specification                          *)
(* ===================================================================== *)

Module Spec.
Import Text Doc Engine.

(** The markup [![...](ref)] at the very start of [s]. *)
Definition Markup (s ref : QString) : Prop :=
  ∃ alt post,
    s = [chBang; chLBracket] ++ alt ++ [chRBracket; chLParen]
          ++ ref ++ [chRParen] ++ post
    ∧ (chRBracket ∉ alt) ∧ (chRParen ∉ ref) ∧ ref ≠ [].

(** A line made of one placeholder character with only whitespace around
    it. *)
Definition SinglePlaceholder (s : QString) : Prop :=
  ∃ ws1 ws2, s = ws1 ++ [ObjectReplacementCharacter] ++ ws2
             ∧ Forall (λ c, isSpace c = true) ws1
             ∧ Forall (λ c, isSpace c = true) ws2.

(** The block-level readings behind the handle-level functions of the
    engine. *)
Definition isPreviewData (b : BlockData) : bool :=
  qstring_eqb (trimmed (blockText b)) [ObjectReplacementCharacter].

(** The positions of the placeholder characters of a text that starts at
    offset [i], in ascending order. *)
Fixpoint placeholderPositions (t : QString) (i : nat) : list nat :=
  match t with
  | [] => []
  | c :: t' =>
      if (c =? ObjectReplacementCharacter)%N
      then i :: placeholderPositions t' (S i)
      else placeholderPositions t' (S i)
  end.

(** Every character is a placeholder or a space. *)
Definition onlySpacesAround (t : QString) : bool :=
  forallb (fun c => (c =? ObjectReplacementCharacter)%N || isSpace c) t.

(** A corrupted line: placeholder characters mixed with text that is not
    whitespace. *)
Definition Corrupted (t : QString) : Prop :=
  ObjectReplacementCharacter ∈ t
  ∧ ∃ c, c ∈ t ∧ c ≠ ObjectReplacementCharacter ∧ isSpace c = false.

(** A block without its placeholder characters. *)
Definition stripPlaceholders (b : BlockData) : BlockData :=
  filter (λ cell, chr cell ≠ ObjectReplacementCharacter) b.

(** What the cleanup does to the document of a corrupted block: the block
    loses its placeholders, the deletions form one undo step (or join the
    edit block that is open), the modified flag stays. *)
Definition cleanedDocument (i : nat) (b : BlockData) (d : QTextDocument)
  : QTextDocument :=
  let dels := map (OpDeleteChar i)
                  (rev (placeholderPositions (blockText b) 0)) in
  match editBlockDepth d with
  | O => mkDocument (<[i := stripPlaceholders b]> (blocks d))
           (imageResources d) (isModified d) O []
           ((editBlockOps d ++ dels) :: undoStack d)
  | S n => mkDocument (<[i := stripPlaceholders b]> (blocks d))
           (imageResources d) (isModified d) (S n)
           (editBlockOps d ++ dels) (undoStack d)
  end.

(** The test of [clearCorruptedImagePreviewBlock], on a text. *)
Definition isCorrupted (t : QString) : bool :=
  negb (onlySpacesAround t)
  && negb (bool_decide (placeholderPositions t 0 = [])).

(** A block after the corruption cleanup. *)
Definition cleanBlock (b : BlockData) : BlockData :=
  if isCorrupted (blockText b) then stripPlaceholders b else b.

(** The document after the corruption cleanup of block [i]. *)
Definition cleanupDocument (i : nat) (d : QTextDocument) : QTextDocument :=
  match blocks d !! i with
  | Some b => if isCorrupted (blockText b) then cleanedDocument i b d else d
  | None => d
  end.

(** The key a source block asks for: its reference, resolved. *)
Definition pathOf (env : Env) (b : BlockData) : QString :=
  fetchImagePathToPreview env (blockText b).

(** The image format [fetchFormatFromPreviewBlock] finds in a block. *)
Definition formatOf (b : BlockData) : option QTextImageFormat :=
  let shift := indexOf ObjectReplacementCharacter (blockText b) in
  if 0 <=? shift then
    match b !! Z.to_nat shift with
    | Some cell => toImageFormat cell
    | None => None
    end
  else Some defaultImageFormat.

(** The key stored in a preview block. *)
Definition payloadOf (b : BlockData) : QString :=
  from_option propImagePath [] (formatOf b).

(** [isValidImagePreviewBlock] on a block and the block in front of it. *)
Definition validData (env : Env) (prev : option BlockData) (b : BlockData)
  : bool :=
  isPreviewData b
  && match prev with
     | Some pb =>
         negb (isEmpty (pathOf env pb))
         && qstring_eqb (payloadOf b) (pathOf env pb)
     | None => false
     end.

(** The block in front of position [i]. *)
Definition blockBefore (bs : list BlockData) (i : nat) : option BlockData :=
  match i with
  | O => None
  | S j => bs !! j
  end.

(** A key resolves to a cache resource: it is cached under a name, or it
    is a local file that decodes. *)
Definition resolvable (env : Env) (cache : gmap QString QString)
  (p : QString) : bool :=
  match cache !! p with
  | Some name => negb (isEmpty name)
  | None => fileExists env p && negb (isNull (loadImage env p))
  end.

(** The block [insertImagePreviewBlock] writes. *)
Definition previewBlock (name path : QString) : BlockData :=
  [mkCell ObjectReplacementCharacter (Some (mkImageFormat name path))].

(** A preview block whose format was rewritten by
    [updateFormatInPreviewBlock]. *)
Definition retargetBlock (name path : QString) (b : BlockData) : BlockData :=
  let shift := Z.to_nat (indexOf ObjectReplacementCharacter (blockText b)) in
  match b !! shift with
  | Some cell => <[shift := mkCell (chr cell) (Some (mkImageFormat name path))]> b
  | None => b
  end.

(** The members that steer the engine, as opposed to the document, the
    cache and the trace. *)
Definition control (v : VImagePreviewer) : bool * bool * bool * bool :=
  (m_enablePreview v, m_isPreviewing v, m_requestCearBlocks v,
   m_requestRefreshBlocks v).

(** Calls into a running scan that neither latch a request nor touch the
    cache: enabling, a content change, and the timer firing while the
    configuration permits previews (the nested [previewImages] returns at
    once). *)
Definition Benign (env : Env) (r : Request) : Prop :=
  match r with
  | ReqEnable => True
  | ReqContentChange _ _ => True
  | ReqTimerTimeout => getEnablePreviewImages env = true
  | ReqDisable => False
  | ReqRefresh => False
  | ReqImageDownloaded _ _ => False
  end.

Definition Quiet (env : Env) (hooks : list (list Request)) : Prop :=
  Forall (Forall (Benign env)) hooks.

(** The blocks after [removeBlock] on block [i]. *)
Definition removedBlocks (i : nat) (bs : list BlockData) : list BlockData :=
  match bs !! i with
  | Some (_ :: _) =>
      match i with
      | O => <[O := []]> bs
      | S _ => delete i bs
      end
  | _ => bs
  end.

(** Two documents that differ at most in their image resources. *)
Definition sameContent (d d' : QTextDocument) : Prop :=
  blocks d' = blocks d ∧ isModified d' = isModified d
  ∧ editBlockDepth d' = editBlockDepth d
  ∧ editBlockOps d' = editBlockOps d ∧ undoStack d' = undoStack d.

(** The processed part of a document, up to position [limit], is settled:
    every preview block there is valid, no source block there is corrupted,
    and a source block with a key has its preview block behind it unless
    the key does not resolve. *)
Definition settledBlock (env : Env) (cache : gmap QString QString)
  (bs : list BlockData) (limit j : nat) (b : BlockData) : Prop :=
  if isPreviewData b then validData env (blockBefore bs j) b = true
  else
    isCorrupted (blockText b) = false
    ∧ (pathOf env b ≠ [] →
       ((S j < limit)%nat
        ∧ ∃ nb, bs !! S j = Some nb ∧ isPreviewData nb = true)
       ∨ resolvable env cache (pathOf env b) = false).

Definition Settled (env : Env) (cache : gmap QString QString)
  (bs : list BlockData) (limit : nat) : Prop :=
  ∀ j b, (j < limit)%nat → bs !! j = Some b →
         settledBlock env cache bs limit j b.

(** Every block that counts as a preview block carries an image format on
    its placeholder, as the blocks written by the engine do. *)
Definition WellFormed (bs : list BlockData) : Prop :=
  Forall (λ b, isPreviewData b = true → is_Some (formatOf b)) bs.

(** Completions of a download of one key and resolutions of that key, in
    the order the event loop hands them to the engine. *)
Inductive CacheEvent : Type :=
| CacheDownloaded (p_data : QByteArray)
| CacheResolve.

Fixpoint runCacheEvents (env : Env) (key : QString) (evs : list CacheEvent)
  (v : VImagePreviewer) : result VImagePreviewer :=
  match evs with
  | [] => Ok v
  | CacheDownloaded data :: evs' =>
      runCacheEvents env key evs' (imageDownloaded env data key v)
  | CacheResolve :: evs' =>
      '(_, v') ← imageCacheResourceName env key v;
      runCacheEvents env key evs' v'
  end.

(** The image of the first completion that decodes. *)
Fixpoint firstDecoded (env : Env) (evs : list CacheEvent) : option QImage :=
  match evs with
  | [] => None
  | CacheDownloaded data :: evs' =>
      if isNull (imageFromData env data) then firstDecoded env evs'
      else Some (imageFromData env data)
  | CacheResolve :: evs' => firstDecoded env evs'
  end.

(** [n] resolutions of one key in a row: the names returned and the state
    left. *)
Fixpoint resolveRepeatedly (env : Env) (key : QString) (n : nat)
  (v : VImagePreviewer) : result (list QString * VImagePreviewer) :=
  match n with
  | O => Ok ([], v)
  | S n' =>
      '(name, v1) ← imageCacheResourceName env key v;
      '(names, v2) ← resolveRepeatedly env key n' v1;
      Ok (name :: names, v2)
  end.

(** No block below position [i] is a preview block. *)
Definition NoPreviewBelow (bs : list BlockData) (i : nat) : Prop :=
  ∀ j b, (j < i)%nat → bs !! j = Some b → isPreviewData b = false.

End Spec.

(* ===================================================================== *)
(** ** Examples: concrete documents and environments                      *)
(* ===================================================================== *)

Module Examples.
Import Text Doc Engine Spec.

(** A [QString] from an ASCII literal. *)
Definition qs (s : String.string) : QString :=
  map Ascii.N_of_ascii (String.list_ascii_of_string s).

(** A block of ordinary characters. *)
Definition plain (s : QString) : BlockData := map (fun c => mkCell c None) s.

(** A preview block as [insertImagePreviewBlock] writes it. *)
Definition preview (name path : QString) : BlockData :=
  [mkCell ObjectReplacementCharacter (Some (mkImageFormat name path))].

(** An unmodified document with the given blocks and no resource. *)
Definition document (bs : list BlockData) : QTextDocument :=
  mkDocument bs ∅ false O [] [].

(** An environment where nothing lies below the base path, references are
    taken as URLs unchanged, the only local image file is [a.png], and
    downloaded bytes decode unless they are empty. *)
Definition exEnv : Env :=
  mkEnv (fun _ => false) (fun _ => true) (fun s => s) (fun s => s)
        (fun s => bool_decide (s = qs "a.png"))
        (fun s => if bool_decide (s = qs "a.png") then Bitmap 7 else NullImage)
        (fun d => match d with [] => NullImage | x :: _ => Bitmap x end)
        true.

(** A note whose only line refers to a remote image. *)
Definition exRemoteDoc : QTextDocument :=
  document [plain (qs "![y](http://h/b.png)")].

(** A note with a local image, some text, a stray preview block, a
    corrupted line and a remote image. *)
Definition exMixedDoc : QTextDocument :=
  document [plain (qs "![x](a.png)"); plain (qs "text");
            preview (qs "q") (qs "q");
            plain (qs "ab" ++ [ObjectReplacementCharacter] ++ qs "cd");
            plain (qs "![y](http://h/b.png)")].

(** The state after one scan of [exMixedDoc]. *)
Definition exMixedAfter : VImagePreviewer :=
  match previewImages exEnv [] (construct exMixedDoc) with
  | Ok v => v
  | _ => construct exMixedDoc
  end.

(** A source line that now names [a.png], followed by the preview block of
    the image it named before; nothing is cached, the note is unmodified. *)
Definition exStale : VImagePreviewer :=
  construct (document [plain (qs "![x](a.png)");
                       preview (qs "old.png") (qs "old.png")]).

(** The line [abc], a placeholder, [def]. *)
Definition exCorruptedBlock : BlockData :=
  plain (qs "abc" ++ [ObjectReplacementCharacter] ++ qs "def").

Definition exCorrupted : VImagePreviewer :=
  construct (document [exCorruptedBlock]).

(** The local file [bad.png] exists; it does not decode in [exBadEnv] and
    decodes in [exRepairedEnv], after it was replaced on disk. *)
Definition exBadEnv : Env :=
  mkEnv (fun _ => false) (fun _ => true) (fun s => s) (fun s => s)
        (fun s => bool_decide (s = qs "bad.png"))
        (fun _ => NullImage)
        (fun _ => NullImage)
        true.

Definition exRepairedEnv : Env :=
  mkEnv (fun _ => false) (fun _ => true) (fun s => s) (fun s => s)
        (fun s => bool_decide (s = qs "bad.png"))
        (fun _ => Bitmap 9)
        (fun _ => NullImage)
        true.

(** A resolution, a failed and two successful completions of one
    download. *)
Definition exRace : list CacheEvent :=
  [CacheResolve; CacheDownloaded []; CacheDownloaded [5%N]; CacheResolve;
   CacheDownloaded [6%N]].

End Examples.

(* ===================================================================== *)
(** ** Behaviour: what the engine does to a document as a whole           *)
(* ===================================================================== *)

Module Behaviour.
Import Text Doc Engine Spec.

(** What the user wrote in a block: its characters without the
    placeholders; a line of whitespace counts as blank. *)
Definition userLine (b : BlockData) : QString :=
  let t := remove ObjectReplacementCharacter (blockText b) in
  if forallb isSpace t then [] else t.

(** The lines of a document that are not blank, in order. *)
Definition userContent (bs : list BlockData) : list QString :=
  filter (λ t, t ≠ []) (map userLine bs).

(** The blocks [clearAllImagePreviewBlocks] leaves: preview blocks are
    gone (the first block of the document is emptied instead), the other
    blocks have been through the corruption cleanup. *)
Definition clearedBlocks (bs : list BlockData) : list BlockData :=
  match bs with
  | [] => []
  | b :: rest =>
      (if isPreviewData b then [] else cleanBlock b)
      :: map cleanBlock (filter (λ b', isPreviewData b' = false) rest)
  end.

(** Events handled one after the other, each in the environment found
    when it arrives. *)
Fixpoint handleAll (es : list (Env * Event)) (v : VImagePreviewer)
  : result VImagePreviewer :=
  match es with
  | [] => Ok v
  | (env, e) :: es' => v' ← handle env e v; handleAll es' v'
  end.

(** Every cache entry names the key itself, and the document holds a
    decoded image under that name. *)
Definition CacheBacked (v : VImagePreviewer) : Prop :=
  ∀ key name, m_imageCache v !! key = Some name →
    name = key
    ∧ ∃ image, imageResources (m_document v) !! name = Some image
               ∧ isNull image = false.

(** Every preview block stores a key that resolves. *)
Definition PreviewsResolve (env : Env) (cache : gmap QString QString)
  (bs : list BlockData) : Prop :=
  Forall (λ nb, isPreviewData nb = true →
                resolvable env cache (payloadOf nb) = true) bs.

(** The engine at rest between two events: no scan is running and no
    request is latched. *)
Definition Idle (v : VImagePreviewer) : Prop :=
  m_isPreviewing v = false ∧ m_requestCearBlocks v = false
  ∧ m_requestRefreshBlocks v = false.

(** An edit of the user between two events: the document holds new blocks
    and is marked modified, and its [contentsChange] signal reaches
    [handleContentChange]. *)
Definition userEdit (bs : list BlockData) (p_charsRemoved p_charsAdded : Z)
  (v : VImagePreviewer) : VImagePreviewer :=
  let d := m_document v in
  handleContentChange p_charsRemoved p_charsAdded
    (withDocument
       (mkDocument bs (imageResources d) true (editBlockDepth d)
                   (editBlockOps d) (undoStack d)) v).

(** What reaches the engine between scans: an event, or an edit of the
    user. *)
Inductive Input : Type :=
| InEvent (env : Env) (e : Event)
| InEdit (bs : list BlockData) (p_charsRemoved p_charsAdded : Z).

Fixpoint runInputs (ins : list Input) (v : VImagePreviewer)
  : result VImagePreviewer :=
  match ins with
  | [] => Ok v
  | InEvent env e :: ins' => v' ← handle env e v; runInputs ins' v'
  | InEdit bs r a :: ins' => runInputs ins' (userEdit bs r a v)
  end.

(** An input that leaves the document well-formed when it is an edit. *)
Definition keepsWellFormed (x : Input) : Prop :=
  match x with
  | InEvent _ _ => True
  | InEdit bs _ _ => WellFormed bs
  end.

(** A note with a local image, a line of text and a remote image. *)
Definition exLinksDoc : QTextDocument :=
  mkDocument
    [map (λ c, mkCell c None)
         (map Ascii.N_of_ascii (String.list_ascii_of_string "![x](a.png)"));
     map (λ c, mkCell c None)
         (map Ascii.N_of_ascii (String.list_ascii_of_string "text"));
     map (λ c, mkCell c None)
         (map Ascii.N_of_ascii
              (String.list_ascii_of_string "![y](http://h/b.png)"))]
    ∅ false O [] [].

End Behaviour.

(* ===================================================================== *)
(** ** Facts about the text layer                                         *)
(* ===================================================================== *)

Module TextFacts.
Import Text Doc Engine Spec.

Lemma until_split c s : s = takeUntil c s ++ dropUntil c s.
Proof.
  induction s as [|d s IH]; simpl; [done|].
  destruct (N.eqb_spec d c); simpl; [done|]. by rewrite <- IH.
Qed.

Lemma takeUntil_free c s : c ∉ takeUntil c s.
Proof.
  induction s as [|d s IH]; simpl.
  - apply not_elem_of_nil.
  - destruct (N.eqb_spec d c).
    + apply not_elem_of_nil.
    + apply not_elem_of_cons. split; [congruence|done].
Qed.

Lemma takeUntil_app c a r : c ∉ a → takeUntil c (a ++ c :: r) = a.
Proof.
  induction a as [|d a IH]; simpl; intros H.
  - by rewrite N.eqb_refl.
  - apply not_elem_of_cons in H as [H1 H2].
    destruct (N.eqb_spec d c); [congruence|]. by rewrite IH.
Qed.

Lemma dropUntil_app c a r : c ∉ a → dropUntil c (a ++ c :: r) = c :: r.
Proof.
  induction a as [|d a IH]; simpl; intros H.
  - by rewrite N.eqb_refl.
  - apply not_elem_of_cons in H as [H1 H2].
    destruct (N.eqb_spec d c); [congruence|]. by rewrite IH.
Qed.

Lemma matchAt_spec s ref : matchAt s = Some ref ↔ Markup s ref.
Proof.
  split.
  - unfold matchAt. intros H.
    destruct s as [|c0 [|c1 r]]; try done.
    destruct (N.eqb_spec c0 chBang) as [->|]; [|done].
    destruct (N.eqb_spec c1 chLBracket) as [->|]; [|done]. simpl in H.
    pose proof (until_split chRBracket r) as Hr.
    pose proof (takeUntil_free chRBracket r) as Hfree.
    destruct (dropUntil chRBracket r) as [|c2 [|c3 r2]]; try done.
    destruct (N.eqb_spec c2 chRBracket) as [->|]; [|done].
    destruct (N.eqb_spec c3 chLParen) as [->|]; [|done]. simpl in H.
    pose proof (until_split chRParen r2) as Hr2.
    pose proof (takeUntil_free chRParen r2) as Hfree2.
    destruct (takeUntil chRParen r2) as [|d cap]; [done|].
    destruct (dropUntil chRParen r2) as [|c4 post]; [done|].
    destruct (N.eqb_spec c4 chRParen) as [->|]; [|done].
    injection H as <-.
    exists (takeUntil chRBracket r), post.
    split; [|done]. rewrite Hr at 1. rewrite Hr2. simpl.
    reflexivity.
  - intros (alt & post & -> & Ha & Hr & Hne).
    unfold matchAt. simpl.
    replace (alt ++ chRBracket :: chLParen :: ref ++ chRParen :: post)
      with (alt ++ chRBracket :: (chLParen :: ref ++ chRParen :: post)) by done.
    rewrite dropUntil_app by done. simpl.
    rewrite takeUntil_app, dropUntil_app by done.
    destruct ref; [done|]. by rewrite N.eqb_refl.
Qed.

Lemma Occurrence_matchAt s pos ref :
  Occurrence s pos ref ↔ matchAt (drop pos s) = Some ref ∧ (pos ≤ length s)%nat.
Proof.
  rewrite matchAt_spec. split.
  - intros (pre & alt & post & -> & <- & H). split.
    + rewrite drop_app_length. by exists alt, post.
    + rewrite length_app. lia.
  - intros [(alt & post & Hs & H) Hle].
    exists (take pos s), alt, post. split; [|split; [|done]].
    + rewrite <- Hs. by rewrite take_drop.
    + rewrite length_take. lia.
Qed.

Lemma matchAt_nil : matchAt [] = None.
Proof. done. Qed.

Lemma indexInFrom_spec s p :
  (indexInFrom s p = -1 ∧ 0 <= p → ∀ j, matchAt (drop j s) = None) ∧
  (0 <= p → indexInFrom s p = -1 ∨
     ∃ i, indexInFrom s p = p + Z.of_nat i
          ∧ is_Some (matchAt (drop i s))
          ∧ ∀ j, (j < i)%nat → matchAt (drop j s) = None).
Proof.
  revert p. induction s as [|c s IH]; intros p.
  - simpl. split; [intros _ j; by rewrite drop_nil | by left].
  - cbn [indexInFrom]. destruct (matchAt (c :: s)) eqn:Hm.
    + split; [lia|]. intros Hp. right. exists O. rewrite Z.add_0_r.
      split; [done|]. split; [by rewrite drop_0, Hm | lia].
    + destruct (IH (p + 1)) as [IH1 IH2]. split.
      * intros [H Hp] [|j]; [done|]. simpl. apply IH1. split; [done|lia].
      * intros Hp. destruct IH2 as [H|(i & Hi & Hs & Hlt)]; [lia|by left|].
        right. exists (S i). split; [lia|]. split; [done|].
        intros [|j] Hj; [done|]. simpl. apply Hlt. lia.
Qed.

Lemma lastIndexInFrom_spec s p :
  (lastIndexInFrom s p = -1 ∧ 0 <= p → ∀ j, matchAt (drop j s) = None) ∧
  (0 <= p → lastIndexInFrom s p = -1 ∨
     ∃ i, lastIndexInFrom s p = p + Z.of_nat i
          ∧ is_Some (matchAt (drop i s))
          ∧ ∀ j, (i < j)%nat → matchAt (drop j s) = None).
Proof.
  revert p. induction s as [|c s IH]; intros p.
  - simpl. split; [intros _ j; by rewrite drop_nil | by left].
  - cbn [lastIndexInFrom]. destruct (IH (p + 1)) as [IH1 IH2].
    destruct (Z.eqb_spec (lastIndexInFrom s (p + 1)) (-1)) as [E|E].
    + assert (0 <= p → ∀ j, matchAt (drop j s) = None) as Hnone.
      { intros Hp. apply IH1. split; [done|lia]. }
      destruct (matchAt (c :: s)) eqn:Hm.
      * split; [lia|]. intros Hp. right. exists O. rewrite Z.add_0_r.
        split; [done|]. split; [by rewrite drop_0, Hm|].
        intros [|j] Hj; [lia|]. simpl. by apply Hnone.
      * split; [|by left]. intros [_ Hp] [|j]; [done|]. simpl. by apply Hnone.
    + split; [intros [? ?]; done|]. intros Hp.
      destruct IH2 as [H|(i & Hi & Hs & Hgt)]; [lia|done|].
      right. exists (S i). split; [lia|]. split; [done|].
      intros [|j] Hj; [lia|]. simpl. apply Hgt. lia.
Qed.

Lemma fetch_cases s :
  (∃ i ref, fetchImageUrlToPreview s = ref
            ∧ matchAt (drop i s) = Some ref
            ∧ ∀ j, j ≠ i → matchAt (drop j s) = None)
  ∨ (fetchImageUrlToPreview s = [] ∧ ∀ j, matchAt (drop j s) = None)
  ∨ (fetchImageUrlToPreview s = []
     ∧ ∃ i j, (i < j)%nat ∧ is_Some (matchAt (drop i s))
              ∧ is_Some (matchAt (drop j s))).
Proof.
  unfold fetchImageUrlToPreview, indexIn, lastIndexIn.
  destruct (indexInFrom_spec s 0) as [F1 F2].
  destruct (lastIndexInFrom_spec s 0) as [_ L2].
  destruct (Z.eqb_spec (indexInFrom s 0) (-1)) as [E|E].
  { right; left. split; [done|]. apply F1. split; [done|lia]. }
  destruct F2 as [F2|(i & Hi & Hsi & Hlt)]; [lia|done|].
  destruct L2 as [L2|(k & Hk & Hsk & Hgt)]; [lia| |].
  { exfalso. destruct (lastIndexInFrom_spec s 0) as [L1 _].
    rewrite L1 in Hsi; [by destruct Hsi | split; [done|lia]]. }
  rewrite Hi, Hk.
  destruct (Z.eqb_spec (0 + Z.of_nat k) (0 + Z.of_nat i)) as [E2|E2]; simpl.
  - assert (k = i) as -> by lia. left.
    destruct Hsi as [ref Href]. exists i, ref.
    unfold capturedText1. replace (Z.to_nat (0 + Z.of_nat i)) with i by lia.
    rewrite Href. split; [done|]. split; [done|].
    intros j Hj. destruct (decide (j < i)%nat); [by apply Hlt|].
    apply Hgt. lia.
  - right; right. split; [done|]. exists i, k. split; [|done].
    destruct (decide (i < k)%nat); [done|].
    assert (k < i)%nat as Hki by lia.
    apply Hlt in Hki. rewrite Hki in Hsk. by destruct Hsk.
Qed.

Lemma matchAt_drop_ge s j : (length s ≤ j)%nat → matchAt (drop j s) = None.
Proof. intros H. by rewrite drop_ge. Qed.

Lemma matchAt_Occurrence s pos ref :
  matchAt (drop pos s) = Some ref → Occurrence s pos ref.
Proof.
  intros H. apply Occurrence_matchAt. split; [done|].
  destruct (decide (pos ≤ length s)%nat); [done|].
  rewrite matchAt_drop_ge in H by lia. done.
Qed.

Lemma fetch_exactly_one line ref :
  ExactlyOneOccurrence line ref
  ↔ fetchImageUrlToPreview line = ref ∧ ref ≠ [].
Proof.
  split.
  - intros (pos & Hocc & Huniq).
    pose proof Hocc as (_ & _ & _ & _ & _ & _ & _ & Hne).
    split; [|done].
    apply Occurrence_matchAt in Hocc as [Hm _].
    destruct (fetch_cases line) as [(i & r & Hf & Hi & _)|[[_ Hz]|[_ Ht]]].
    + apply matchAt_Occurrence in Hi as Hio. apply Huniq in Hio as ->.
      congruence.
    + rewrite Hz in Hm. done.
    + destruct Ht as (i & j & Hij & [ri Hi] & [rj Hj]).
      apply matchAt_Occurrence, Huniq in Hi.
      apply matchAt_Occurrence, Huniq in Hj. lia.
  - intros [Hf Hne].
    destruct (fetch_cases line) as [(i & r & Hf' & Hi & Hother)|[[Hf' _]|[Hf' _]]];
      [|congruence..].
    assert (r = ref) as -> by congruence.
    exists i. split; [by apply matchAt_Occurrence|].
    intros pos' ref' Ho. apply Occurrence_matchAt in Ho as [Ho _].
    destruct (decide (pos' = i)); [done|].
    rewrite Hother in Ho by done. done.
Qed.

Lemma fetch_none line :
  fetchImageUrlToPreview line = [] ↔ ¬ ∃ ref, ExactlyOneOccurrence line ref.
Proof.
  split.
  - intros Hf [ref H]. apply fetch_exactly_one in H as [? ?]. congruence.
  - intros H. destruct (fetchImageUrlToPreview line) as [|c r] eqn:E; [done|].
    exfalso. apply H. exists (c :: r). apply fetch_exactly_one. by rewrite E.
Qed.

(* trimmed *)
Lemma dropSpaces_split s :
  ∃ ws, s = ws ++ dropSpaces s ∧ Forall (λ c, isSpace c = true) ws
        ∧ (∀ c r, dropSpaces s = c :: r → isSpace c = false).
Proof.
  induction s as [|c s (ws & Hs & Hws & Hhd)]; simpl.
  - exists []. split; [done|]. split; [constructor|done].
  - destruct (isSpace c) eqn:E.
    + exists (c :: ws). split; [by rewrite <- app_comm_cons, <- Hs|].
      split; [by constructor|done].
    + exists []. split; [done|]. split; [constructor|].
      intros c' r [= <- <-]. done.
Qed.

Lemma dropSpaces_app ws s :
  Forall (λ c, isSpace c = true) ws → dropSpaces (ws ++ s) = dropSpaces s.
Proof. induction 1 as [|c ws Hc _ IH]; simpl; [done|]. by rewrite Hc. Qed.

Lemma dropSpaces_keep c s : isSpace c = false → dropSpaces (c :: s) = c :: s.
Proof. intros H. cbn [dropSpaces]. by rewrite H. Qed.

Lemma isSpace_ORC : isSpace ObjectReplacementCharacter = false.
Proof. reflexivity. Qed.

Lemma trimmed_placeholder s :
  trimmed s = [ObjectReplacementCharacter] ↔ SinglePlaceholder s.
Proof.
  unfold trimmed. split.
  - intros H.
    destruct (dropSpaces_split s) as (ws1 & Hs & Hws1 & _).
    destruct (dropSpaces_split (rev (dropSpaces s))) as (ws2 & Hr & Hws2 & _).
    apply (f_equal (@rev _)) in H. rewrite rev_involutive in H. simpl in H.
    rewrite H in Hr. apply (f_equal (@rev _)) in Hr.
    rewrite rev_involutive, rev_app_distr in Hr. simpl in Hr.
    exists ws1, (rev ws2).
    split; [etrans; [exact Hs|]; by rewrite Hr|]. split; [done|].
    by apply Forall_rev.
  - intros (ws1 & ws2 & -> & H1 & H2).
    rewrite dropSpaces_app by done. cbn [app].
    rewrite dropSpaces_keep by apply isSpace_ORC.
    change (ObjectReplacementCharacter :: ws2)
      with ([ObjectReplacementCharacter] ++ ws2).
    rewrite rev_app_distr, dropSpaces_app by by apply Forall_rev.
    cbn [rev app]. by rewrite dropSpaces_keep by apply isSpace_ORC.
Qed.

End TextFacts.

(* ===================================================================== *)
(** ** Facts about blocks and the corruption cleanup                      *)
(* ===================================================================== *)

Module DocFacts.
Import Text Doc Engine Spec TextFacts.

Lemma isValid_true d i : isValid d i = true ↔ is_Some (blocks d !! i).
Proof.
  unfold isValid. rewrite bool_decide_eq_true. symmetry. apply lookup_lt_is_Some.
Qed.

Lemma isValid_Some d i b : blocks d !! i = Some b → isValid d i = true.
Proof. intros H. apply isValid_true. by eexists. Qed.

Lemma isValid_false d i : isValid d i = false ↔ blocks d !! i = None.
Proof.
  unfold isValid. rewrite bool_decide_eq_false, lookup_ge_None. lia.
Qed.

Lemma text_Some d i b : blocks d !! i = Some b → text d i = blockText b.
Proof. unfold text. by intros ->. Qed.

Lemma text_None d i : blocks d !! i = None → text d i = [].
Proof. unfold text. by intros ->. Qed.

Lemma isImagePreviewBlock_lookup v i :
  isImagePreviewBlock v i =
  match blocks (m_document v) !! i with
  | Some b => isPreviewData b
  | None => false
  end.
Proof.
  unfold isImagePreviewBlock, text, isPreviewData.
  destruct (blocks (m_document v) !! i) as [b|] eqn:E.
  - by rewrite (isValid_Some _ _ _ E).
  - apply isValid_false in E. by rewrite E.
Qed.

Lemma isPreviewData_true b :
  isPreviewData b = true ↔ SinglePlaceholder (blockText b).
Proof.
  unfold isPreviewData, qstring_eqb. rewrite bool_decide_eq_true.
  apply trimmed_placeholder.
Qed.

(** scanning a text for placeholders *)
Lemma scanReplacementChars_eq t i acc os :
  scanReplacementChars t i acc os
  = (acc ++ placeholderPositions t i, os && onlySpacesAround t).
Proof.
  revert i acc os. induction t as [|c t IH]; intros i acc os; simpl.
  - by rewrite app_nil_r, andb_true_r.
  - destruct (N.eqb_spec c ObjectReplacementCharacter) as [->|Hne]; simpl.
    + rewrite IH. by rewrite <- app_assoc.
    + destruct (isSpace c) eqn:Hs; simpl; rewrite IH; [done|].
      by rewrite andb_false_r.
Qed.

Lemma placeholderPositions_nil t i :
  placeholderPositions t i = [] ↔ ObjectReplacementCharacter ∉ t.
Proof.
  revert i. induction t as [|c t IH]; intros i; simpl.
  - split; [intros _; apply not_elem_of_nil | done].
  - destruct (N.eqb_spec c ObjectReplacementCharacter) as [->|Hne].
    + split; [done|]. intros H. exfalso. apply H. by left.
    + rewrite IH, not_elem_of_cons. split; [by intros ?|by intros [_ ?]].
Qed.

Lemma onlySpacesAround_false t :
  onlySpacesAround t = false
  ↔ ∃ c, c ∈ t ∧ c ≠ ObjectReplacementCharacter ∧ isSpace c = false.
Proof.
  unfold onlySpacesAround. induction t as [|c t IH]; simpl.
  - split; [done|]. intros (c & H & _). by apply elem_of_nil in H.
  - rewrite andb_false_iff, orb_false_iff, IH, N.eqb_neq. split.
    + intros [[H1 H2]|(c' & H & H')].
      * exists c. split; [by left|done].
      * exists c'. split; [by right|done].
    + intros (c' & [->|H]%elem_of_cons & H'); [by left|].
      right. by exists c'.
Qed.

Lemma corrupted_scan t :
  Corrupted t ↔
  (negb (onlySpacesAround t)
   && negb (bool_decide (placeholderPositions t 0 = []))) = true.
Proof.
  unfold Corrupted.
  rewrite andb_true_iff, !negb_true_iff, bool_decide_eq_false.
  rewrite onlySpacesAround_false, placeholderPositions_nil.
  split; intros [H1 H2]; split; try done.
  - by intros H.
  - destruct (decide (ObjectReplacementCharacter ∈ t)); done.
Qed.

Lemma SinglePlaceholder_onlySpaces t :
  SinglePlaceholder t → onlySpacesAround t = true.
Proof.
  intros (ws1 & ws2 & -> & H1 & H2). unfold onlySpacesAround.
  rewrite !forallb_app. cbn [forallb]. rewrite N.eqb_refl. cbn [orb andb].
  rewrite andb_true_iff.
  split; apply forallb_forall; intros c Hc.
  - rewrite Forall_forall in H1. rewrite (H1 c); [apply orb_true_r|].
    by apply list_elem_of_In.
  - rewrite Forall_forall in H2. rewrite (H2 c); [apply orb_true_r|].
    by apply list_elem_of_In.
Qed.

Lemma SinglePlaceholder_not_corrupted t : SinglePlaceholder t → ¬ Corrupted t.
Proof.
  intros H [_ Hc]. apply onlySpacesAround_false in Hc.
  rewrite SinglePlaceholder_onlySpaces in Hc; done.
Qed.

Lemma clearCorrupted_idle i v :
  ¬ Corrupted (text (m_document v) i) →
  clearCorruptedImagePreviewBlock i v = Ok v.
Proof.
  intros H. unfold clearCorruptedImagePreviewBlock.
  destruct (isValid (m_document v) i); simpl; [|done].
  rewrite scanReplacementChars_eq. simpl.
  rewrite corrupted_scan in H. apply not_true_is_false in H. by rewrite H.
Qed.

(** ** The deletions of the cleanup *)

Lemma deleteChar_inside i pos d data :
  blocks d !! i = Some data → (pos < length data)%nat →
  deleteChar (i, pos) d
  = recordEdit (OpDeleteChar i pos)
      (<[i := take pos data ++ drop (S pos) data]> (blocks d)) d.
Proof.
  intros H Hlt. unfold deleteChar. simpl. rewrite H.
  by rewrite bool_decide_eq_true_2.
Qed.

Lemma deleteReplacementChars_cons i p ps d :
  deleteReplacementChars i (p :: ps) d
  = deleteChar (i, p) (deleteReplacementChars i ps d).
Proof. unfold deleteReplacementChars. simpl. by rewrite fold_left_app. Qed.

Lemma blockText_strip b :
  blockText (stripPlaceholders b) = remove ObjectReplacementCharacter (blockText b).
Proof.
  unfold stripPlaceholders, remove, blockText.
  induction b as [|c b IH]; [done|]. cbn [map].
  destruct (decide (chr c ≠ ObjectReplacementCharacter)).
  - rewrite !filter_cons_True by done. cbn [map]. by rewrite IH.
  - rewrite !filter_cons_False by done. done.
Qed.

Lemma deleteReplacementChars_spec i suf : ∀ pre d n,
  blocks d !! i = Some (pre ++ suf) → editBlockDepth d = S n →
  deleteReplacementChars i
    (placeholderPositions (blockText suf) (length pre)) d
  = mkDocument (<[i := pre ++ stripPlaceholders suf]> (blocks d))
      (imageResources d)
      (match placeholderPositions (blockText suf) (length pre) with
       | [] => isModified d
       | _ => true
       end)
      (S n)
      (editBlockOps d
         ++ map (OpDeleteChar i)
              (rev (placeholderPositions (blockText suf) (length pre))))
      (undoStack d).
Proof.
  induction suf as [|c suf IH]; intros pre d n Hi Hn.
  - simpl. unfold deleteReplacementChars. simpl.
    rewrite !app_nil_r. rewrite list_insert_id by (by rewrite app_nil_r in Hi).
    destruct d; simpl in *; by subst.
  - assert (blocks d !! i = Some ((pre ++ [c]) ++ suf)) as Hi'
      by (by rewrite <- app_assoc).
    specialize (IH (pre ++ [c]) d n Hi' Hn).
    rewrite length_app in IH. simpl in IH.
    replace (length pre + 1)%nat with (S (length pre)) in IH by lia.
    cbn [blockText map placeholderPositions].
    fold (blockText suf).
    destruct (N.eqb_spec (chr c) ObjectReplacementCharacter) as [Hc|Hc].
    + rewrite deleteReplacementChars_cons, IH.
      erewrite deleteChar_inside; cycle 1.
      * simpl. apply list_lookup_insert_eq. by eapply lookup_lt_Some.
      * rewrite !length_app. simpl. lia.
      * unfold recordEdit. simpl. f_equal.
        -- rewrite list_insert_insert_eq. f_equal.
           unfold stripPlaceholders. rewrite filter_cons_False by (by intros ?).
           rewrite <- app_assoc. simpl.
           rewrite take_app_length.
           change (pre ++ c :: filter _ suf)
             with (pre ++ [c]
                     ++ filter (λ cell, chr cell ≠ ObjectReplacementCharacter)
                          suf).
           by rewrite app_assoc, drop_app_length'
             by (rewrite length_app; simpl; lia).
        -- rewrite <- app_assoc. f_equal. simpl. by rewrite map_app.
    + rewrite IH. f_equal. f_equal.
      unfold stripPlaceholders. rewrite filter_cons_True by done.
      by rewrite <- app_assoc.
Qed.

Lemma placeholderPositions_nonempty t :
  ObjectReplacementCharacter ∈ t → placeholderPositions t 0 ≠ [].
Proof. intros H E. by apply placeholderPositions_nil in E. Qed.

Lemma clearCorrupted_active i v b :
  blocks (m_document v) !! i = Some b →
  Corrupted (blockText b) →
  clearCorruptedImagePreviewBlock i v
  = Ok (withDocument (cleanedDocument i b (m_document v)) v).
Proof.
  intros Hi Hc. unfold clearCorruptedImagePreviewBlock.
  rewrite (isValid_Some _ _ _ Hi). simpl.
  rewrite (text_Some _ _ _ Hi), scanReplacementChars_eq. simpl.
  pose proof Hc as Hc'. apply corrupted_scan in Hc'. rewrite Hc'.
  destruct Hc as [Horc _]. apply placeholderPositions_nonempty in Horc.
  rewrite (deleteReplacementChars_spec i b [] _ (editBlockDepth (m_document v)))
    by done.
  simpl.
  assert (Hlt : (i < length (blocks (m_document v)))%nat)
    by (by eapply lookup_lt_Some).
  assert (∀ d', blocks d' = <[i := stripPlaceholders b]> (blocks (m_document v)) →
    qstring_eqb (remove ObjectReplacementCharacter (blockText b))
                (text d' i) = true) as Hassert.
  { intros d' Hd'. unfold qstring_eqb, text. rewrite Hd'.
    rewrite list_lookup_insert_eq by done.
    apply bool_decide_eq_true. by rewrite blockText_strip. }
  unfold cleanedDocument, endEditBlock. simpl.
  destruct (editBlockDepth (m_document v)) as [|n] eqn:En; simpl.
  - rewrite Hassert by done. simpl.
    destruct (placeholderPositions (blockText b) 0) eqn:Ep; [done|].
    destruct (editBlockOps (m_document v) ++ _) eqn:Eo; [|done].
    apply app_eq_nil in Eo as [_ Eo].
    apply (f_equal length) in Eo. rewrite length_map, length_rev in Eo.
    done.
  - rewrite Hassert by done. done.
Qed.

End DocFacts.

(* ===================================================================== *)
(** ** Facts about the mutation primitives of the engine                  *)
(* ===================================================================== *)

Module EngineFacts.
Import Text Doc Engine Spec TextFacts DocFacts.

Lemma withDocument_id v : withDocument (m_document v) v = v.
Proof. by destruct v. Qed.

Lemma isCorrupted_true t : isCorrupted t = true ↔ Corrupted t.
Proof. symmetry. apply corrupted_scan. Qed.

Lemma isCorrupted_false t : isCorrupted t = false ↔ ¬ Corrupted t.
Proof. rewrite <- isCorrupted_true. by destruct (isCorrupted t). Qed.

Lemma clearCorrupted_eq i v :
  clearCorruptedImagePreviewBlock i v
  = Ok (withDocument (cleanupDocument i (m_document v)) v).
Proof.
  unfold cleanupDocument.
  destruct (blocks (m_document v) !! i) as [b|] eqn:Hi.
  - destruct (isCorrupted (blockText b)) eqn:Hc.
    + apply clearCorrupted_active; [done|by apply isCorrupted_true].
    + rewrite withDocument_id. apply clearCorrupted_idle.
      rewrite (text_Some _ _ _ Hi). by apply isCorrupted_false.
  - rewrite withDocument_id. unfold clearCorruptedImagePreviewBlock.
    apply isValid_false in Hi. by rewrite Hi.
Qed.

Lemma cleanedDocument_blocks i b d :
  blocks (cleanedDocument i b d) = <[i := stripPlaceholders b]> (blocks d).
Proof. unfold cleanedDocument. by destruct (editBlockDepth d). Qed.

Lemma cleanedDocument_isModified i b d :
  isModified (cleanedDocument i b d) = isModified d.
Proof. unfold cleanedDocument. by destruct (editBlockDepth d). Qed.

Lemma cleanedDocument_resources i b d :
  imageResources (cleanedDocument i b d) = imageResources d.
Proof. unfold cleanedDocument. by destruct (editBlockDepth d). Qed.

Lemma cleanupDocument_blocks i d b :
  blocks d !! i = Some b →
  blocks (cleanupDocument i d) = <[i := cleanBlock b]> (blocks d).
Proof.
  intros H. unfold cleanupDocument, cleanBlock. rewrite H.
  destruct (isCorrupted (blockText b)).
  - apply cleanedDocument_blocks.
  - by rewrite list_insert_id.
Qed.

Lemma cleanupDocument_blocks_None i d :
  blocks d !! i = None → cleanupDocument i d = d.
Proof. intros H. unfold cleanupDocument. by rewrite H. Qed.

Lemma cleanupDocument_isModified i d :
  isModified (cleanupDocument i d) = isModified d.
Proof.
  unfold cleanupDocument. destruct (blocks d !! i); [|done].
  destruct (isCorrupted _); [apply cleanedDocument_isModified|done].
Qed.

Lemma cleanupDocument_resources i d :
  imageResources (cleanupDocument i d) = imageResources d.
Proof.
  unfold cleanupDocument. destruct (blocks d !! i); [|done].
  destruct (isCorrupted _); [apply cleanedDocument_resources|done].
Qed.

Lemma cleanupDocument_idle i d b :
  blocks d !! i = Some b → isCorrupted (blockText b) = false →
  cleanupDocument i d = d.
Proof. intros H Hc. unfold cleanupDocument. by rewrite H, Hc. Qed.

(** cleaned blocks *)
Lemma stripPlaceholders_free b :
  ObjectReplacementCharacter ∉ blockText (stripPlaceholders b).
Proof.
  rewrite blockText_strip. unfold remove. intros H.
  apply list_elem_of_filter in H as [H _]. done.
Qed.

Lemma not_placeholder_not_preview b :
  ObjectReplacementCharacter ∉ blockText b → isPreviewData b = false.
Proof.
  intros H. apply not_true_is_false. intros Hp.
  apply isPreviewData_true in Hp as (ws1 & ws2 & Ht & _).
  apply H. rewrite Ht. apply elem_of_app. right. by left.
Qed.

Lemma not_placeholder_not_corrupted t :
  ObjectReplacementCharacter ∉ t → isCorrupted t = false.
Proof. intros H. apply isCorrupted_false. by intros [? _]. Qed.

Lemma cleanBlock_not_preview b :
  isPreviewData b = false → isPreviewData (cleanBlock b) = false.
Proof.
  intros H. unfold cleanBlock. destruct (isCorrupted (blockText b)); [|done].
  apply not_placeholder_not_preview, stripPlaceholders_free.
Qed.

Lemma cleanBlock_not_corrupted b : isCorrupted (blockText (cleanBlock b)) = false.
Proof.
  unfold cleanBlock. destruct (isCorrupted (blockText b)) eqn:E; [|done].
  apply not_placeholder_not_corrupted, stripPlaceholders_free.
Qed.

Lemma cleanBlock_idle b : isCorrupted (blockText b) = false → cleanBlock b = b.
Proof. intros H. unfold cleanBlock. by rewrite H. Qed.

Lemma isPreviewData_not_corrupted b :
  isPreviewData b = true → isCorrupted (blockText b) = false.
Proof.
  intros H. apply isCorrupted_false, SinglePlaceholder_not_corrupted.
  by apply isPreviewData_true.
Qed.

Lemma isPreviewData_nil : isPreviewData [] = false.
Proof. reflexivity. Qed.

(** removeBlock *)
Lemma removeBlock_eq i v :
  ∃ d', removeBlock i v = withDocument d' v
        ∧ blocks d' = removedBlocks i (blocks (m_document v))
        ∧ isModified d' = isModified (m_document v)
        ∧ imageResources d' = imageResources (m_document v).
Proof.
  unfold removeBlock. eexists. split; [done|].
  unfold removeBlockUnderCursor, removedBlocks.
  destruct (blocks (m_document v) !! i) as [[|c b]|]; simpl; [done| |done].
  destruct i; unfold recordEdit; destruct (editBlockDepth _); done.
Qed.

Lemma removedBlocks_preview i bs b :
  bs !! i = Some b → isPreviewData b = true →
  removedBlocks i bs = match i with O => <[O := []]> bs | S _ => delete i bs end.
Proof.
  intros H Hp. unfold removedBlocks. rewrite H.
  destruct b; [by rewrite isPreviewData_nil in Hp|done].
Qed.

Lemma isEmpty_true (s : QString) : isEmpty s = true ↔ s = [].
Proof. by destruct s. Qed.

Lemma isEmpty_false (s : QString) : isEmpty s = false ↔ s ≠ [].
Proof. by destruct s. Qed.

Lemma qstring_eqb_true (s t : QString) : qstring_eqb s t = true ↔ s = t.
Proof. apply bool_decide_eq_true. Qed.

Lemma qstring_eqb_false (s t : QString) : qstring_eqb s t = false ↔ s ≠ t.
Proof. apply bool_decide_eq_false. Qed.

Lemma resolvable_insert env cache p q :
  p ≠ [] → resolvable env cache p = true →
  resolvable env (<[p := imagePathToCacheResourceName p]> cache) q
  = resolvable env cache q.
Proof.
  intros Hp Hr. unfold resolvable, imagePathToCacheResourceName.
  destruct (decide (p = q)) as [<-|Hne].
  - rewrite lookup_insert_eq. unfold resolvable in Hr.
    destruct (cache !! p); destruct p; done.
  - by rewrite lookup_insert_ne.
Qed.

Lemma resolve_spec env p v :
  p ≠ [] →
  ∃ name v',
    imageCacheResourceName env p v = Ok (name, v')
    ∧ sameContent (m_document v) (m_document v')
    ∧ control v' = control v
    ∧ (∀ q, resolvable env (m_imageCache v') q
            = resolvable env (m_imageCache v) q)
    ∧ isEmpty name = negb (resolvable env (m_imageCache v) p)
    ∧ (resolvable env (m_imageCache v) p = false →
       m_document v' = m_document v ∧ m_imageCache v' = m_imageCache v).
Proof.
  intros Hp. unfold imageCacheResourceName, V_ASSERT.
  apply isEmpty_false in Hp as Hp'. rewrite Hp'. cbn [negb mbind result_bind].
  destruct (resolvable env (m_imageCache v) p) eqn:Hr;
    unfold resolvable in Hr;
    destruct (m_imageCache v !! p) as [name|] eqn:Hc.
  - exists name, v. split; [done|]. split; [done|]. split; [done|].
    split; [done|]. split; [|done]. by destruct (isEmpty name).
  - apply andb_true_iff in Hr as [Hf Hl]. rewrite Hf.
    destruct (loadImage env p) as [|content] eqn:Hl'; [done|]. cbn.
    eexists _, _. split; [done|]. cbn.
    split; [done|]. split; [done|].
    split; [|by split].
    intros q. apply resolvable_insert; [done|].
    unfold resolvable. by rewrite Hc, Hf, Hl'.
  - exists name, v. split; [done|]. split; [done|]. split; [done|].
    split; [done|]. split; [|done]. by destruct (isEmpty name).
  - destruct (fileExists env p) eqn:Hf; cbn in Hr.
    + destruct (loadImage env p) as [|content] eqn:Hl'; [|done]. cbn.
      eexists _, _. split; [done|]. by cbn.
    + cbn. eexists _, _. split; [done|]. by cbn.
Qed.

Lemma resolve_empty env v : imageCacheResourceName env [] v = AssertFailed.
Proof. done. Qed.

(** ** Projections of the document primitives *)

Lemma recordEdit_blocks op bs d : blocks (recordEdit op bs d) = bs.
Proof. unfold recordEdit. by destruct (editBlockDepth d). Qed.

Lemma recordEdit_isModified op bs d : isModified (recordEdit op bs d) = true.
Proof. unfold recordEdit. by destruct (editBlockDepth d). Qed.

Lemma recordEdit_resources op bs d :
  imageResources (recordEdit op bs d) = imageResources d.
Proof. unfold recordEdit. by destruct (editBlockDepth d). Qed.

Lemma endEditBlock_blocks d : blocks (endEditBlock d) = blocks d.
Proof. unfold endEditBlock. by destruct (editBlockDepth d) as [|[|n]]. Qed.

Lemma endEditBlock_resources d :
  imageResources (endEditBlock d) = imageResources d.
Proof. unfold endEditBlock. by destruct (editBlockDepth d) as [|[|n]]. Qed.

Lemma endEditBlock_isModified d : isModified (endEditBlock d) = isModified d.
Proof. unfold endEditBlock. by destruct (editBlockDepth d) as [|[|n]]. Qed.

(** ** Handle-level readings *)

Lemma fetchFormat_lookup v i b :
  blocks (m_document v) !! i = Some b →
  fetchFormatFromPreviewBlock v i = formatOf b.
Proof.
  intros H. unfold fetchFormatFromPreviewBlock, formatOf, charImageFormat.
  by rewrite (text_Some _ _ _ H), H.
Qed.

Lemma formatOf_payload b :
  (if negb (bool_decide (is_Some (formatOf b))) then []
   else from_option propImagePath [] (formatOf b)) = payloadOf b.
Proof. unfold payloadOf. by destruct (formatOf b). Qed.

Lemma fetchImagePath_lookup v i b :
  blocks (m_document v) !! i = Some b →
  fetchImagePathFromPreviewBlock v i = payloadOf b.
Proof.
  intros H. unfold fetchImagePathFromPreviewBlock.
  rewrite (fetchFormat_lookup _ _ _ H). apply formatOf_payload.
Qed.

Lemma isValidImagePreviewBlock_lookup env v i b :
  blocks (m_document v) !! i = Some b →
  isValidImagePreviewBlock env v i
  = validData env (blockBefore (blocks (m_document v)) i) b.
Proof.
  intros H. unfold isValidImagePreviewBlock, validData.
  rewrite isImagePreviewBlock_lookup, H.
  destruct (isPreviewData b); [|done]. simpl.
  destruct i as [|j]; [done|]. simpl.
  rewrite (fetchImagePath_lookup _ _ _ H). unfold pathOf, text.
  destruct (blocks (m_document v) !! j) as [pb|] eqn:Hj; [|done].
  by destruct (isEmpty _).
Qed.

Lemma payloadOf_nonempty_format b :
  payloadOf b ≠ [] → is_Some (formatOf b).
Proof. unfold payloadOf. destruct (formatOf b); [by eexists|done]. Qed.

Lemma formatOf_previewBlock name p :
  formatOf (previewBlock name p) = Some (mkImageFormat name p).
Proof. reflexivity. Qed.

Lemma payloadOf_previewBlock name p : payloadOf (previewBlock name p) = p.
Proof. reflexivity. Qed.

Lemma isPreviewData_previewBlock name p :
  isPreviewData (previewBlock name p) = true.
Proof. reflexivity. Qed.

Lemma insert_after_split {A} (l : list A) i (b x y : A) :
  l !! i = Some b →
  <[S i := x]> (take i l ++ b :: y :: drop (S i) l)
  = take (S i) l ++ x :: drop (S i) l.
Proof.
  intros H. rewrite (take_S_r _ _ _ H).
  assert (length (take i l) = i) as Hlen
    by (apply length_take_le, Nat.lt_le_incl; by eapply lookup_lt_Some).
  change (take i l ++ b :: y :: drop (S i) l)
    with (take i l ++ [b] ++ y :: drop (S i) l).
  rewrite app_assoc.
  rewrite (insert_app_r_alt (take i l ++ [b]))
    by (rewrite length_app, Hlen; simpl; lia).
  rewrite length_app, Hlen. simpl.
  by replace (S i - (i + 1))%nat with O by lia.
Qed.

(** ** insertImagePreviewBlock *)

Lemma insert_spec env i p v b :
  p ≠ [] → blocks (m_document v) !! i = Some b →
  ∃ j v',
    insertImagePreviewBlock env i p v = Ok (j, v')
    ∧ control v' = control v
    ∧ (∀ q, resolvable env (m_imageCache v') q
            = resolvable env (m_imageCache v) q)
    ∧ isModified (m_document v') = isModified (m_document v)
    ∧ (resolvable env (m_imageCache v) p = false →
       j = i ∧ m_document v' = m_document v
       ∧ m_imageCache v' = m_imageCache v)
    ∧ (resolvable env (m_imageCache v) p = true →
       j = S i
       ∧ ∃ name,
           blocks (m_document v')
           = take (S i) (blocks (m_document v))
               ++ previewBlock name p :: drop (S i) (blocks (m_document v))).
Proof.
  intros Hp Hi. unfold insertImagePreviewBlock.
  destruct (resolve_spec env p v Hp)
    as (name & v1 & -> & Hsame & Hctl & Hres & Hname & Hidle).
  cbn [mbind result_bind]. rewrite Hname.
  destruct (resolvable env (m_imageCache v) p) eqn:Hr; cbn [negb].
  - destruct Hsame as (Hb & Hm & _).
    assert (blocks (m_document v1) !! i = Some b) as Hi1 by (by rewrite Hb).
    unfold moveEndOfBlock, cursorAt, insertBlock, insertImage.
    cbn [fst snd beginEditBlock blocks]. rewrite Hi1. cbn [fst snd].
    rewrite Hi1. rewrite recordEdit_blocks.
    assert (Hlen : (i < length (blocks (m_document v1)))%nat)
      by (by eapply lookup_lt_Some).
    assert ((take i (blocks (m_document v1))
             ++ [take (length b) b; drop (length b) b]
             ++ drop (S i) (blocks (m_document v1))) !! S i
            = Some []) as Hnew.
    { rewrite lookup_app_r by (rewrite length_take; lia).
      rewrite length_take. replace (S i - i `min` _)%nat with 1%nat by lia.
      simpl. by rewrite drop_all. }
    cbn [fst snd]. rewrite Hnew. cbn [fst snd].
    unfold V_ASSERT, text.
    rewrite endEditBlock_blocks, recordEdit_blocks.
    rewrite list_lookup_insert_eq
      by (rewrite !length_app, length_take; simpl; lia).
    cbn [app take drop blockText map head]. rewrite bool_decide_eq_true_2 by done.
    cbn [mbind result_bind]. eexists _, _. split; [done|].
    split; [done|]. split; [done|]. split; [done|].
    split; [done|]. intros _. split; [done|].
    exists name. cbn [m_document withDocument setModified blocks].
    rewrite endEditBlock_blocks, recordEdit_blocks.
    rewrite firstn_all, Hb. by apply insert_after_split.
  - destruct (Hidle eq_refl) as [Hd Hc].
    eexists _, _. split; [done|]. split; [done|]. split; [done|].
    split; [by rewrite Hd|]. split; [done|done].
Qed.

(** ** indexOf and the format of a preview block *)

Lemma indexOfFrom_spec c s pos :
  0 <= pos →
  (indexOfFrom c s pos = -1 ∧ c ∉ s)
  ∨ (∃ k, indexOfFrom c s pos = pos + Z.of_nat k ∧ s !! k = Some c).
Proof.
  revert pos. induction s as [|d s IH]; intros pos Hpos; simpl.
  - left. split; [done|apply not_elem_of_nil].
  - destruct (N.eqb_spec d c) as [->|Hne].
    + right. exists O. split; [lia|done].
    + destruct (IH (pos + 1)) as [[H1 H2]|(k & Hk & Hl)]; [lia| |].
      * left. split; [done|]. apply not_elem_of_cons. by split.
      * right. exists (S k). split; [lia|done].
Qed.

Lemma indexOf_elem c s :
  c ∈ s → ∃ k, indexOf c s = Z.of_nat k ∧ s !! k = Some c.
Proof.
  intros H. unfold indexOf.
  destruct (indexOfFrom_spec c s 0) as [[_ ?]|(k & Hk & Hl)]; [lia|done|].
  exists k. split; [lia|done].
Qed.

Lemma blockText_lookup b k :
  blockText b !! k = chr <$> (b !! k).
Proof.
  unfold blockText. revert k. induction b as [|c b IH]; intros [|k]; simpl; auto.
Qed.

Lemma blockText_insert_chr b k cell f :
  b !! k = Some cell →
  blockText (<[k := mkCell (chr cell) f]> b) = blockText b.
Proof.
  unfold blockText. revert k. induction b as [|c b IH]; intros [|k] H; simpl in *.
  - done.
  - done.
  - by injection H as ->.
  - f_equal. by apply IH.
Qed.

Lemma preview_has_placeholder b :
  isPreviewData b = true → ObjectReplacementCharacter ∈ blockText b.
Proof.
  intros (ws1 & ws2 & -> & _)%isPreviewData_true.
  apply elem_of_app. right. by left.
Qed.

Lemma formatOf_preview b :
  isPreviewData b = true →
  ∃ k cell, indexOf ObjectReplacementCharacter (blockText b) = Z.of_nat k
            ∧ b !! k = Some cell
            ∧ chr cell = ObjectReplacementCharacter
            ∧ formatOf b = toImageFormat cell.
Proof.
  intros Hp. apply preview_has_placeholder, indexOf_elem in Hp as (k & Hk & Hl).
  rewrite blockText_lookup in Hl.
  destruct (b !! k) as [cell|] eqn:Hb; [|done]. injection Hl as Hl.
  exists k, cell. split; [done|]. split; [done|]. split; [done|].
  unfold formatOf. rewrite Hk.
  replace (0 <=? Z.of_nat k) with true by (symmetry; apply Z.leb_le; lia).
  by rewrite Nat2Z.id, Hb.
Qed.

Lemma retargetBlock_text name p b : blockText (retargetBlock name p b) = blockText b.
Proof.
  unfold retargetBlock.
  destruct (b !! _) as [cell|] eqn:E; [|done].
  by apply blockText_insert_chr.
Qed.

Lemma retargetBlock_preview name p b :
  isPreviewData (retargetBlock name p b) = isPreviewData b.
Proof. unfold isPreviewData. by rewrite retargetBlock_text. Qed.

Lemma retargetBlock_format name p b :
  isPreviewData b = true →
  formatOf (retargetBlock name p b) = Some (mkImageFormat name p).
Proof.
  intros Hp. destruct (formatOf_preview b Hp) as (k & cell & Hk & Hb & Hc & _).
  unfold formatOf. rewrite retargetBlock_text, Hk.
  replace (0 <=? Z.of_nat k) with true by (symmetry; apply Z.leb_le; lia).
  unfold retargetBlock. rewrite Hk, Nat2Z.id, Hb.
  rewrite list_lookup_insert_eq by (by eapply lookup_lt_Some). done.
Qed.

Lemma retargetBlock_payload name p b :
  isPreviewData b = true → payloadOf (retargetBlock name p b) = p.
Proof. intros Hp. unfold payloadOf. by rewrite retargetBlock_format. Qed.

(** ** updateImagePreviewBlock *)

Lemma update_failure env i p v nb :
  blocks (m_document v) !! i = Some nb → formatOf nb = None →
  updateImagePreviewBlock env i p v = AssertFailed.
Proof.
  intros Hi Hf. unfold updateImagePreviewBlock.
  by rewrite (fetchFormat_lookup _ _ _ Hi), Hf.
Qed.

Lemma update_spec env i p v nb :
  p ≠ [] → blocks (m_document v) !! i = Some nb →
  isPreviewData nb = true → is_Some (formatOf nb) →
  ∃ v',
    updateImagePreviewBlock env i p v = Ok v'
    ∧ control v' = control v
    ∧ (∀ q, resolvable env (m_imageCache v') q
            = resolvable env (m_imageCache v) q)
    ∧ (payloadOf nb = p → v' = v)
    ∧ (payloadOf nb ≠ p → resolvable env (m_imageCache v) p = false →
       blocks (m_document v') = removedBlocks i (blocks (m_document v))
       ∧ isModified (m_document v') = isModified (m_document v)
       ∧ m_imageCache v' = m_imageCache v)
    ∧ (payloadOf nb ≠ p → resolvable env (m_imageCache v) p = true →
       ∃ name, blocks (m_document v')
               = <[i := retargetBlock name p nb]> (blocks (m_document v))
               ∧ isModified (m_document v') = true).
Proof.
  intros Hp Hi Hprev [f Hf]. unfold updateImagePreviewBlock.
  rewrite (fetchFormat_lookup _ _ _ Hi), Hf.
  rewrite bool_decide_eq_true_2 by (by eexists).
  cbn [V_ASSERT mbind result_bind from_option].
  assert (payloadOf nb = propImagePath f) as Hpay
    by (unfold payloadOf; by rewrite Hf).
  destruct (qstring_eqb (propImagePath f) p) eqn:Heq.
  { apply qstring_eqb_true in Heq. exists v.
    split; [done|]. split; [done|]. split; [done|]. split; [done|].
    split; intros Hne; congruence. }
  apply qstring_eqb_false in Heq.
  destruct (resolve_spec env p v Hp)
    as (name & v1 & -> & Hsame & Hctl & Hres & Hname & Hidle).
  cbn [mbind result_bind]. rewrite Hname.
  destruct Hsame as (Hb & Hm & _).
  destruct (resolvable env (m_imageCache v) p) eqn:Hr; cbn [negb].
  - destruct (formatOf_preview nb Hprev) as (k & cell & Hk & Hcell & Hc & Hfmt).
    assert (blocks (m_document v1) !! i = Some nb) as Hi1 by (by rewrite Hb).
    unfold updateFormatInPreviewBlock.
    rewrite (text_Some _ _ _ Hi1), Hk.
    replace (0 <=? Z.of_nat k) with true by (symmetry; apply Z.leb_le; lia).
    unfold charImageFormat, setCharFormat. rewrite Hi1, Nat2Z.id, Hcell.
    rewrite bool_decide_eq_true_2 by (rewrite <- Hfmt, Hf; by eexists).
    cbn [V_ASSERT mbind result_bind].
    eexists. split; [done|]. split; [done|]. split; [done|].
    split; [congruence|]. split; [done|]. intros _ _. exists name.
    cbn [m_document withDocument].
    rewrite recordEdit_blocks, recordEdit_isModified, Hb.
    unfold retargetBlock. by rewrite Hk, Nat2Z.id, Hcell.
  - destruct (Hidle eq_refl) as [Hd Hc].
    destruct (removeBlock_eq i v1) as (d' & -> & Hbl & Hmod & _).
    eexists. split; [done|]. split; [done|]. split; [done|].
    split; [congruence|]. split; [|done]. intros _ _.
    cbn [m_document withDocument m_imageCache].
    rewrite Hbl, Hmod, Hd. done.
Qed.

End EngineFacts.

(* ===================================================================== *)
(** ** Facts about the scan                                               *)
(* ===================================================================== *)

Module ScanFacts.
Import Text Doc Engine Spec TextFacts DocFacts EngineFacts.

Lemma take_lookup_eq {A} (l l' : list A) i j :
  take i l' = take i l → (j < i)%nat → l' !! j = l !! j.
Proof.
  intros H Hj. rewrite <- (lookup_take_lt l' i j), <- (lookup_take_lt l i j) by done.
  by rewrite H.
Qed.

Lemma blockBefore_take (bs bs' : list BlockData) i j :
  take i bs' = take i bs → (j ≤ i)%nat → blockBefore bs' j = blockBefore bs j.
Proof.
  intros H Hj. destruct j as [|k]; [done|]. simpl.
  apply (take_lookup_eq _ _ i); [done|lia].
Qed.

Lemma settledBlock_mono env cache bs limit limit' j b :
  (limit ≤ limit')%nat →
  settledBlock env cache bs limit j b → settledBlock env cache bs limit' j b.
Proof.
  intros Hle. unfold settledBlock. destruct (isPreviewData b); [done|].
  intros [Hc Hp]. split; [done|]. intros Hne.
  destruct (Hp Hne) as [[Hlt Hnb]|Hr]; [left|by right].
  split; [lia|done].
Qed.

Lemma Settled_frame env cache cache' bs bs' i :
  Settled env cache bs i → take i bs' = take i bs →
  (∀ q, resolvable env cache' q = resolvable env cache q) →
  Settled env cache' bs' i.
Proof.
  intros HS Ht Hr j b Hj Hb.
  rewrite (take_lookup_eq _ _ i j Ht Hj) in Hb.
  specialize (HS j b Hj Hb). unfold settledBlock in *.
  rewrite (blockBefore_take bs bs' i j Ht) by lia.
  destruct (isPreviewData b); [done|].
  destruct HS as [Hc Hp]. split; [done|]. intros Hne.
  destruct (Hp Hne) as [[Hlt (nb & Hnb & Hpn)]|Hres].
  - left. split; [done|]. exists nb. split; [|done].
    by rewrite (take_lookup_eq _ _ i (S j) Ht Hlt).
  - right. by rewrite Hr.
Qed.

Lemma Settled_extend env cache bs i b :
  Settled env cache bs i → bs !! i = Some b →
  settledBlock env cache bs (S i) i b → Settled env cache bs (S i).
Proof.
  intros HS Hi Hb j b' Hj Hb'.
  destruct (decide (j = i)) as [->|Hne].
  - by replace b' with b by congruence.
  - apply (settledBlock_mono _ _ _ i); [lia|]. apply HS; [lia|done].
Qed.

Lemma Settled_extend2 env cache bs i b nb :
  Settled env cache bs i → bs !! i = Some b → bs !! S i = Some nb →
  settledBlock env cache bs (S (S i)) i b →
  settledBlock env cache bs (S (S i)) (S i) nb →
  Settled env cache bs (S (S i)).
Proof.
  intros HS Hi Hn Hb Hnb j b' Hj Hb'.
  destruct (decide (j = i)) as [->|Hne].
  - by replace b' with b by congruence.
  - destruct (decide (j = S i)) as [->|Hne'].
    + by replace b' with nb by congruence.
    + apply (settledBlock_mono _ _ _ i); [lia|]. apply HS; [lia|done].
Qed.

Lemma Settled_zero env cache bs : Settled env cache bs 0.
Proof. intros j b Hj. lia. Qed.

Lemma pathOf_nil env : pathOf env [] = [].
Proof. reflexivity. Qed.

Lemma settledBlock_plain env cache bs limit j b :
  isPreviewData b = false → isCorrupted (blockText b) = false →
  pathOf env b = [] → settledBlock env cache bs limit j b.
Proof.
  intros Hp Hc Hpath. unfold settledBlock. rewrite Hp. split; [done|].
  by rewrite Hpath.
Qed.

Lemma settledBlock_unresolved env cache bs limit j b :
  isPreviewData b = false → isCorrupted (blockText b) = false →
  resolvable env cache (pathOf env b) = false →
  settledBlock env cache bs limit j b.
Proof.
  intros Hp Hc Hr. unfold settledBlock. rewrite Hp. split; [done|]. by right.
Qed.

Lemma settledBlock_source env cache bs limit j b nb :
  isPreviewData b = false → isCorrupted (blockText b) = false →
  (S j < limit)%nat → bs !! S j = Some nb → isPreviewData nb = true →
  settledBlock env cache bs limit j b.
Proof.
  intros Hp Hc Hlt Hnb Hpn. unfold settledBlock. rewrite Hp. split; [done|].
  intros _. left. split; [done|]. by exists nb.
Qed.

Lemma settledBlock_preview env cache bs limit j pb nb :
  isPreviewData nb = true → bs !! j = Some pb →
  pathOf env pb ≠ [] → payloadOf nb = pathOf env pb →
  settledBlock env cache bs limit (S j) nb.
Proof.
  intros Hpn Hj Hne Hpay. unfold settledBlock, validData. rewrite Hpn. simpl.
  rewrite Hj. apply andb_true_iff. split.
  - apply negb_true_iff. by apply isEmpty_false.
  - by apply qstring_eqb_true.
Qed.

(** Well-formed blocks *)
Lemma WellFormed_insert bs i b :
  WellFormed bs → (isPreviewData b = true → is_Some (formatOf b)) →
  WellFormed (<[i := b]> bs).
Proof. intros H Hb. by apply Forall_insert. Qed.

Lemma WellFormed_delete bs i : WellFormed bs → WellFormed (delete i bs).
Proof. intros H. by apply Forall_delete. Qed.

Lemma WellFormed_lookup bs i b :
  WellFormed bs → bs !! i = Some b → isPreviewData b = true →
  is_Some (formatOf b).
Proof. intros H Hi. by apply (Forall_lookup_1 _ _ _ _ H Hi). Qed.

Lemma WellFormed_removed bs i : WellFormed bs → WellFormed (removedBlocks i bs).
Proof.
  intros H. unfold removedBlocks.
  destruct (bs !! i) as [[|c b]|]; try done.
  destruct i; [by apply WellFormed_insert | by apply WellFormed_delete].
Qed.

Lemma WellFormed_cleaned bs i b :
  WellFormed bs → bs !! i = Some b → WellFormed (<[i := cleanBlock b]> bs).
Proof.
  intros H Hi. apply WellFormed_insert; [done|].
  unfold cleanBlock. destruct (isCorrupted (blockText b)) eqn:E.
  - intros Hp. rewrite not_placeholder_not_preview in Hp; [done|].
    apply stripPlaceholders_free.
  - by apply (WellFormed_lookup bs i).
Qed.

Lemma WellFormed_inserted bs i name p :
  WellFormed bs → WellFormed (take i bs ++ previewBlock name p :: drop i bs).
Proof.
  intros H. apply Forall_app. split; [by apply Forall_take|].
  constructor; [by eexists|by apply Forall_drop].
Qed.

(** ** One pass of the scan loop *)

Lemma removedBlocks_delete bs i nb :
  bs !! S i = Some nb → isPreviewData nb = true →
  removedBlocks (S i) bs = delete (S i) bs.
Proof. intros H Hp. by rewrite (removedBlocks_preview _ _ _ H Hp). Qed.

Lemma take_delete_same {A} (l : list A) i : take i (delete i l) = take i l.
Proof.
  revert i. induction l as [|x l IH]; intros [|i]; simpl; try done.
  by rewrite IH.
Qed.

Lemma take_insert_same {A} (l : list A) i x : take i (<[i := x]> l) = take i l.
Proof. by apply take_insert_ge. Qed.

Lemma take_take_app {A} (l l2 : list A) i j :
  (i ≤ j)%nat → (j ≤ length l)%nat → take i (take j l ++ l2) = take i l.
Proof.
  intros Hij Hj. rewrite take_app_le by (rewrite length_take; lia).
  rewrite take_take. by replace (i `min` j)%nat with i by lia.
Qed.

Lemma previewOne_spec env i v b :
  blocks (m_document v) !! i = Some b →
  isPreviewData b = false → isCorrupted (blockText b) = false →
  (previewImageOfOneBlock env i v = AssertFailed
   ∧ ¬ WellFormed (blocks (m_document v)))
  ∨ ∃ i' v',
      previewImageOfOneBlock env i v = Ok (i', v')
      ∧ control v' = control v
      ∧ (length (blocks (m_document v')) - i'
         < length (blocks (m_document v)) - i)%nat
      ∧ (∀ q, resolvable env (m_imageCache v') q
              = resolvable env (m_imageCache v) q)
      ∧ (Settled env (m_imageCache v) (blocks (m_document v)) i →
         Settled env (m_imageCache v') (blocks (m_document v')) i')
      ∧ (WellFormed (blocks (m_document v)) →
         WellFormed (blocks (m_document v'))).
Proof.
  intros Hi Hnp Hnc.
  assert (Hlen : (i < length (blocks (m_document v)))%nat)
    by (by eapply lookup_lt_Some).
  unfold previewImageOfOneBlock.
  rewrite (isValid_Some _ _ _ Hi). cbn [negb].
  rewrite (text_Some _ _ _ Hi). fold (pathOf env b).
  destruct (isEmpty (pathOf env b)) eqn:Hpath.
  { (* no key *)
    apply isEmpty_true in Hpath. right. exists (next i), v.
    split; [done|]. split; [done|]. split; [unfold next; lia|].
    split; [done|]. split; [|done]. intros HS.
    apply (Settled_extend _ _ _ _ b); [done..|].
    by apply settledBlock_plain. }
  apply isEmpty_false in Hpath.
  rewrite isImagePreviewBlock_lookup. unfold next.
  destruct (blocks (m_document v) !! S i) as [nb|] eqn:Hnb.
  - destruct (isPreviewData nb) eqn:Hpn.
    + (* a preview block follows *)
      destruct (formatOf nb) as [f|] eqn:Hf.
      2:{ left. split.
          - by rewrite (update_failure env (S i) _ v nb).
          - intros HW. apply (WellFormed_lookup _ _ _ HW Hnb) in Hpn.
            rewrite Hf in Hpn. by destruct Hpn. }
      destruct (update_spec env (S i) (pathOf env b) v nb Hpath Hnb Hpn)
        as (v' & -> & Hctl & Hres & Hsame & Hfail & Hok); [by eexists|].
      right. cbn [mbind result_bind]. eexists _, v'. split; [done|].
      split; [done|].
      assert (Hlen2 : (S i < length (blocks (m_document v)))%nat)
        by (by eapply lookup_lt_Some).
      destruct (decide (payloadOf nb = pathOf env b)) as [Hpay|Hpay].
      * (* same key *)
        rewrite (Hsame Hpay). unfold rebase.
        rewrite bool_decide_eq_true_2 by lia.
        split; [lia|]. split; [done|]. split; [|done]. intros HS.
        replace (S (S i) + _ - _)%nat with (S (S i)) by lia.
        apply (Settled_extend2 _ _ _ _ b nb); [done..| |].
        -- apply (settledBlock_source _ _ _ _ _ _ nb); [done|done|lia|done|done].
        -- by apply (settledBlock_preview _ _ _ _ _ b).
      * destruct (resolvable env (m_imageCache v) (pathOf env b)) eqn:Hr.
        -- (* the key changed and resolves *)
           destruct (Hok Hpay eq_refl) as (name & Hbl & _).
           unfold rebase. rewrite bool_decide_eq_true_2 by lia.
           rewrite Hbl, length_insert.
           split; [lia|]. split; [done|]. split.
           ++ intros HS.
              replace (S (S i) + _ - _)%nat with (S (S i)) by lia.
              assert (<[S i := retargetBlock name (pathOf env b) nb]>
                        (blocks (m_document v)) !! i = Some b) as Hi'
                by (by rewrite list_lookup_insert_ne by lia).
              assert (<[S i := retargetBlock name (pathOf env b) nb]>
                        (blocks (m_document v)) !! S i
                      = Some (retargetBlock name (pathOf env b) nb)) as Hn'
                by (by rewrite list_lookup_insert_eq by lia).
              eapply Settled_extend2; [|exact Hi'|exact Hn'| |].
              ** apply (Settled_frame _ _ _ _ _ _ HS); [|done].
                 apply take_insert_ge; lia.
              ** eapply settledBlock_source; [exact Hnp|exact Hnc| |exact Hn'|];
                   [lia|by rewrite retargetBlock_preview].
              ** apply (settledBlock_preview _ _ _ _ _ b); [|done|done|].
                 --- by rewrite retargetBlock_preview.
                 --- by apply retargetBlock_payload.
           ++ intros HW. apply WellFormed_insert; [done|]. intros _.
              rewrite retargetBlock_format by done. by eexists.
        -- (* the key changed and does not resolve *)
           destruct (Hfail Hpay eq_refl) as (Hbl & _ & Hcache).
           rewrite (removedBlocks_delete _ _ _ Hnb Hpn) in Hbl.
           unfold rebase. rewrite bool_decide_eq_true_2 by lia.
           rewrite Hbl, length_delete by (by eexists).
           split; [lia|]. split; [done|]. split.
           ++ intros HS.
              replace (S (S i) + _ - _)%nat with (S i) by lia.
              apply (Settled_frame env (m_imageCache v) _
                       (blocks (m_document v))); [|apply take_delete_same|done].
              apply (Settled_extend _ _ _ _ b); [done..|].
              by apply settledBlock_unresolved.
           ++ intros HW. by apply WellFormed_delete.
    + (* an ordinary block follows *)
      destruct (insert_spec env i (pathOf env b) v b Hpath Hi)
        as (j & v' & -> & Hctl & Hres & _ & Hfail & Hok).
      right. cbn [mbind result_bind]. eexists _, v'. split; [done|].
      split; [done|].
      destruct (resolvable env (m_imageCache v) (pathOf env b)) eqn:Hr.
      * destruct (Hok eq_refl) as (-> & name & Hbl).
        rewrite Hbl, length_app, length_take. cbn [length].
        rewrite length_drop. split; [lia|]. split; [done|]. split.
        -- intros HS.
           assert ((take (S i) (blocks (m_document v))
                    ++ previewBlock name (pathOf env b)
                       :: drop (S i) (blocks (m_document v))) !! i = Some b)
             as Hi'.
           { rewrite lookup_app_l by (rewrite length_take; lia).
             by rewrite lookup_take_lt by lia. }
           assert ((take (S i) (blocks (m_document v))
                    ++ previewBlock name (pathOf env b)
                       :: drop (S i) (blocks (m_document v))) !! S i
                   = Some (previewBlock name (pathOf env b))) as Hn'.
           { rewrite lookup_app_r by (rewrite length_take; lia).
             rewrite length_take.
             by replace (S i - S i `min` length (blocks (m_document v)))%nat
               with O by lia. }
           eapply Settled_extend2; [|exact Hi'|exact Hn'| |].
           ++ apply (Settled_frame _ _ _ _ _ _ HS); [|done].
              apply take_take_app; lia.
           ++ eapply settledBlock_source; [exact Hnp|exact Hnc| |exact Hn'|];
                [lia|done].
           ++ by apply (settledBlock_preview _ _ _ _ _ b).
        -- intros HW. by apply WellFormed_inserted.
      * destruct (Hfail eq_refl) as (-> & Hd & Hc). rewrite Hd.
        split; [unfold next; lia|]. split; [done|]. split; [|done].
        intros HS. rewrite Hc.
        apply (Settled_extend _ _ _ _ b); [done..|].
        by apply settledBlock_unresolved.
  - (* the last block *)
    destruct (insert_spec env i (pathOf env b) v b Hpath Hi)
      as (j & v' & -> & Hctl & Hres & _ & Hfail & Hok).
    right. cbn [mbind result_bind]. eexists _, v'. split; [done|].
    split; [done|].
    destruct (resolvable env (m_imageCache v) (pathOf env b)) eqn:Hr.
    * destruct (Hok eq_refl) as (-> & name & Hbl).
      rewrite Hbl, length_app, length_take. cbn [length].
      rewrite length_drop. split; [unfold next; lia|]. split; [done|]. split.
      -- intros HS.
         assert ((take (S i) (blocks (m_document v))
                  ++ previewBlock name (pathOf env b)
                     :: drop (S i) (blocks (m_document v))) !! i = Some b)
           as Hi'.
         { rewrite lookup_app_l by (rewrite length_take; lia).
           by rewrite lookup_take_lt by lia. }
         assert ((take (S i) (blocks (m_document v))
                  ++ previewBlock name (pathOf env b)
                     :: drop (S i) (blocks (m_document v))) !! S i
                 = Some (previewBlock name (pathOf env b))) as Hn'.
         { rewrite lookup_app_r by (rewrite length_take; lia).
           rewrite length_take.
           by replace (S i - S i `min` length (blocks (m_document v)))%nat
             with O by lia. }
         eapply Settled_extend2; [|exact Hi'|exact Hn'| |].
         ++ apply (Settled_frame _ _ _ _ _ _ HS); [|done].
            apply take_take_app; lia.
         ++ eapply settledBlock_source; [exact Hnp|exact Hnc| |exact Hn'|];
              [lia|done].
         ++ by apply (settledBlock_preview _ _ _ _ _ b).
      -- intros HW. by apply WellFormed_inserted.
    * destruct (Hfail eq_refl) as (-> & Hd & Hc). rewrite Hd.
      split; [unfold next; lia|]. split; [done|]. split; [|done].
      intros HS. rewrite Hc.
      apply (Settled_extend _ _ _ _ b); [done..|].
      by apply settledBlock_unresolved.
Qed.

Lemma control_withDocument d v : control (withDocument d v) = control v.
Proof. done. Qed.

Lemma scanStep_spec env i v b :
  blocks (m_document v) !! i = Some b →
  (scanStep env i v = AssertFailed
   ∧ ¬ WellFormed (blocks (m_document v)))
  ∨ ∃ i' v',
      scanStep env i v = Ok (i', v')
      ∧ control v' = control v
      ∧ (length (blocks (m_document v')) - i'
         < length (blocks (m_document v)) - i)%nat
      ∧ (∀ q, resolvable env (m_imageCache v') q
              = resolvable env (m_imageCache v) q)
      ∧ (Settled env (m_imageCache v) (blocks (m_document v)) i →
         Settled env (m_imageCache v') (blocks (m_document v')) i')
      ∧ (WellFormed (blocks (m_document v)) →
         WellFormed (blocks (m_document v'))).
Proof.
  intros Hi.
  assert (Hlen : (i < length (blocks (m_document v)))%nat)
    by (by eapply lookup_lt_Some).
  unfold scanStep. rewrite isImagePreviewBlock_lookup, Hi.
  destruct (isPreviewData b) eqn:Hp.
  - rewrite (isValidImagePreviewBlock_lookup _ _ _ _ Hi).
    destruct (validData env (blockBefore (blocks (m_document v)) i) b) eqn:Hv;
      cbn [negb].
    + (* a valid preview block *)
      right. exists (next i), v. split; [done|]. split; [done|].
      split; [unfold next; lia|]. split; [done|]. split; [|done].
      intros HS. apply (Settled_extend _ _ _ _ b); [done..|].
      unfold settledBlock. by rewrite Hp.
    + (* an orphan *)
      right. destruct (removeBlock_eq i v) as (d' & -> & Hbl & _).
      rewrite (removedBlocks_preview _ _ _ Hi Hp) in Hbl.
      eexists _, _. split; [done|]. split; [done|].
      cbn [m_document withDocument m_imageCache]. unfold rebase, next.
      rewrite bool_decide_eq_true_2 by lia. rewrite Hbl.
      destruct i as [|k].
      * rewrite length_insert. split; [lia|]. split; [done|]. split.
        -- intros _. replace (1 + _ - _)%nat with 1%nat by lia.
           apply (Settled_extend _ _ _ _ []); [apply Settled_zero| |].
           ++ by apply list_lookup_insert_eq.
           ++ by apply settledBlock_plain.
        -- intros HW. by apply WellFormed_insert.
      * rewrite length_delete by (by eexists). split; [lia|].
        split; [done|]. split.
        -- intros HS. replace (S (S k) + _ - _)%nat with (S k) by lia.
           apply (Settled_frame _ _ _ _ _ _ HS); [|done].
           apply take_delete_same.
        -- intros HW. by apply WellFormed_delete.
  - rewrite clearCorrupted_eq. cbn [mbind result_bind].
    set (v1 := withDocument (cleanupDocument i (m_document v)) v).
    assert (Hb1 : blocks (m_document v1)
                  = <[i := cleanBlock b]> (blocks (m_document v)))
      by (by apply cleanupDocument_blocks).
    assert (Hi1 : blocks (m_document v1) !! i = Some (cleanBlock b))
      by (rewrite Hb1; by apply list_lookup_insert_eq).
    destruct (previewOne_spec env i v1 (cleanBlock b) Hi1
                (cleanBlock_not_preview _ Hp) (cleanBlock_not_corrupted _))
      as [[Hfail HW]|(i' & v' & Hrun & Hctl & Hm & Hres & HS & HW)].
    + left. split; [done|]. intros HW'. apply HW. rewrite Hb1.
      by apply WellFormed_cleaned.
    + right. exists i', v'. split; [done|]. split; [done|].
      rewrite Hb1, length_insert in Hm. split; [done|]. split; [done|].
      split.
      * intros HS'. apply HS. apply (Settled_frame _ _ _ _ _ _ HS'); [|done].
        rewrite Hb1. by apply take_insert_ge.
      * intros HW'. apply HW. rewrite Hb1. by apply WellFormed_cleaned.
Qed.

Lemma deliver_benign env pi r v :
  (∀ w, m_isPreviewing w = true → pi w = Ok w) →
  Benign env r → m_isPreviewing v = true → m_enablePreview v = true →
  ∃ v', deliver env pi r v = Ok v'
        ∧ m_document v' = m_document v
        ∧ m_imageCache v' = m_imageCache v
        ∧ control v' = control v.
Proof.
  intros Hpi Hr Hprev Hen. destruct r; simpl in Hr; try done.
  - eexists. split; [done|]. unfold enableImagePreview.
    destruct (getEnablePreviewImages env); unfold control; simpl;
      by rewrite Hen.
  - eexists. unfold deliver, timerTimeoutWith. rewrite Hr, Hen. simpl.
    by rewrite Hpi.
  - eexists. split; [done|]. unfold handleContentChange.
    by destruct (_ && _).
Qed.

Lemma deliverAll_benign env pi rs : ∀ v,
  (∀ w, m_isPreviewing w = true → pi w = Ok w) →
  Forall (Benign env) rs → m_isPreviewing v = true → m_enablePreview v = true →
  ∃ v', deliverAll env pi rs v = Ok v'
        ∧ m_document v' = m_document v
        ∧ m_imageCache v' = m_imageCache v
        ∧ control v' = control v.
Proof.
  induction rs as [|r rs IH]; intros v Hpi Hrs Hprev Hen.
  - by exists v.
  - apply Forall_cons in Hrs as [Hr Hrs]. cbn [deliverAll].
    destruct (deliver_benign env pi r v Hpi Hr Hprev Hen)
      as (v1 & -> & Hd & Hc & Hctl).
    cbn [mbind result_bind].
    assert (m_isPreviewing v1 = true ∧ m_enablePreview v1 = true) as [H1 H2]
      by (unfold control in Hctl; split; congruence).
    destruct (IH v1 Hpi Hrs H1 H2) as (v' & -> & Hd' & Hc' & Hctl').
    exists v'. split; [done|]. split; [congruence|]. split; congruence.
Qed.

Lemma Quiet_hd env hooks : Quiet env hooks → Forall (Benign env) (hd [] hooks).
Proof. intros H. destruct H; [constructor|done]. Qed.

Lemma Quiet_tl env hooks : Quiet env hooks → Quiet env (tl hooks).
Proof. intros H. destruct H; [constructor|done]. Qed.

Lemma scanLoop_spec env pi fuel : ∀ hooks i v,
  (∀ w, m_isPreviewing w = true → pi w = Ok w) →
  Quiet env hooks →
  (length (blocks (m_document v)) - i ≤ fuel)%nat →
  m_isPreviewing v = true →
  m_enablePreview v = true →
  (scanLoop env pi fuel hooks i v = AssertFailed
   ∧ ¬ WellFormed (blocks (m_document v)))
  ∨ ∃ i' v',
      scanLoop env pi fuel hooks i v = Ok (i', v')
      ∧ control v' = control v
      ∧ (length (blocks (m_document v')) ≤ i')%nat
      ∧ (∀ q, resolvable env (m_imageCache v') q
              = resolvable env (m_imageCache v) q)
      ∧ (Settled env (m_imageCache v) (blocks (m_document v)) i →
         Settled env (m_imageCache v') (blocks (m_document v')) i')
      ∧ (WellFormed (blocks (m_document v)) →
         WellFormed (blocks (m_document v'))).
Proof.
  induction fuel as [|fuel IH]; intros hooks i v Hpi Hq Hfuel Hprev Hen.
  - right. exists i, v. cbn [scanLoop].
    rewrite (proj2 (isValid_false _ _)) by (apply lookup_ge_None; lia).
    split; [done|]. split; [done|]. split; [lia|]. done.
  - cbn [scanLoop]. rewrite Hen, andb_true_r.
    destruct (blocks (m_document v) !! i) as [b|] eqn:Hi.
    2:{ right. exists i, v. rewrite (proj2 (isValid_false _ _) Hi).
        apply lookup_ge_None in Hi. split; [done|]. split; [done|].
        split; [lia|]. done. }
    rewrite (isValid_Some _ _ _ Hi).
    destruct (scanStep_spec env i v b Hi)
      as [[-> HW]|(i1 & v1 & -> & Hctl & Hm & Hres & HS & HW)]; [by left|].
    cbn [mbind result_bind].
    assert (m_isPreviewing v1 = true ∧ m_enablePreview v1 = true)
      as [Hprev1 Hen1] by (unfold control in Hctl; split; congruence).
    destruct (deliverAll_benign env pi (hd [] hooks) v1 Hpi
                (Quiet_hd _ _ Hq) Hprev1 Hen1)
      as (v2 & -> & Hd2 & Hc2 & Hctl2).
    cbn [mbind result_bind].
    assert (m_isPreviewing v2 = true ∧ m_enablePreview v2 = true)
      as [Hprev2 Hen2] by (unfold control in Hctl2; split; congruence).
    destruct (IH (tl hooks) i1 v2 Hpi (Quiet_tl _ _ Hq)
                ltac:(rewrite Hd2; lia) Hprev2 Hen2)
      as [[-> HW2]|(i' & v' & -> & Hctl' & Hlen' & Hres' & HS' & HW')].
    + left. split; [done|]. rewrite Hd2 in HW2. auto.
    + right. exists i', v'. split; [done|]. split; [congruence|].
      split; [done|]. rewrite Hd2, Hc2 in *.
      split; [intros q; by rewrite Hres'|]. split; auto.
Qed.

Lemma Settled_limit env cache bs i :
  Settled env cache bs i → (length bs ≤ i)%nat →
  Settled env cache bs (length bs).
Proof.
  intros HS Hle j b Hj Hb. specialize (HS j b ltac:(lia) Hb).
  unfold settledBlock in *. destruct (isPreviewData b); [done|].
  destruct HS as [Hc Hp]. split; [done|]. intros Hne.
  destruct (Hp Hne) as [[_ (nb & Hnb & Hpn)]|Hr]; [left|by right].
  split; [by eapply lookup_lt_Some|by exists nb].
Qed.

(** ** A settled document is a fixed point of the scan *)

Lemma Settled_preview_payload env cache bs j pb nb :
  Settled env cache bs (length bs) →
  bs !! j = Some pb → bs !! S j = Some nb → isPreviewData nb = true →
  pathOf env pb ≠ [] ∧ payloadOf nb = pathOf env pb.
Proof.
  intros HS Hj Hn Hp.
  specialize (HS (S j) nb ltac:(by eapply lookup_lt_Some) Hn).
  unfold settledBlock, validData in HS. rewrite Hp in HS. simpl in HS.
  rewrite Hj in HS. apply andb_true_iff in HS as [H1 H2].
  apply negb_true_iff, isEmpty_false in H1.
  by apply qstring_eqb_true in H2.
Qed.

Lemma scanStep_idle env i v b :
  blocks (m_document v) !! i = Some b →
  Settled env (m_imageCache v) (blocks (m_document v))
          (length (blocks (m_document v))) →
  ∃ i' v',
    scanStep env i v = Ok (i', v')
    ∧ m_document v' = m_document v
    ∧ m_imageCache v' = m_imageCache v
    ∧ control v' = control v
    ∧ (i < i')%nat.
Proof.
  intros Hi HS.
  assert (Hlen : (i < length (blocks (m_document v)))%nat)
    by (by eapply lookup_lt_Some).
  pose proof (HS i b Hlen Hi) as Hb. unfold settledBlock in Hb.
  unfold scanStep. rewrite isImagePreviewBlock_lookup, Hi.
  destruct (isPreviewData b) eqn:Hp.
  - rewrite (isValidImagePreviewBlock_lookup _ _ _ _ Hi), Hb. cbn [negb].
    exists (next i), v. unfold next. repeat split; [done..|lia].
  - destruct Hb as [Hnc Hsrc].
    rewrite clearCorrupted_eq, (cleanupDocument_idle _ _ _ Hi Hnc),
      withDocument_id.
    cbn [mbind result_bind]. unfold previewImageOfOneBlock.
    rewrite (isValid_Some _ _ _ Hi). cbn [negb].
    rewrite (text_Some _ _ _ Hi). fold (pathOf env b).
    destruct (isEmpty (pathOf env b)) eqn:Hpath.
    { exists (next i), v. unfold next. repeat split; [done..|lia]. }
    apply isEmpty_false in Hpath.
    rewrite isImagePreviewBlock_lookup. unfold next.
    destruct (blocks (m_document v) !! S i) as [nb|] eqn:Hnb.
    + destruct (isPreviewData nb) eqn:Hpn.
      * destruct (Settled_preview_payload _ _ _ _ _ _ HS Hi Hnb Hpn)
          as [_ Hpay].
        destruct (update_spec env (S i) (pathOf env b) v nb Hpath Hnb Hpn)
          as (v' & -> & _ & _ & Hsame & _).
        { apply payloadOf_nonempty_format. congruence. }
        rewrite (Hsame Hpay). cbn [mbind result_bind].
        eexists _, v. split; [done|]. unfold rebase.
        rewrite bool_decide_eq_true_2 by lia. repeat split; [done..|lia].
      * destruct (Hsrc Hpath) as [[_ (nb' & Hnb' & Hpn')]|Hr]; [congruence|].
        destruct (insert_spec env i (pathOf env b) v b Hpath Hi)
          as (j & v' & -> & Hctl & _ & _ & Hfail & _).
        destruct (Hfail Hr) as (-> & Hd & Hc). cbn [mbind result_bind].
        eexists _, v'. unfold next. repeat split; [done..|lia].
    + destruct (Hsrc Hpath) as [[_ (nb' & Hnb' & Hpn')]|Hr]; [congruence|].
      destruct (insert_spec env i (pathOf env b) v b Hpath Hi)
        as (j & v' & -> & Hctl & _ & _ & Hfail & _).
      destruct (Hfail Hr) as (-> & Hd & Hc). cbn [mbind result_bind].
      eexists _, v'. unfold next. repeat split; [done..|lia].
Qed.

Lemma scanLoop_idle env pi fuel : ∀ hooks i v,
  (∀ w, m_isPreviewing w = true → pi w = Ok w) →
  Quiet env hooks →
  (length (blocks (m_document v)) - i ≤ fuel)%nat →
  m_isPreviewing v = true →
  Settled env (m_imageCache v) (blocks (m_document v))
          (length (blocks (m_document v))) →
  ∃ i' v',
    scanLoop env pi fuel hooks i v = Ok (i', v')
    ∧ m_document v' = m_document v
    ∧ m_imageCache v' = m_imageCache v
    ∧ control v' = control v.
Proof.
  induction fuel as [|fuel IH]; intros hooks i v Hpi Hq Hfuel Hprev HS.
  - exists i, v. cbn [scanLoop].
    by rewrite (proj2 (isValid_false _ _)) by (apply lookup_ge_None; lia).
  - cbn [scanLoop].
    destruct (blocks (m_document v) !! i) as [b|] eqn:Hi.
    2:{ exists i, v. by rewrite (proj2 (isValid_false _ _) Hi). }
    rewrite (isValid_Some _ _ _ Hi).
    destruct (m_enablePreview v) eqn:Hen; [|by exists i, v].
    cbn [andb].
    destruct (scanStep_idle env i v b Hi HS)
      as (i1 & v1 & -> & Hd & Hc & Hctl & Hlt).
    cbn [mbind result_bind].
    assert (m_isPreviewing v1 = true ∧ m_enablePreview v1 = true)
      as [Hprev1 Hen1] by (unfold control in Hctl; split; congruence).
    destruct (deliverAll_benign env pi (hd [] hooks) v1 Hpi
                (Quiet_hd _ _ Hq) Hprev1 Hen1)
      as (v2 & -> & Hd2 & Hc2 & Hctl2).
    cbn [mbind result_bind].
    assert (m_isPreviewing v2 = true) as Hprev2
      by (unfold control in Hctl2; congruence).
    destruct (IH (tl hooks) i1 v2 Hpi (Quiet_tl _ _ Hq))
      as (i' & v' & -> & Hd' & Hc' & Hctl').
    + rewrite Hd2, Hd. lia.
    + done.
    + by rewrite Hd2, Hc2, Hd, Hc.
    + exists i', v'. split; [done|]. split; [congruence|].
      split; congruence.
Qed.

(** ** previewImages without latched requests *)

Lemma previewImagesAt_guard depth env hooks w :
  m_isPreviewing w = true → previewImagesAt depth env hooks w = Ok w.
Proof. intros H. destruct depth; cbn [previewImagesAt]; by rewrite H. Qed.

Lemma finishPreview_quiet v :
  m_requestCearBlocks v = false → m_requestRefreshBlocks v = false →
  finishPreview v = Ok (emitStatusChanged (withIsPreviewing false v)).
Proof.
  intros H1 H2. unfold finishPreview.
  cbn [m_requestCearBlocks withIsPreviewing]. rewrite H1.
  cbn [mbind result_bind m_requestRefreshBlocks withIsPreviewing].
  by rewrite H2.
Qed.

Lemma previewImages_unfold env hooks v :
  m_isPreviewing v = false →
  previewImages env hooks v
  = '(_, v') ← scanLoop env (previewImagesAt 0 env [])
                  (length (blocks (m_document v))) hooks O
                  (withIsPreviewing true v);
    finishPreview v'.
Proof. intros H. unfold previewImages. cbn [previewImagesAt]. by rewrite H. Qed.

Lemma previewImages_quiet env hooks v :
  Quiet env hooks →
  m_isPreviewing v = false → m_enablePreview v = true →
  m_requestCearBlocks v = false → m_requestRefreshBlocks v = false →
  (previewImages env hooks v = AssertFailed
   ∧ ¬ WellFormed (blocks (m_document v)))
  ∨ ∃ v',
      previewImages env hooks v = Ok v'
      ∧ Settled env (m_imageCache v') (blocks (m_document v'))
                (length (blocks (m_document v')))
      ∧ control v' = control v
      ∧ (WellFormed (blocks (m_document v)) →
         WellFormed (blocks (m_document v'))).
Proof.
  intros Hq Hprev Hen Hc Hr. rewrite previewImages_unfold by done.
  destruct (scanLoop_spec env (previewImagesAt 0 env [])
              (length (blocks (m_document v))) hooks O
              (withIsPreviewing true v))
    as [[-> HW]|(i' & v' & -> & Hctl & Hlen & _ & HS & HW)];
    [apply previewImagesAt_guard|done|simpl; lia|done|done|by left|].
  right. cbn [mbind result_bind].
  unfold control in Hctl. simpl in Hctl.
  rewrite finishPreview_quiet by congruence.
  eexists. split; [done|]. cbn [emitStatusChanged withIsPreviewing m_document
                                 m_imageCache].
  split; [|split; [|done]].
  - apply (Settled_limit _ _ _ i'); [|done]. apply HS, Settled_zero.
  - unfold control. simpl. congruence.
Qed.

Lemma previewImages_settled env hooks v :
  Quiet env hooks →
  m_isPreviewing v = false →
  m_requestCearBlocks v = false → m_requestRefreshBlocks v = false →
  Settled env (m_imageCache v) (blocks (m_document v))
          (length (blocks (m_document v))) →
  ∃ v',
    previewImages env hooks v = Ok v'
    ∧ m_document v' = m_document v
    ∧ m_imageCache v' = m_imageCache v.
Proof.
  intros Hq Hprev Hc Hr HS. rewrite previewImages_unfold by done.
  destruct (scanLoop_idle env (previewImagesAt 0 env [])
              (length (blocks (m_document v))) hooks O
              (withIsPreviewing true v))
    as (i' & v' & -> & Hd & Hcache & Hctl);
    [apply previewImagesAt_guard|done|simpl; lia|done|done|].
  cbn [mbind result_bind].
  unfold control in Hctl. simpl in Hctl.
  rewrite finishPreview_quiet by congruence.
  eexists. split; [done|]. by simpl.
Qed.

Lemma scanLoop_disabled env pi fuel hooks i v :
  m_enablePreview v = false → scanLoop env pi fuel hooks i v = Ok (i, v).
Proof.
  intros H. destruct fuel; cbn [scanLoop]; by rewrite H, andb_false_r.
Qed.

End ScanFacts.

(* ===================================================================== *)
(** ** Facts about clearing, re-entrant calls and the cache               *)
(* ===================================================================== *)

Module ControlFacts.
Import Text Doc Engine Spec TextFacts DocFacts EngineFacts ScanFacts.

Lemma fetch_needs_bang s : fetchImageUrlToPreview s ≠ [] → chBang ∈ s.
Proof.
  intros H.
  destruct (fetch_cases s) as [(i & ref & _ & Hm & _)|[[? _]|[? _]]];
    [|done..].
  apply matchAt_spec in Hm as (alt & post & Hs & _).
  rewrite <- (take_drop i s), Hs. apply elem_of_app. right. by left.
Qed.

Lemma pathOf_preview env b : isPreviewData b = true → pathOf env b = [].
Proof.
  intros Hp. unfold pathOf, fetchImagePathToPreview.
  destruct (fetchImageUrlToPreview (blockText b)) as [|c r] eqn:E; [done|].
  exfalso.
  assert (chBang ∈ blockText b) as Hb by (apply fetch_needs_bang; by rewrite E).
  apply (SinglePlaceholder_not_corrupted (blockText b));
    [by apply isPreviewData_true|].
  split; [by apply preview_has_placeholder|]. by exists chBang.
Qed.

Lemma spaces_no_placeholder ws :
  Forall (λ c, isSpace c = true) ws →
  filter (λ c, c = ObjectReplacementCharacter) ws = [].
Proof.
  induction 1 as [|c ws Hc _ IH]; [done|].
  rewrite filter_cons_False; [done|]. intros ->. by rewrite isSpace_ORC in Hc.
Qed.

Lemma SinglePlaceholder_count t :
  SinglePlaceholder t →
  length (filter (λ c, c = ObjectReplacementCharacter) t) = 1%nat.
Proof.
  intros (ws1 & ws2 & -> & H1 & H2).
  rewrite filter_app. cbn [app]. rewrite filter_cons_True by done.
  by rewrite !spaces_no_placeholder by done.
Qed.

Lemma two_placeholders_count (a b c : QString) :
  (2 ≤ length (filter (λ c, c = ObjectReplacementCharacter)
                 (a ++ [ObjectReplacementCharacter] ++ b
                    ++ [ObjectReplacementCharacter] ++ c)))%nat.
Proof.
  rewrite !filter_app, !length_app.
  rewrite !(filter_cons_True _ ObjectReplacementCharacter) by done.
  simpl. lia.
Qed.

(** ** clearAllImagePreviewBlocks *)


Lemma NoPreviewBelow_frame bs bs' i :
  NoPreviewBelow bs i → take i bs' = take i bs → NoPreviewBelow bs' i.
Proof.
  intros H Ht j b Hj Hb. rewrite (take_lookup_eq _ _ i j Ht Hj) in Hb.
  by apply (H j).
Qed.

Lemma NoPreviewBelow_extend bs i b :
  NoPreviewBelow bs i → bs !! i = Some b → isPreviewData b = false →
  NoPreviewBelow bs (S i).
Proof.
  intros H Hi Hp j b' Hj Hb'. destruct (decide (j = i)) as [->|Hne].
  - congruence.
  - apply (H j); [lia|done].
Qed.

Lemma clearAllLoop_spec fuel : ∀ i v,
  (length (blocks (m_document v)) - i ≤ fuel)%nat →
  NoPreviewBelow (blocks (m_document v)) i →
  ∃ v',
    clearAllLoop fuel i v = Ok v'
    ∧ control v' = control v
    ∧ m_imageCache v' = m_imageCache v
    ∧ m_timerActive v' = m_timerActive v
    ∧ NoPreviewBelow (blocks (m_document v'))
        (length (blocks (m_document v'))).
Proof.
  induction fuel as [|fuel IH]; intros i v Hfuel Hno.
  - exists v. cbn [clearAllLoop].
    rewrite (proj2 (isValid_false _ _)) by (apply lookup_ge_None; lia).
    repeat split; try done. intros j b Hj. apply Hno. lia.
  - cbn [clearAllLoop].
    destruct (blocks (m_document v) !! i) as [b|] eqn:Hi.
    2:{ exists v. rewrite (proj2 (isValid_false _ _) Hi).
        apply lookup_ge_None in Hi.
        repeat split; try done. intros j b Hj. apply Hno. lia. }
    assert (Hlen : (i < length (blocks (m_document v)))%nat)
      by (by eapply lookup_lt_Some).
    rewrite (isValid_Some _ _ _ Hi), isImagePreviewBlock_lookup, Hi.
    destruct (isPreviewData b) eqn:Hp.
    + destruct (removeBlock_eq i v) as (d' & -> & Hbl & _).
      rewrite (removedBlocks_preview _ _ _ Hi Hp) in Hbl.
      cbn [m_document withDocument]. unfold rebase, next.
      rewrite bool_decide_eq_true_2 by lia. rewrite Hbl.
      destruct i as [|k].
      * rewrite length_insert.
        replace (1 + _ - _)%nat with 1%nat by lia.
        destruct (IH 1%nat (withDocument d' v)) as (v' & -> & H1 & H2 & H3 & H4).
        -- cbn [m_document withDocument]. rewrite Hbl, length_insert. lia.
        -- cbn [m_document withDocument]. rewrite Hbl.
           apply (NoPreviewBelow_extend _ _ []); [intros j ? ?; lia| |done].
           by apply list_lookup_insert_eq.
        -- by exists v'.
      * rewrite length_delete by (by eexists).
        replace (S (S k) + _ - _)%nat with (S k) by lia.
        destruct (IH (S k) (withDocument d' v)) as (v' & -> & H1 & H2 & H3 & H4).
        -- cbn [m_document withDocument].
           rewrite Hbl, length_delete by (by eexists). lia.
        -- cbn [m_document withDocument]. rewrite Hbl.
           apply (NoPreviewBelow_frame _ _ _ Hno), take_delete_same.
        -- by exists v'.
    + rewrite clearCorrupted_eq. cbn [mbind result_bind]. unfold next.
      set (v1 := withDocument (cleanupDocument i (m_document v)) v).
      assert (Hb1 : blocks (m_document v1)
                    = <[i := cleanBlock b]> (blocks (m_document v)))
        by (by apply cleanupDocument_blocks).
      destruct (IH (S i) v1) as (v' & -> & H1 & H2 & H3 & H4).
      * rewrite Hb1, length_insert. lia.
      * rewrite Hb1.
        apply (NoPreviewBelow_extend _ _ (cleanBlock b)).
        -- apply (NoPreviewBelow_frame _ _ _ Hno). by apply take_insert_ge.
        -- by apply list_lookup_insert_eq.
        -- by apply cleanBlock_not_preview.
      * by exists v'.
Qed.

Lemma NoPreview_isImagePreviewBlock v :
  NoPreviewBelow (blocks (m_document v)) (length (blocks (m_document v))) →
  ∀ j, isImagePreviewBlock v j = false.
Proof.
  intros H j. rewrite isImagePreviewBlock_lookup.
  destruct (blocks (m_document v) !! j) as [b|] eqn:Hb; [|done].
  apply (H j); [by eapply lookup_lt_Some|done].
Qed.

Lemma clearAll_spec v :
  m_isPreviewing v = false →
  ∃ v',
    clearAllImagePreviewBlocks v = Ok v'
    ∧ control v' = control v
    ∧ m_imageCache v' = m_imageCache v
    ∧ m_timerActive v' = m_timerActive v
    ∧ isModified (m_document v') = isModified (m_document v)
    ∧ ∀ j, isImagePreviewBlock v' j = false.
Proof.
  intros Hprev. unfold clearAllImagePreviewBlocks, V_ASSERT. rewrite Hprev.
  cbn [negb mbind result_bind].
  destruct (clearAllLoop_spec
              (length (blocks (m_document
                 (withDocument (beginEditBlock (m_document v)) v))))
              O (withDocument (beginEditBlock (m_document v)) v))
    as (v1 & -> & Hctl & Hc & Ht & Hno); [lia|intros j ? ?; lia|].
  cbn [mbind result_bind]. eexists. split; [done|].
  split; [done|]. split; [done|]. split; [done|]. split; [done|].
  apply NoPreview_isImagePreviewBlock. cbn.
  by rewrite endEditBlock_blocks.
Qed.

Lemma refresh_spec v :
  m_isPreviewing v = false →
  ∃ v',
    refresh v = Ok v'
    ∧ control v' = control v
    ∧ m_imageCache v' = ∅
    ∧ m_timerActive v' = true
    ∧ ∀ j, isImagePreviewBlock v' j = false.
Proof.
  intros Hprev. unfold refresh. rewrite Hprev.
  destruct (clearAll_spec (withImageCache ∅ (timerStop v)) Hprev)
    as (v1 & -> & Hctl & Hc & _ & _ & Hno).
  cbn [mbind result_bind]. eexists. split; [done|]. by repeat split.
Qed.

Lemma disable_latched v :
  m_isPreviewing v = true →
  disableImagePreview v
  = Ok (withRequestCearBlocks true (withEnablePreview false v)).
Proof. intros H. unfold disableImagePreview. simpl. by rewrite H. Qed.

Lemma disable_spec v :
  m_isPreviewing v = false →
  ∃ v',
    disableImagePreview v = Ok v'
    ∧ m_isPreviewing v' = false
    ∧ m_enablePreview v' = false
    ∧ m_requestCearBlocks v' = m_requestCearBlocks v
    ∧ m_requestRefreshBlocks v' = m_requestRefreshBlocks v
    ∧ ∀ j, isImagePreviewBlock v' j = false.
Proof.
  intros Hprev. unfold disableImagePreview. simpl. rewrite Hprev.
  destruct (clearAll_spec (withEnablePreview false v) Hprev)
    as (v1 & -> & Hctl & _ & _ & _ & Hno).
  exists v1. unfold control in Hctl. simpl in Hctl.
  split; [done|]. repeat split; solve [congruence|done].
Qed.

(** ** Calls made back into a running scan *)

Lemma deliver_scanning env pi r v :
  (∀ w, m_isPreviewing w = true → pi w = Ok w) →
  m_isPreviewing v = true →
  ∃ v',
    deliver env pi r v = Ok v'
    ∧ m_isPreviewing v' = true
    ∧ blocks (m_document v') = blocks (m_document v)
    ∧ isModified (m_document v') = isModified (m_document v)
    ∧ (m_requestCearBlocks v = true → m_requestCearBlocks v' = true).
Proof.
  intros Hpi Hprev. destruct r; cbn [deliver].
  - eexists. split; [done|]. unfold enableImagePreview.
    by destruct (getEnablePreviewImages env).
  - rewrite disable_latched by done. by eexists.
  - unfold refresh. rewrite Hprev. by eexists.
  - unfold timerTimeoutWith.
    destruct (getEnablePreviewImages env); cbn [negb].
    + destruct (m_enablePreview v); cbn [negb]; [|by eexists].
      rewrite Hpi by done. by eexists.
    + destruct (m_enablePreview v); [|by eexists].
      rewrite disable_latched by done. by eexists.
  - eexists. split; [done|]. unfold handleContentChange.
    by destruct (_ && _).
  - eexists. split; [done|]. unfold imageDownloaded.
    destruct (negb _); [|done]. by destruct (m_imageCache v !! p_url).
Qed.

Lemma deliverAll_scanning env pi rs : ∀ v,
  (∀ w, m_isPreviewing w = true → pi w = Ok w) →
  m_isPreviewing v = true →
  ∃ v',
    deliverAll env pi rs v = Ok v'
    ∧ m_isPreviewing v' = true
    ∧ blocks (m_document v') = blocks (m_document v)
    ∧ isModified (m_document v') = isModified (m_document v)
    ∧ (m_requestCearBlocks v = true → m_requestCearBlocks v' = true).
Proof.
  induction rs as [|r rs IH]; intros v Hpi Hprev; cbn [deliverAll].
  - by exists v.
  - destruct (deliver_scanning env pi r v Hpi Hprev)
      as (v1 & -> & Hp1 & Hb1 & Hm1 & Hl1).
    cbn [mbind result_bind].
    destruct (IH v1 Hpi Hp1) as (v' & -> & Hp' & Hb' & Hm' & Hl').
    exists v'. split; [done|]. split; [done|].
    split; [congruence|]. split; [congruence|]. auto.
Qed.

Lemma scanLoop_scanning env pi fuel : ∀ hooks i v i' v',
  (∀ w, m_isPreviewing w = true → pi w = Ok w) →
  m_isPreviewing v = true →
  scanLoop env pi fuel hooks i v = Ok (i', v') →
  m_isPreviewing v' = true
  ∧ (m_requestCearBlocks v = true → m_requestCearBlocks v' = true).
Proof.
  induction fuel as [|fuel IH]; intros hooks i v i' v' Hpi Hprev Hrun;
    cbn [scanLoop] in Hrun.
  - destruct (_ && _); [done|]. by injection Hrun as <- <-.
  - destruct (isValid (m_document v) i) eqn:Hv; cbn [andb] in Hrun.
    2:{ by injection Hrun as <- <-. }
    destruct (m_enablePreview v); [|by injection Hrun as <- <-].
    apply isValid_true in Hv as [b Hb].
    destruct (scanStep_spec env i v b Hb)
      as [[Hfail _]|(i1 & v1 & Hstep & Hctl & _)];
      rewrite ?Hfail, ?Hstep in Hrun; [done|].
    cbn [mbind result_bind] in Hrun. unfold control in Hctl.
    destruct (deliverAll_scanning env pi (hd [] hooks) v1 Hpi)
      as (v2 & Hd & Hp2 & _ & _ & Hl2); [congruence|].
    rewrite Hd in Hrun. cbn [mbind result_bind] in Hrun.
    destruct (IH _ _ _ _ _ Hpi Hp2 Hrun) as [Hp' Hl'].
    split; [done|]. intros Hl. apply Hl', Hl2. congruence.
Qed.

Lemma finishPreview_spec v :
  ∃ v',
    finishPreview v = Ok v'
    ∧ m_isPreviewing v' = false
    ∧ m_requestCearBlocks v' = false
    ∧ m_requestRefreshBlocks v' = false
    ∧ (m_requestCearBlocks v = true ∨ m_requestRefreshBlocks v = true →
       ∀ j, isImagePreviewBlock v' j = false).
Proof.
  unfold finishPreview.
  set (v0 := withIsPreviewing false v).
  assert (∃ v1, (if m_requestCearBlocks v0
                 then clearAllImagePreviewBlocks (withRequestCearBlocks false v0)
                 else Ok v0) = Ok v1
           ∧ m_isPreviewing v1 = false ∧ m_requestCearBlocks v1 = false
           ∧ m_requestRefreshBlocks v1 = m_requestRefreshBlocks v
           ∧ (m_requestCearBlocks v = true →
              ∀ j, isImagePreviewBlock v1 j = false))
    as (v1 & -> & Hp1 & Hc1 & Hr1 & Hno1).
  { destruct (m_requestCearBlocks v0) eqn:Hc.
    - destruct (clearAll_spec (withRequestCearBlocks false v0) eq_refl)
        as (v1 & -> & Hctl & _ & _ & _ & Hno).
      exists v1. unfold control in Hctl. simpl in Hctl.
      split; [done|]. repeat split; solve [congruence|done].
    - exists v0. split; [done|]. repeat split; try done.
      subst v0. simpl in Hc. congruence. }
  cbn [mbind result_bind].
  destruct (m_requestRefreshBlocks v1) eqn:Hr.
  - destruct (refresh_spec (withRequestRefreshBlocks false v1) Hp1)
      as (v2 & -> & Hctl & _ & _ & Hno).
    cbn [mbind result_bind]. eexists. split; [done|].
    unfold control in Hctl. simpl in Hctl.
    repeat split; try (simpl; congruence). intros _ j.
    specialize (Hno j). rewrite isImagePreviewBlock_lookup in *. apply Hno.
  - cbn [mbind result_bind]. eexists. split; [done|].
    repeat split; try done. intros [H|H] j; [|congruence].
    rewrite isImagePreviewBlock_lookup. simpl.
    specialize (Hno1 H j). by rewrite isImagePreviewBlock_lookup in Hno1.
Qed.

Lemma previewImages_released env hooks v v' :
  m_isPreviewing v = false → previewImages env hooks v = Ok v' →
  m_isPreviewing v' = false ∧ m_requestCearBlocks v' = false
  ∧ m_requestRefreshBlocks v' = false.
Proof.
  intros Hprev Hrun. rewrite previewImages_unfold in Hrun by done.
  destruct (scanLoop _ _ _ _ _ _) as [[i1 v1]| |]; [|done..].
  cbn [mbind result_bind] in Hrun.
  destruct (finishPreview_spec v1) as (v2 & Hf & H1 & H2 & H3 & _).
  assert (v2 = v') as <- by congruence. done.
Qed.

Lemma handle_released env e v v' :
  m_isPreviewing v = false → m_requestCearBlocks v = false →
  m_requestRefreshBlocks v = false →
  handle env e v = Ok v' →
  m_isPreviewing v' = false ∧ m_requestCearBlocks v' = false
  ∧ m_requestRefreshBlocks v' = false.
Proof.
  intros Hp Hc Hr Hrun. destruct e; cbn [handle] in Hrun.
  - unfold timerTimeout, timerTimeoutWith in Hrun.
    destruct (getEnablePreviewImages env); cbn [negb] in Hrun.
    + destruct (m_enablePreview (timerStop v)); cbn [negb] in Hrun.
      * by apply previewImages_released in Hrun.
      * by injection Hrun as <-.
    + destruct (m_enablePreview (timerStop v)).
      * destruct (disable_spec (timerStop v) Hp)
          as (v1 & Hd & H1 & _ & H2 & H3 & _).
        assert (v1 = v') as <- by congruence.
        simpl in *. repeat split; congruence.
      * by injection Hrun as <-.
  - injection Hrun as <-. unfold handleContentChange. by destruct (_ && _).
  - injection Hrun as <-. unfold enableImagePreview.
    by destruct (getEnablePreviewImages env).
  - destruct (disable_spec v Hp) as (v1 & Hd & H1 & _ & H2 & H3 & _).
    assert (v1 = v') as <- by congruence. repeat split; congruence.
  - destruct (refresh_spec v Hp) as (v1 & Hd & Hctl & _).
    assert (v1 = v') as <- by congruence. unfold control in Hctl.
    repeat split; congruence.
  - injection Hrun as <-. unfold imageDownloaded.
    destruct (negb _); [|done]. by destruct (m_imageCache v !! p_url).
Qed.

Lemma deliverAll_app env pi rs1 rs2 v :
  deliverAll env pi (rs1 ++ rs2) v
  = v' ← deliverAll env pi rs1 v; deliverAll env pi rs2 v'.
Proof.
  revert v. induction rs1 as [|r rs1 IH]; intros v; [done|].
  cbn [app deliverAll]. destruct (deliver env pi r v); [|done..].
  cbn [mbind result_bind]. apply IH.
Qed.

(** ** The cache *)

Lemma imageDownloaded_cached env data key v name :
  m_imageCache v !! key = Some name → imageDownloaded env data key v = v.
Proof.
  intros H. unfold imageDownloaded. rewrite H. by destruct (negb _).
Qed.

Lemma imageDownloaded_undecodable env data key v :
  isNull (imageFromData env data) = true → imageDownloaded env data key v = v.
Proof. intros H. unfold imageDownloaded. by rewrite H. Qed.

Lemma resolve_cached env key v name :
  key ≠ [] → m_imageCache v !! key = Some name →
  imageCacheResourceName env key v = Ok (name, v).
Proof.
  intros Hk H. unfold imageCacheResourceName, V_ASSERT.
  apply isEmpty_false in Hk. rewrite Hk. cbn [negb mbind result_bind].
  by rewrite H.
Qed.

Lemma resolve_remote env key v :
  key ≠ [] → m_imageCache v !! key = None → fileExists env key = false →
  imageCacheResourceName env key v = Ok ([], download key v).
Proof.
  intros Hk H Hf. unfold imageCacheResourceName, V_ASSERT.
  apply isEmpty_false in Hk. rewrite Hk. cbn [negb mbind result_bind].
  by rewrite H, Hf.
Qed.

Lemma resolve_undecodable env key v :
  key ≠ [] → m_imageCache v !! key = None → fileExists env key = true →
  isNull (loadImage env key) = true →
  imageCacheResourceName env key v = Ok ([], noteImageLoad key v).
Proof.
  intros Hk H Hf Hl. unfold imageCacheResourceName, V_ASSERT.
  apply isEmpty_false in Hk. rewrite Hk. cbn [negb mbind result_bind].
  by rewrite H, Hf, Hl.
Qed.

Lemma runCacheEvents_cached env key evs : ∀ v name,
  key ≠ [] → m_imageCache v !! key = Some name →
  ∃ v', runCacheEvents env key evs v = Ok v'
        ∧ m_imageCache v' = m_imageCache v
        ∧ imageResources (m_document v') = imageResources (m_document v).
Proof.
  induction evs as [|[data|] evs IH]; intros v name Hk Hc;
    cbn [runCacheEvents].
  - by exists v.
  - rewrite (imageDownloaded_cached _ _ _ _ _ Hc). by apply (IH v name).
  - rewrite (resolve_cached _ _ _ _ Hk Hc). cbn [mbind result_bind].
    by apply (IH v name).
Qed.

Lemma runCacheEvents_uncached env key evs : ∀ v,
  key ≠ [] → fileExists env key = false → m_imageCache v !! key = None →
  ∃ v', runCacheEvents env key evs v = Ok v'
        ∧ match firstDecoded env evs with
          | Some image =>
              m_imageCache v' = <[key := key]> (m_imageCache v)
              ∧ imageResources (m_document v')
                = <[key := image]> (imageResources (m_document v))
          | None =>
              m_imageCache v' = m_imageCache v
              ∧ imageResources (m_document v')
                = imageResources (m_document v)
          end.
Proof.
  induction evs as [|[data|] evs IH]; intros v Hk Hf Hc;
    cbn [runCacheEvents firstDecoded].
  - by exists v.
  - destruct (isNull (imageFromData env data)) eqn:Hn.
    + rewrite (imageDownloaded_undecodable _ _ _ _ Hn). by apply IH.
    + unfold imageDownloaded. rewrite Hn, Hc. cbn [negb].
      match goal with |- ∃ v', runCacheEvents _ _ _ ?w = _ ∧ _ =>
        destruct (runCacheEvents_cached env key evs w key Hk)
          as (v' & -> & Hc' & Hr')
      end.
      { cbn. apply lookup_insert_eq. }
      exists v'. split; [done|]. by rewrite Hc', Hr'.
  - rewrite (resolve_remote _ _ _ Hk Hc Hf). cbn [mbind result_bind].
    destruct (IH (download key v) Hk Hf Hc) as (v' & -> & H). by exists v'.
Qed.

Lemma resolveRepeatedly_undecodable env key n : ∀ v,
  key ≠ [] → m_imageCache v !! key = None → fileExists env key = true →
  isNull (loadImage env key) = true →
  resolveRepeatedly env key n v
  = Ok (replicate n [], Nat.iter n (noteImageLoad key) v).
Proof.
  induction n as [|n IH]; intros v Hk Hc Hf Hl; [done|].
  cbn [resolveRepeatedly].
  rewrite (resolve_undecodable _ _ _ Hk Hc Hf Hl). cbn [mbind result_bind].
  rewrite IH by done. cbn [mbind result_bind replicate].
  by rewrite Nat.iter_succ_r.
Qed.

Lemma iter_noteImageLoad key n v :
  m_document (Nat.iter n (noteImageLoad key) v) = m_document v
  ∧ m_imageCache (Nat.iter n (noteImageLoad key) v) = m_imageCache v
  ∧ downloadRequests (Nat.iter n (noteImageLoad key) v) = downloadRequests v
  ∧ imageLoads (Nat.iter n (noteImageLoad key) v)
    = replicate n key ++ imageLoads v.
Proof.
  induction n as [|n (H1 & H2 & H3 & H4)]; [done|]. simpl.
  by rewrite H1, H2, H3, H4.
Qed.

(** ** The scan returns *)

Lemma scanLoop_total env pi fuel : ∀ hooks i v,
  (∀ w, m_isPreviewing w = true → pi w = Ok w) →
  m_isPreviewing v = true →
  (length (blocks (m_document v)) - i ≤ fuel)%nat →
  WellFormed (blocks (m_document v)) →
  ∃ i' v', scanLoop env pi fuel hooks i v = Ok (i', v').
Proof.
  induction fuel as [|fuel IH]; intros hooks i v Hpi Hprev Hfuel HW;
    cbn [scanLoop].
  - rewrite (proj2 (isValid_false _ _)) by (apply lookup_ge_None; lia).
    by eexists _, _.
  - destruct (blocks (m_document v) !! i) as [b|] eqn:Hi.
    2:{ rewrite (proj2 (isValid_false _ _) Hi). by eexists _, _. }
    rewrite (isValid_Some _ _ _ Hi).
    destruct (m_enablePreview v); [|by eexists _, _]. cbn [andb].
    destruct (scanStep_spec env i v b Hi)
      as [[_ HW']|(i1 & v1 & -> & Hctl & Hm & _ & _ & HW1)]; [done|].
    cbn [mbind result_bind].
    assert (Hp1 : m_isPreviewing v1 = true)
      by (unfold control in Hctl; congruence).
    destruct (deliverAll_scanning env pi (hd [] hooks) v1 Hpi Hp1)
      as (v2 & -> & Hp2 & Hb2 & _).
    cbn [mbind result_bind]. apply IH; [done|done| |].
    + rewrite Hb2. lia.
    + rewrite Hb2. by apply HW1.
Qed.

Lemma previewImages_total env hooks v :
  WellFormed (blocks (m_document v)) →
  ∃ v', previewImages env hooks v = Ok v'.
Proof.
  intros HW. destruct (m_isPreviewing v) eqn:Hprev.
  { exists v. by apply previewImagesAt_guard. }
  rewrite previewImages_unfold by done.
  destruct (scanLoop_total env (previewImagesAt 0 env [])
              (length (blocks (m_document v))) hooks O
              (withIsPreviewing true v))
    as (i' & v1 & ->);
    [intros; by apply previewImagesAt_guard|done|simpl; lia|done|].
  cbn [mbind result_bind].
  destruct (finishPreview_spec v1) as (v' & Hf & _). by exists v'.
Qed.

Lemma handle_total env e v :
  m_isPreviewing v = false → WellFormed (blocks (m_document v)) →
  ∃ v', handle env e v = Ok v'.
Proof.
  intros Hprev HW. destruct e; cbn [handle]; try by eexists.
  - unfold timerTimeout, timerTimeoutWith.
    destruct (getEnablePreviewImages env); cbn [negb].
    + destruct (m_enablePreview (timerStop v)); cbn [negb]; [|by eexists].
      by apply previewImages_total.
    + destruct (m_enablePreview (timerStop v)); [|by eexists].
      destruct (disable_spec (timerStop v) Hprev) as (v' & Hd & _).
      by exists v'.
  - destruct (disable_spec v Hprev) as (v' & Hd & _). by exists v'.
  - destruct (refresh_spec v Hprev) as (v' & Hd & _). by exists v'.
Qed.

Lemma scanLoop_fuel env pi fuel : ∀ hooks i v,
  (∀ w, m_isPreviewing w = true → pi w = Ok w) →
  m_isPreviewing v = true →
  (length (blocks (m_document v)) - i ≤ fuel)%nat →
  scanLoop env pi fuel hooks i v ≠ OutOfFuel.
Proof.
  induction fuel as [|fuel IH]; intros hooks i v Hpi Hprev Hfuel;
    cbn [scanLoop].
  - by rewrite (proj2 (isValid_false _ _)) by (apply lookup_ge_None; lia).
  - destruct (blocks (m_document v) !! i) as [b|] eqn:Hi.
    2:{ by rewrite (proj2 (isValid_false _ _) Hi). }
    rewrite (isValid_Some _ _ _ Hi).
    destruct (m_enablePreview v); [|done]. cbn [andb].
    destruct (scanStep_spec env i v b Hi)
      as [[-> _]|(i1 & v1 & -> & Hctl & Hm & _)]; [done|].
    cbn [mbind result_bind].
    assert (Hp1 : m_isPreviewing v1 = true)
      by (unfold control in Hctl; congruence).
    destruct (deliverAll_scanning env pi (hd [] hooks) v1 Hpi Hp1)
      as (v2 & -> & Hp2 & Hb2 & _).
    cbn [mbind result_bind]. apply IH; [done|done|]. rewrite Hb2. lia.
Qed.

Lemma previewImages_fuel env hooks v : previewImages env hooks v ≠ OutOfFuel.
Proof.
  destruct (m_isPreviewing v) eqn:Hprev.
  { unfold previewImages. by rewrite previewImagesAt_guard. }
  rewrite previewImages_unfold by done.
  pose proof (scanLoop_fuel env (previewImagesAt 0 env [])
                (length (blocks (m_document v))) hooks O
                (withIsPreviewing true v)) as H.
  destruct (scanLoop _ _ _ _ _ _) as [[i' v1]| |] eqn:E.
  - cbn [mbind result_bind].
    destruct (finishPreview_spec v1) as (v' & -> & _). done.
  - done.
  - exfalso. apply H; [intros; by apply previewImagesAt_guard|done|simpl; lia|done].
Qed.

End ControlFacts.

(* ===================================================================== *)
(** ** Facts about one pass of the scan                                   *)
(* ===================================================================== *)

Module PassFacts.
Import Text Doc Engine Spec Behaviour.
Import TextFacts DocFacts EngineFacts ScanFacts ControlFacts.

(** What one pass of the scan does to the blocks, case by case. *)
Lemma scanStep_outcome env i v b i' v' :
  blocks (m_document v) !! i = Some b →
  scanStep env i v = Ok (i', v') →
  let bs := blocks (m_document v) in
  let c := <[i := cleanBlock b]> bs in
  let bs' := blocks (m_document v') in
  (isPreviewData b = true ∧ bs' = bs ∧ i' = S i)
  ∨ (isPreviewData b = true ∧ bs' = removedBlocks i bs
     ∧ i' = match i with O => 1%nat | S _ => i end)
  ∨ (isPreviewData b = false ∧ bs' = c
     ∧ (i' = S i ∨ i' = S (S i) ∧ (S i < length bs)%nat))
  ∨ (isPreviewData b = false
     ∧ ∃ nb, c !! S i = Some nb ∧ isPreviewData nb = true
             ∧ bs' = delete (S i) c ∧ i' = S i)
  ∨ (isPreviewData b = false
     ∧ ∃ nb name, c !! S i = Some nb ∧ isPreviewData nb = true
                  ∧ resolvable env (m_imageCache v) (pathOf env (cleanBlock b))
                    = true
                  ∧ bs' = <[S i := retargetBlock name
                                     (pathOf env (cleanBlock b)) nb]> c
                  ∧ i' = S (S i))
  ∨ (isPreviewData b = false
     ∧ ∃ name, resolvable env (m_imageCache v) (pathOf env (cleanBlock b))
               = true
               ∧ bs' = take (S i) c
                       ++ previewBlock name (pathOf env (cleanBlock b))
                          :: drop (S i) c
               ∧ i' = S (S i)).
Proof.
  intros Hb Hrun. cbn zeta.
  assert (Hlen : (i < length (blocks (m_document v)))%nat)
    by (by eapply lookup_lt_Some).
  unfold scanStep in Hrun. rewrite isImagePreviewBlock_lookup, Hb in Hrun.
  destruct (isPreviewData b) eqn:Hp.
  - destruct (isValidImagePreviewBlock env v i); cbn [negb] in Hrun.
    + injection Hrun as <- <-. by left.
    + right. left. split; [done|].
      destruct (removeBlock_eq i v) as (d' & Hrm & Hbl & _).
      rewrite Hrm in Hrun. injection Hrun as <- <-.
      cbn [m_document withDocument]. split; [done|].
      unfold rebase, next. rewrite bool_decide_eq_true_2 by lia.
      rewrite Hbl, (removedBlocks_preview _ _ _ Hb Hp).
      destruct i; [rewrite length_insert|rewrite length_delete by (by eexists)];
        lia.
  - do 2 right. rewrite clearCorrupted_eq in Hrun.
    cbn [mbind result_bind] in Hrun.
    set (v1 := withDocument (cleanupDocument i (m_document v)) v) in *.
    assert (Hb1 : blocks (m_document v1)
                  = <[i := cleanBlock b]> (blocks (m_document v)))
      by (by apply cleanupDocument_blocks).
    assert (Hi1 : blocks (m_document v1) !! i = Some (cleanBlock b))
      by (rewrite Hb1; by apply list_lookup_insert_eq).
    assert (Hlen1 : length (blocks (m_document v1))
                    = length (blocks (m_document v)))
      by (by rewrite Hb1, length_insert).
    rewrite <- Hb1.
    unfold previewImageOfOneBlock in Hrun.
    rewrite (isValid_Some _ _ _ Hi1) in Hrun. cbn [negb] in Hrun.
    rewrite (text_Some _ _ _ Hi1) in Hrun.
    fold (pathOf env (cleanBlock b)) in Hrun.
    destruct (isEmpty (pathOf env (cleanBlock b))) eqn:He.
    { injection Hrun as <- <-. left. split; [done|]. split; [done|]. by left. }
    apply isEmpty_false in He. unfold next in Hrun.
    rewrite isImagePreviewBlock_lookup in Hrun.
    destruct (blocks (m_document v1) !! S i) as [nb|] eqn:Hn.
    2:{ destruct (insert_spec env i _ v1 _ He Hi1)
          as (j & v2 & Hins & _ & _ & _ & Hno & Hyes).
        rewrite Hins in Hrun. cbn [mbind result_bind] in Hrun.
        injection Hrun as <- <-.
        destruct (resolvable env (m_imageCache v1) (pathOf env (cleanBlock b)))
          eqn:Hr.
        - destruct (Hyes eq_refl) as (-> & name & Hbl).
          do 3 right. split; [done|]. by exists name.
        - destruct (Hno eq_refl) as (-> & -> & _).
          left. split; [done|]. split; [done|]. by left. }
    destruct (isPreviewData nb) eqn:Hpn.
    2:{ destruct (insert_spec env i _ v1 _ He Hi1)
          as (j & v2 & Hins & _ & _ & _ & Hno & Hyes).
        rewrite Hins in Hrun. cbn [mbind result_bind] in Hrun.
        injection Hrun as <- <-.
        destruct (resolvable env (m_imageCache v1) (pathOf env (cleanBlock b)))
          eqn:Hr.
        - destruct (Hyes eq_refl) as (-> & name & Hbl).
          do 3 right. split; [done|]. by exists name.
        - destruct (Hno eq_refl) as (-> & -> & _).
          left. split; [done|]. split; [done|]. by left. }
    assert (Hlen2 : (S i < length (blocks (m_document v1)))%nat)
      by (by eapply lookup_lt_Some).
    destruct (formatOf nb) as [f|] eqn:Hf.
    2:{ by rewrite (update_failure env _ _ _ _ Hn Hf) in Hrun. }
    destruct (update_spec env (S i) _ v1 nb He Hn Hpn)
      as (v2 & Hupd & _ & _ & Hsame & Hrem & Hret); [by eexists|].
    rewrite Hupd in Hrun. cbn [mbind result_bind] in Hrun.
    injection Hrun as <- <-.
    destruct (decide (payloadOf nb = pathOf env (cleanBlock b))) as [Heq|Hne].
    { rewrite (Hsame Heq). left. split; [done|]. split; [done|]. right.
      split; [|lia]. change (cleanupDocument i (m_document v)) with (m_document v1).
      unfold rebase. rewrite bool_decide_eq_true_2 by lia. lia. }
    destruct (resolvable env (m_imageCache v1) (pathOf env (cleanBlock b)))
      eqn:Hr.
    + destruct (Hret Hne eq_refl) as (name & Hbl & _).
      do 2 right. left. split; [done|].
      exists nb, name.
      split; [done|]. split; [done|]. split; [done|]. split; [done|].
      change (cleanupDocument i (m_document v)) with (m_document v1).
      unfold rebase. rewrite bool_decide_eq_true_2 by lia.
      rewrite Hbl, length_insert. lia.
    + destruct (Hrem Hne eq_refl) as (Hbl & _).
      rewrite (removedBlocks_delete _ _ _ Hn Hpn) in Hbl.
      right. left. split; [done|]. exists nb.
      split; [done|]. split; [done|]. split; [done|].
      change (cleanupDocument i (m_document v)) with (m_document v1).
      unfold rebase. rewrite bool_decide_eq_true_2 by lia.
      rewrite Hbl, length_delete by (by eexists). lia.
Qed.

(** ** Preview blocks whose keys resolve *)

Lemma PreviewsResolve_ext env cache cache' bs :
  (∀ q, resolvable env cache' q = resolvable env cache q) →
  PreviewsResolve env cache bs → PreviewsResolve env cache' bs.
Proof.
  intros Hres H. unfold PreviewsResolve in *.
  eapply Forall_impl; [exact H|].
  intros nb Hnb Hp. cbn beta in *. rewrite Hres. by apply Hnb.
Qed.

Lemma PreviewsResolve_insert env cache bs i x :
  PreviewsResolve env cache bs →
  (isPreviewData x = true → resolvable env cache (payloadOf x) = true) →
  PreviewsResolve env cache (<[i := x]> bs).
Proof. intros H Hx. by apply Forall_insert. Qed.

Lemma PreviewsResolve_delete env cache bs i :
  PreviewsResolve env cache bs → PreviewsResolve env cache (delete i bs).
Proof. intros H. by apply Forall_delete. Qed.

Lemma PreviewsResolve_removed env cache bs i :
  PreviewsResolve env cache bs → PreviewsResolve env cache (removedBlocks i bs).
Proof.
  intros H. unfold removedBlocks. destruct (bs !! i) as [[|c b]|]; [done| |done].
  destruct i; [|by apply PreviewsResolve_delete].
  apply PreviewsResolve_insert; [done|]. by rewrite isPreviewData_nil.
Qed.

Lemma PreviewsResolve_added env cache bs k x :
  PreviewsResolve env cache bs →
  (isPreviewData x = true → resolvable env cache (payloadOf x) = true) →
  PreviewsResolve env cache (take k bs ++ x :: drop k bs).
Proof.
  intros H Hx. apply Forall_app. split; [by apply Forall_take|].
  constructor; [done|by apply Forall_drop].
Qed.

Lemma PreviewsResolve_lookup env cache bs j nb :
  PreviewsResolve env cache bs → bs !! j = Some nb →
  isPreviewData nb = true → resolvable env cache (payloadOf nb) = true.
Proof. intros H Hj. by apply (Forall_lookup_1 _ _ _ _ H Hj). Qed.

Lemma scanStep_previews env i v b i' v' :
  blocks (m_document v) !! i = Some b →
  scanStep env i v = Ok (i', v') →
  PreviewsResolve env (m_imageCache v) (blocks (m_document v)) →
  PreviewsResolve env (m_imageCache v') (blocks (m_document v')).
Proof.
  intros Hb Hrun Hpr.
  destruct (scanStep_spec env i v b Hb)
    as [[Hfail _]|(i1 & v1 & Hstep & _ & _ & Hres & _)]; [congruence|].
  assert (i1 = i' ∧ v1 = v') as [-> ->] by (split; congruence).
  apply (PreviewsResolve_ext env (m_imageCache v)); [done|].
  assert (PreviewsResolve env (m_imageCache v)
            (<[i := cleanBlock b]> (blocks (m_document v)))) as Hc.
  { apply PreviewsResolve_insert; [done|]. intros Hp.
    destruct (isPreviewData b) eqn:E.
    - rewrite cleanBlock_idle by (by apply isPreviewData_not_corrupted).
      by apply (PreviewsResolve_lookup _ _ _ _ _ Hpr Hb).
    - by rewrite cleanBlock_not_preview in Hp. }
  destruct (scanStep_outcome env i v b i' v' Hb Hrun)
    as [(_ & -> & _)|[(_ & -> & _)|[(_ & -> & _)|[(_ & nb & _ & _ & -> & _)
       |[(_ & nb & name & _ & Hpn & Hr & -> & _)|(_ & name & Hr & -> & _)]]]]].
  - done.
  - by apply PreviewsResolve_removed.
  - done.
  - by apply PreviewsResolve_delete.
  - apply PreviewsResolve_insert; [done|]. intros _.
    by rewrite retargetBlock_payload.
  - apply PreviewsResolve_added; [done|]. intros _.
    by rewrite payloadOf_previewBlock.
Qed.

Lemma scanLoop_previews env pi fuel : ∀ hooks i v i' v',
  (∀ w, m_isPreviewing w = true → pi w = Ok w) →
  Quiet env hooks →
  m_isPreviewing v = true → m_enablePreview v = true →
  scanLoop env pi fuel hooks i v = Ok (i', v') →
  PreviewsResolve env (m_imageCache v) (blocks (m_document v)) →
  PreviewsResolve env (m_imageCache v') (blocks (m_document v')).
Proof.
  induction fuel as [|fuel IH]; intros hooks i v i' v' Hpi Hq Hprev Hen Hrun;
    cbn [scanLoop] in Hrun.
  - destruct (_ && _); [done|]. by injection Hrun as <- <-.
  - destruct (isValid (m_document v) i) eqn:Hv; cbn [andb] in Hrun.
    2:{ by injection Hrun as <- <-. }
    rewrite Hen in Hrun.
    apply isValid_true in Hv as [b Hb].
    destruct (scanStep_spec env i v b Hb)
      as [[Hfail _]|(i1 & v1 & Hstep & Hctl & _)];
      rewrite ?Hfail, ?Hstep in Hrun; [done|].
    cbn [mbind result_bind] in Hrun. unfold control in Hctl.
    assert (Hp1 : m_isPreviewing v1 = true) by congruence.
    assert (He1 : m_enablePreview v1 = true) by congruence.
    destruct (deliverAll_benign env pi (hd [] hooks) v1 Hpi
                (Quiet_hd _ _ Hq) Hp1 He1)
      as (v2 & Hd & Hdoc & Hcache & Hctl2).
    rewrite Hd in Hrun. cbn [mbind result_bind] in Hrun.
    unfold control in Hctl2.
    intros Hpr. apply (IH _ _ _ _ _ Hpi (Quiet_tl _ _ Hq)) in Hrun;
      [done|congruence|congruence|].
    rewrite Hdoc, Hcache. by apply (scanStep_previews _ _ _ _ _ _ Hb Hstep).
Qed.

Lemma previewImages_previews env hooks v v' :
  Quiet env hooks →
  m_isPreviewing v = false → m_enablePreview v = true →
  m_requestCearBlocks v = false → m_requestRefreshBlocks v = false →
  previewImages env hooks v = Ok v' →
  PreviewsResolve env (m_imageCache v) (blocks (m_document v)) →
  PreviewsResolve env (m_imageCache v') (blocks (m_document v')).
Proof.
  intros Hq Hprev Hen Hc Hr Hrun Hpr.
  rewrite previewImages_unfold in Hrun by done.
  assert (Hpi : ∀ w, m_isPreviewing w = true →
                     previewImagesAt 0 env [] w = Ok w)
    by (intros; by apply previewImagesAt_guard).
  destruct (scanLoop_spec env _ (length (blocks (m_document v))) hooks O
              (withIsPreviewing true v) Hpi Hq)
    as [[Hfail _]|(i1 & v1 & Hloop & Hctl & _)];
    [cbn; lia|done|done| |].
  { by rewrite Hfail in Hrun. }
  rewrite Hloop in Hrun. cbn [mbind result_bind] in Hrun.
  unfold control in Hctl. cbn in Hctl.
  rewrite finishPreview_quiet in Hrun by congruence.
  injection Hrun as <-.
  by apply (scanLoop_previews _ _ _ _ _ _ _ _ Hpi Hq) in Hloop.
Qed.

(** The handle-level reading of [PreviewsResolve]. *)
Lemma PreviewsResolve_handles env v :
  PreviewsResolve env (m_imageCache v) (blocks (m_document v))
  ↔ ∀ j, isImagePreviewBlock v j = true →
         resolvable env (m_imageCache v) (fetchImagePathFromPreviewBlock v j)
         = true.
Proof.
  split.
  - intros H j Hj. rewrite isImagePreviewBlock_lookup in Hj.
    destruct (blocks (m_document v) !! j) as [nb|] eqn:Hb; [|done].
    rewrite (fetchImagePath_lookup _ _ _ Hb).
    by apply (PreviewsResolve_lookup _ _ _ _ _ H Hb).
  - intros H. apply Forall_lookup. intros j nb Hb Hp.
    specialize (H j). rewrite isImagePreviewBlock_lookup, Hb in H.
    rewrite (fetchImagePath_lookup _ _ _ Hb) in H. by apply H.
Qed.

(** A source block whose key does not resolve: nothing is inserted. *)
Lemma previewOne_unresolved env i w :
  isValid (m_document w) i = true →
  fetchImagePathToPreview env (text (m_document w) i) ≠ [] →
  isImagePreviewBlock w (S i) = false →
  resolvable env (m_imageCache w)
    (fetchImagePathToPreview env (text (m_document w) i)) = false →
  ∃ w', previewImageOfOneBlock env i w = Ok (S i, w')
        ∧ m_document w' = m_document w
        ∧ m_imageCache w' = m_imageCache w.
Proof.
  intros Hv Hk Hn Hr. unfold previewImageOfOneBlock. rewrite Hv. cbn [negb].
  apply isEmpty_false in Hk as Hk'. rewrite Hk'. unfold next. rewrite Hn.
  apply isValid_true in Hv as [b Hb].
  destruct (insert_spec env i _ w b Hk Hb)
    as (j & w' & -> & _ & _ & _ & Hno & _).
  destruct (Hno Hr) as (-> & Hd & Hc). cbn [mbind result_bind].
  by exists w'.
Qed.

End PassFacts.

(* ===================================================================== *)
(** ** The claims                                                         *)
(* ===================================================================== *)

Import Text Doc Engine Spec Examples.
Import TextFacts DocFacts EngineFacts ScanFacts ControlFacts.
Import Behaviour PassFacts.

(** C1, counterexample.  A note whose only line refers to a remote image:
    the scan completes with no request latched, the line still yields the
    reference [http://h/b.png], and yet no preview block follows it (the
    download is only requested), so "one ArtifactBlock per SourceBlock with
    a non-empty reference" does not hold after a completed scan. *)
Lemma C1_counterexample :
  ∃ v', previewImages exEnv [] (construct exRemoteDoc) = Ok v'
    ∧ m_requestCearBlocks v' = false ∧ m_requestRefreshBlocks v' = false
    ∧ blocks (m_document v') = [plain (qs "![y](http://h/b.png)")]
    ∧ fetchImageUrlToPreview (text (m_document v') 0) = qs "http://h/b.png"
    ∧ isImagePreviewBlock v' 0 = false
    ∧ isImagePreviewBlock v' 1 = false.
Proof. eexists. split; [vm_compute; reflexivity|]. vm_compute. tauto. Qed.


(** C1.  A scan started with preview enabled, with no request latched at
    its start and none delivered during it (only benign calls of the host),
    returns on every well-formed document, and whenever it returns:
    - no request is latched;
    - no orphan remains: every preview block is valid, that is, it directly
      follows a block whose resolved key is non-empty and equals the key
      stored in the preview block;
    - the block in front of a preview block is never a preview block, so a
      source block has at most one preview block, directly behind it;
    - every source block whose resolved key is non-empty and resolves to a
      cache resource (it is cached, or it is a local file that decodes) is
      directly followed by its preview block.
    A source block whose key does not resolve (a failed decode, a download
    still under way) gets no preview block inserted:
    - if every preview block found by the scan stores a key that resolves
      (in particular if there is none), then every preview block left by
      the scan stores a key that resolves, and no block whose key does not
      resolve is followed by a preview block (a preview block that was
      there before the scan and stores the key of the line in front of it
      is kept without resolving the key, hence the condition);
    - in any state, [previewImageOfOneBlock] on a block whose key is not
      empty and does not resolve, and which no preview block follows, steps
      to the next block and leaves document and cache as they are:
      [insertImagePreviewBlock] returns without inserting when
      [imageCacheResourceName] yields no name. *)
Theorem C1_scan_leaves_no_orphan_and_previews_resolvable
  (env : Env) (hooks : list (list Request)) (v : VImagePreviewer) :
  Quiet env hooks →
  m_isPreviewing v = false → m_enablePreview v = true →
  m_requestCearBlocks v = false → m_requestRefreshBlocks v = false →
  (WellFormed (blocks (m_document v)) →
   ∃ v', previewImages env hooks v = Ok v')
  ∧ (∀ v', previewImages env hooks v = Ok v' →
      m_requestCearBlocks v' = false ∧ m_requestRefreshBlocks v' = false
      ∧ (∀ i, isImagePreviewBlock v' i = true →
              isValidImagePreviewBlock env v' i = true)
      ∧ (∀ i, isImagePreviewBlock v' (S i) = true →
              isImagePreviewBlock v' i = false)
      ∧ (∀ i, isValid (m_document v') i = true →
              isImagePreviewBlock v' i = false →
              fetchImagePathToPreview env (text (m_document v') i) ≠ [] →
              resolvable env (m_imageCache v')
                (fetchImagePathToPreview env (text (m_document v') i)) = true →
              isImagePreviewBlock v' (S i) = true
              ∧ fetchImagePathFromPreviewBlock v' (S i)
                = fetchImagePathToPreview env (text (m_document v') i))
      ∧ ((∀ j, isImagePreviewBlock v j = true →
               resolvable env (m_imageCache v)
                 (fetchImagePathFromPreviewBlock v j) = true) →
         (∀ j, isImagePreviewBlock v' j = true →
               resolvable env (m_imageCache v')
                 (fetchImagePathFromPreviewBlock v' j) = true)
         ∧ (∀ i, resolvable env (m_imageCache v')
                   (fetchImagePathToPreview env (text (m_document v') i))
                 = false →
                 isImagePreviewBlock v' (S i) = false)))
  ∧ (∀ w i,
       isValid (m_document w) i = true →
       fetchImagePathToPreview env (text (m_document w) i) ≠ [] →
       isImagePreviewBlock w (S i) = false →
       resolvable env (m_imageCache w)
         (fetchImagePathToPreview env (text (m_document w) i)) = false →
       ∃ w', previewImageOfOneBlock env i w = Ok (S i, w')
             ∧ m_document w' = m_document w
             ∧ m_imageCache w' = m_imageCache w).
Proof.
  intros Hq Hprev Hen Hc Hr.
  assert (Hstep : ∀ w i,
            isValid (m_document w) i = true →
            fetchImagePathToPreview env (text (m_document w) i) ≠ [] →
            isImagePreviewBlock w (S i) = false →
            resolvable env (m_imageCache w)
              (fetchImagePathToPreview env (text (m_document w) i)) = false →
            ∃ w', previewImageOfOneBlock env i w = Ok (S i, w')
                  ∧ m_document w' = m_document w
                  ∧ m_imageCache w' = m_imageCache w)
    by (intros w i; apply previewOne_unresolved).
  destruct (previewImages_quiet env hooks v Hq Hprev Hen Hc Hr)
    as [[Hfail HW]|(v1 & Hrun & HS & Hctl & HW)].
  { split; [done|]. split; [|done]. intros v'. by rewrite Hfail. }
  split; [intros _; by exists v1|]. split; [|done].
  intros v' Hv'. assert (v' = v1) as -> by congruence.
  unfold control in Hctl.
  split; [congruence|]. split; [congruence|].
  assert (Hvalid : ∀ i, isImagePreviewBlock v1 i = true →
                        isValidImagePreviewBlock env v1 i = true).
  { intros i Hi. rewrite isImagePreviewBlock_lookup in Hi.
    destruct (blocks (m_document v1) !! i) as [b|] eqn:Hb; [|done].
    rewrite (isValidImagePreviewBlock_lookup _ _ _ _ Hb).
    specialize (HS i b ltac:(by eapply lookup_lt_Some) Hb).
    unfold settledBlock in HS. by rewrite Hi in HS. }
  split; [done|]. split; [|split].
  - intros i Hi. apply Hvalid in Hi as Hv.
    rewrite isImagePreviewBlock_lookup in Hi.
    destruct (blocks (m_document v1) !! S i) as [nb|] eqn:Hnb; [|done].
    rewrite (isValidImagePreviewBlock_lookup _ _ _ _ Hnb) in Hv.
    unfold validData in Hv. rewrite Hi in Hv. simpl in Hv.
    rewrite isImagePreviewBlock_lookup.
    destruct (blocks (m_document v1) !! i) as [b|] eqn:Hb; [|done].
    destruct (isPreviewData b) eqn:Hp; [|done].
    rewrite (pathOf_preview _ _ Hp) in Hv. done.
  - intros i Hi Hnp Hpath Hres.
    apply isValid_true in Hi as [b Hb].
    rewrite isImagePreviewBlock_lookup, Hb in Hnp.
    rewrite (text_Some _ _ _ Hb) in *. fold (pathOf env b) in *.
    pose proof (HS i b ltac:(by eapply lookup_lt_Some) Hb) as Hset.
    unfold settledBlock in Hset. rewrite Hnp in Hset.
    destruct Hset as [_ Hsrc].
    destruct (Hsrc Hpath) as [[_ (nb & Hnb & Hpn)]|Hno]; [|congruence].
    rewrite isImagePreviewBlock_lookup, Hnb. split; [done|].
    rewrite (fetchImagePath_lookup _ _ _ Hnb).
    by destruct (Settled_preview_payload _ _ _ _ _ _ HS Hb Hnb Hpn).
  - intros Hpr0. apply (proj2 (PreviewsResolve_handles env v)) in Hpr0.
    pose proof (previewImages_previews env hooks v v1 Hq Hprev Hen Hc Hr
                  Hrun Hpr0) as Hpr1.
    pose proof (proj1 (PreviewsResolve_handles env v1) Hpr1) as Hpr2.
    clear Hpr1. rename Hpr2 into Hpr1. split; [done|].
    intros i Hno.
    destruct (isImagePreviewBlock v1 (S i)) eqn:Hs; [|done].
    pose proof (Hpr1 _ Hs) as Hres. apply Hvalid in Hs as Hv.
    unfold isValidImagePreviewBlock in Hv.
    destruct (negb (isImagePreviewBlock v1 (S i))); [done|].
    destruct (isEmpty _); [done|].
    apply qstring_eqb_true in Hv. congruence.
Qed.

(** C1 at a note with a local image, a line of text and a remote image;
    no preview block is there before the scan. *)
Lemma C1_witness :
  (WellFormed (blocks (m_document (construct exLinksDoc))) →
   ∃ v', previewImages exEnv [] (construct exLinksDoc) = Ok v')
  ∧ ∀ v', previewImages exEnv [] (construct exLinksDoc) = Ok v' →
      m_requestCearBlocks v' = false ∧ m_requestRefreshBlocks v' = false
      ∧ (∀ i, isImagePreviewBlock v' i = true →
              isValidImagePreviewBlock exEnv v' i = true)
      ∧ (∀ i, isImagePreviewBlock v' (S i) = true →
              isImagePreviewBlock v' i = false)
      ∧ (∀ i, isValid (m_document v') i = true →
              isImagePreviewBlock v' i = false →
              fetchImagePathToPreview exEnv (text (m_document v') i) ≠ [] →
              resolvable exEnv (m_imageCache v')
                (fetchImagePathToPreview exEnv (text (m_document v') i)) = true →
              isImagePreviewBlock v' (S i) = true
              ∧ fetchImagePathFromPreviewBlock v' (S i)
                = fetchImagePathToPreview exEnv (text (m_document v') i))
      ∧ (∀ j, isImagePreviewBlock v' j = true →
              resolvable exEnv (m_imageCache v')
                (fetchImagePathFromPreviewBlock v' j) = true)
      ∧ (∀ i, resolvable exEnv (m_imageCache v')
                (fetchImagePathToPreview exEnv (text (m_document v') i))
              = false →
              isImagePreviewBlock v' (S i) = false).
Proof.
  destruct (C1_scan_leaves_no_orphan_and_previews_resolvable exEnv []
              (construct exLinksDoc)
              ltac:(constructor) eq_refl eq_refl eq_refl eq_refl)
    as (Htotal & Hafter & _).
  split; [exact Htotal|]. intros v' Hv'.
  destruct (Hafter v' Hv') as (H1 & H2 & H3 & H4 & H5 & H6).
  do 5 (split; [assumption|]). apply H6.
  intros [|[|[|j]]]; vm_compute; discriminate.
Defined.

(** C2.  Idempotence of the scan: when a scan with no latched request and
    only benign calls of the host has returned, a second scan of the state
    it left returns too and leaves the document as it is (blocks, texts,
    formats, resources, modified flag and undo stack) and the cache as it
    is: nothing is inserted, removed or rewritten. *)
Theorem C2_second_scan_changes_nothing
  (env : Env) (hooks1 hooks2 : list (list Request)) (v v1 : VImagePreviewer) :
  Quiet env hooks1 → Quiet env hooks2 →
  m_requestCearBlocks v = false → m_requestRefreshBlocks v = false →
  previewImages env hooks1 v = Ok v1 →
  ∃ v2, previewImages env hooks2 v1 = Ok v2
        ∧ m_document v2 = m_document v1
        ∧ m_imageCache v2 = m_imageCache v1.
Proof.
  intros Hq1 Hq2 Hc Hr Hrun.
  destruct (m_isPreviewing v) eqn:Hprev.
  { unfold previewImages in *. rewrite previewImagesAt_guard in Hrun by done.
    injection Hrun as <-. exists v. by rewrite previewImagesAt_guard. }
  destruct (m_enablePreview v) eqn:Hen.
  - destruct (previewImages_quiet env hooks1 v Hq1 Hprev Hen Hc Hr)
      as [[Hfail _]|(v1' & Hrun' & HS & Hctl & _)]; [congruence|].
    assert (v1' = v1) as -> by congruence.
    unfold control in Hctl.
    apply previewImages_settled; [done|congruence..|done].
  - rewrite previewImages_unfold in Hrun by done.
    rewrite scanLoop_disabled in Hrun by done.
    cbn [mbind result_bind] in Hrun.
    rewrite finishPreview_quiet in Hrun by done.
    injection Hrun as <-.
    rewrite previewImages_unfold by done.
    rewrite scanLoop_disabled by done. cbn [mbind result_bind].
    rewrite finishPreview_quiet by done. eexists. by split.
Qed.

(** C2 at the mixed example note. *)
Lemma C2_witness :
  ∃ v2, previewImages exEnv [] exMixedAfter = Ok v2
        ∧ m_document v2 = m_document exMixedAfter
        ∧ m_imageCache v2 = m_imageCache exMixedAfter.
Proof.
  apply (C2_second_scan_changes_nothing exEnv [] [] (construct exMixedDoc));
    [constructor|constructor|reflexivity|reflexivity|].
  vm_compute. reflexivity.
Defined.

(** C3.  [fetchImageUrlToPreview] returns the reference [ref] (which is
    never empty) if and only if the markup [![...](ref)] occurs at exactly
    one position of the line; with no occurrence, or with occurrences at two
    positions, it returns the empty string, and then
    [previewImageOfOneBlock] steps to the next block and leaves the engine
    and the document untouched: no preview block is created or updated for
    such a line. *)
Theorem C3_fetchImageUrlToPreview_needs_exactly_one_occurrence
  (line : QString) :
  (∀ ref, ExactlyOneOccurrence line ref
          ↔ fetchImageUrlToPreview line = ref ∧ ref ≠ [])
  ∧ ((∀ pos ref, ¬ Occurrence line pos ref) →
     fetchImageUrlToPreview line = [])
  ∧ (∀ pos1 ref1 pos2 ref2,
       pos1 ≠ pos2 → Occurrence line pos1 ref1 → Occurrence line pos2 ref2 →
       fetchImageUrlToPreview line = [])
  ∧ (∀ env v block,
       text (m_document v) block = line →
       fetchImageUrlToPreview line = [] →
       previewImageOfOneBlock env block v
       = Ok (if isValid (m_document v) block then next block else block, v)).
Proof.
  split; [apply fetch_exactly_one|]. split; [|split].
  - intros Hnone. apply fetch_none. intros (ref & pos & Hocc & _).
    by apply (Hnone pos ref).
  - intros pos1 ref1 pos2 ref2 Hne H1 H2. apply fetch_none.
    intros (ref & pos & _ & Huniq).
    apply Huniq in H1, H2. congruence.
  - intros env v block Ht Hf. unfold previewImageOfOneBlock.
    destruct (isValid (m_document v) block); [|done]. cbn [negb].
    unfold fetchImagePathToPreview. by rewrite Ht, Hf.
Qed.

(** C4, counterexample.  [disableImagePreview] arrives during the first
    pass of a scan of the mixed example note.  The loop is left at block 2
    of 6, a valid block: the orphaned preview block 3 and the corrupted
    line 4 have not been visited, and the remote image of the last line is
    never requested, neither before the loop is left nor in the rest of the
    call, while the undisturbed scan requests it.  The scan in flight does
    not run to completion. *)
Lemma C4_counterexample :
  ∃ i' v2 v3 v4,
    scanLoop exEnv (previewImagesAt 0 exEnv []) 5 [[ReqDisable]] O
      (withIsPreviewing true (construct exMixedDoc)) = Ok (i', v2)
    ∧ i' = 2%nat
    ∧ length (blocks (m_document v2)) = 6%nat
    ∧ isValid (m_document v2) i' = true
    ∧ isImagePreviewBlock v2 3 = true
    ∧ isValidImagePreviewBlock exEnv v2 3 = false
    ∧ blocks (m_document v2) !! 4%nat
      = Some (plain (qs "ab" ++ [ObjectReplacementCharacter] ++ qs "cd"))
    ∧ downloadRequests v2 = []
    ∧ previewImages exEnv [[ReqDisable]] (construct exMixedDoc) = Ok v3
    ∧ downloadRequests v3 = []
    ∧ previewImages exEnv [] (construct exMixedDoc) = Ok v4
    ∧ downloadRequests v4 = [qs "http://h/b.png"].
Proof.
  eexists _, _, _, _. split; [vm_compute; reflexivity|].
  split; [reflexivity|]. split; [reflexivity|]. split; [reflexivity|].
  split; [reflexivity|]. split; [reflexivity|]. split; [reflexivity|].
  split; [reflexivity|]. split; [vm_compute; reflexivity|].
  split; [reflexivity|]. split; [vm_compute; reflexivity|]. reflexivity.
Qed.

(** C4.  [disableImagePreview] called while a scan is active removes
    nothing itself: it leaves document and cache as they are, clears
    [m_enablePreview] and latches [m_requestCearBlocks].  The scan in flight
    is not broken off inside a pass, but its loop reads [m_enablePreview]
    before every pass: from the state the call leaves, the loop ends at once
    and visits no further block (unless preview is enabled again before the
    condition is read).  Whatever else the host calls afterwards in that
    scan, the latch stays set until the loop is left; [finishPreview] then
    releases the guard and runs the latched clear, after which no block is a
    preview block.  The second part states the same for a whole call of
    [previewImages] during whose first pass the request arrives. *)
Theorem C4_disable_during_scan_defers_clear (env : Env) :
  (∀ v,
     m_isPreviewing v = true →
     ∃ v1,
       disableImagePreview v = Ok v1
       ∧ m_document v1 = m_document v ∧ m_imageCache v1 = m_imageCache v
       ∧ m_isPreviewing v1 = true ∧ m_enablePreview v1 = false
       ∧ m_requestCearBlocks v1 = true
       ∧ (∀ fuel hooks i,
            scanLoop env (previewImagesAt 0 env []) fuel hooks i v1
            = Ok (i, v1))
       ∧ (∀ rest fuel hooks i v2 i' v3,
            deliverAll env (previewImagesAt 0 env []) rest v1 = Ok v2 →
            scanLoop env (previewImagesAt 0 env []) fuel hooks i v2
            = Ok (i', v3) →
            ∃ v4,
              finishPreview v3 = Ok v4
              ∧ m_isPreviewing v4 = false
              ∧ m_requestCearBlocks v4 = false
              ∧ ∀ j, isImagePreviewBlock v4 j = false))
  ∧ (∀ before after hooks v v',
       m_isPreviewing v = false → m_enablePreview v = true →
       isValid (m_document v) O = true →
       previewImages env ((before ++ ReqDisable :: after) :: hooks) v = Ok v' →
       m_isPreviewing v' = false ∧ ∀ j, isImagePreviewBlock v' j = false).
Proof.
  assert (Hpi : ∀ w, m_isPreviewing w = true →
                     previewImagesAt 0 env [] w = Ok w)
    by (intros; by apply previewImagesAt_guard).
  split.
  - intros v Hprev. rewrite disable_latched by done.
    set (v1 := withRequestCearBlocks true (withEnablePreview false v)).
    assert (Hp1 : m_isPreviewing v1 = true) by done.
    exists v1. split; [done|]. split; [done|]. split; [done|].
    split; [done|]. split; [done|]. split; [done|]. split.
    + intros. by apply scanLoop_disabled.
    + intros rest fuel hooks i v2 i' v3 Hd Hrun.
      destruct (deliverAll_scanning env _ rest v1 Hpi Hp1)
        as (v2' & Hd' & Hp2 & _ & _ & Hl2).
      assert (v2' = v2) as -> by congruence.
      destruct (scanLoop_scanning _ _ _ _ _ _ _ _ Hpi Hp2 Hrun) as [_ Hl3].
      destruct (finishPreview_spec v3) as (v4 & Hf & H1 & H2 & _ & Hno).
      exists v4. split; [done|]. split; [done|]. split; [done|].
      apply Hno. left. by apply Hl3, Hl2.
  - intros before after hooks v v' Hprev Hen Hv Hrun.
    split; [by apply (previewImages_released env _ v v' Hprev Hrun)|].
    rewrite previewImages_unfold in Hrun by done.
    apply isValid_true in Hv as [b Hb].
    assert (Hlen : (0 < length (blocks (m_document v)))%nat)
      by (by eapply lookup_lt_Some).
    destruct (length (blocks (m_document v))) as [|fuel]; [lia|].
    cbn [scanLoop] in Hrun.
    assert (Hb0 : blocks (m_document (withIsPreviewing true v)) !! O = Some b)
      by done.
    rewrite (isValid_Some _ _ _ Hb0) in Hrun.
    cbn [m_enablePreview withIsPreviewing] in Hrun. rewrite Hen in Hrun.
    cbn [andb] in Hrun.
    destruct (scanStep_spec env O _ b Hb0)
      as [[Hfail _]|(i1 & v1 & Hstep & Hctl & _)];
      rewrite ?Hfail, ?Hstep in Hrun; [done|].
    cbn [mbind result_bind hd tl] in Hrun.
    assert (Hp1 : m_isPreviewing v1 = true)
      by (unfold control in Hctl; simpl in Hctl; congruence).
    rewrite deliverAll_app in Hrun.
    destruct (deliverAll_scanning env _ before v1 Hpi Hp1)
      as (v2 & Hd2 & Hp2 & _).
    rewrite Hd2 in Hrun. cbn [mbind result_bind deliverAll deliver] in Hrun.
    rewrite disable_latched in Hrun by done.
    cbn [mbind result_bind] in Hrun.
    set (v3 := withRequestCearBlocks true (withEnablePreview false v2)) in *.
    assert (Hp3 : m_isPreviewing v3 = true) by done.
    destruct (deliverAll_scanning env _ after v3 Hpi Hp3)
      as (v4 & Hd4 & Hp4 & _ & _ & Hl4).
    rewrite Hd4 in Hrun. cbn [mbind result_bind] in Hrun.
    destruct (scanLoop _ _ _ _ _ v4) as [[i5 v5]| |] eqn:Hloop; [|done..].
    cbn [mbind result_bind] in Hrun.
    destruct (scanLoop_scanning _ _ _ _ _ _ _ _ Hpi Hp4 Hloop) as [_ Hl5].
    destruct (finishPreview_spec v5) as (v6 & Hf & _ & _ & _ & Hno).
    assert (v6 = v') as <- by congruence.
    apply Hno. left. by apply Hl5, Hl4.
Qed.

(** C5, at the failing input.  The source line names [a.png], the preview
    block behind it still stores [old.png], the note is unmodified.
    [updateImagePreviewBlock] rewrites the format in place and returns with
    the modified flag set; so does the whole scan.  (With an equal key the
    call changes nothing, and with a key that does not resolve it removes
    the block and restores the flag: see [update_spec].) *)
Theorem C5_update_rewrite_marks_document_modified :
  isImagePreviewBlock exStale 1 = true
  ∧ fetchImagePathFromPreviewBlock exStale 1 = qs "old.png"
  ∧ isModified (m_document exStale) = false
  ∧ ∃ v',
      updateImagePreviewBlock exEnv 1 (qs "a.png") exStale = Ok v'
      ∧ fetchImagePathFromPreviewBlock v' 1 = qs "a.png"
      ∧ isModified (m_document v') = true
      ∧ ∃ v'',
          previewImages exEnv [] exStale = Ok v''
          ∧ isModified (m_document v'') = true.
Proof.
  split; [reflexivity|]. split; [reflexivity|]. split; [reflexivity|].
  eexists. split; [vm_compute; reflexivity|].
  split; [reflexivity|]. split; [reflexivity|].
  eexists. split; [vm_compute; reflexivity|]. reflexivity.
Qed.

(** C6, counterexample.  [bad.png] exists and does not decode.  The first
    resolution returns no name; so does the second, which has decoded the
    file again (two loads are on record); and once the file has been
    repaired on disk the next resolution of the same key returns its name
    and caches it.  The failure is neither remembered nor permanent. *)
Lemma C6_counterexample :
  fileExists exBadEnv (qs "bad.png") = true
  ∧ isNull (loadImage exBadEnv (qs "bad.png")) = true
  ∧ ∃ v1 v2 v3,
      imageCacheResourceName exBadEnv (qs "bad.png") (construct exRemoteDoc)
      = Ok ([], v1)
      ∧ imageCacheResourceName exBadEnv (qs "bad.png") v1 = Ok ([], v2)
      ∧ imageLoads v2 = [qs "bad.png"; qs "bad.png"]
      ∧ imageCacheResourceName exRepairedEnv (qs "bad.png") v1
        = Ok (qs "bad.png", v3)
      ∧ m_imageCache v3 !! qs "bad.png" = Some (qs "bad.png").
Proof.
  split; [reflexivity|]. split; [reflexivity|].
  eexists _, _, _. split; [vm_compute; reflexivity|].
  split; [vm_compute; reflexivity|]. split; [reflexivity|].
  split; [vm_compute; reflexivity|]. vm_compute. reflexivity.
Qed.

(** C6.  For a key that is not cached and names an existing local file
    whose decode fails, [imageCacheResourceName] returns no name and changes
    neither cache nor document nor the download queue; nothing about the
    failure is kept.  Every further call with that key decodes the file
    again (one more load per call, no download) and returns no name again as
    long as the file still fails to decode; the first call after the file
    has become decodable returns the name and caches it. *)
Theorem C6_decode_failure_is_retried_on_every_call
  (env : Env) (key : QString) (v : VImagePreviewer) :
  key ≠ [] → m_imageCache v !! key = None → fileExists env key = true →
  isNull (loadImage env key) = true →
  (∀ n, ∃ v',
     resolveRepeatedly env key n v = Ok (replicate n [], v')
     ∧ m_document v' = m_document v
     ∧ m_imageCache v' = m_imageCache v
     ∧ downloadRequests v' = downloadRequests v
     ∧ imageLoads v' = replicate n key ++ imageLoads v)
  ∧ (∀ env' n v',
       resolveRepeatedly env key n v = Ok (replicate n [], v') →
       fileExists env' key = true → isNull (loadImage env' key) = false →
       ∃ v'', imageCacheResourceName env' key v' = Ok (key, v'')
              ∧ m_imageCache v'' !! key = Some key).
Proof.
  intros Hk Hc Hf Hl. split.
  - intros n. exists (Nat.iter n (noteImageLoad key) v).
    split; [by apply resolveRepeatedly_undecodable|].
    apply iter_noteImageLoad.
  - intros env' n v' Hrun Hf' Hl'.
    rewrite resolveRepeatedly_undecodable in Hrun by done.
    injection Hrun as <-.
    destruct (iter_noteImageLoad key n v) as (_ & Hc' & _).
    unfold imageCacheResourceName, V_ASSERT.
    apply isEmpty_false in Hk. rewrite Hk. cbn [negb mbind result_bind].
    rewrite Hc', Hc, Hf'.
    destruct (loadImage env' key) eqn:E; [done|]. cbn.
    eexists. split; [done|]. cbn. apply lookup_insert_eq.
Qed.

(** C6 at [bad.png]. *)
Lemma C6_witness :
  (∀ n, ∃ v',
     resolveRepeatedly exBadEnv (qs "bad.png") n (construct exRemoteDoc)
     = Ok (replicate n [], v')
     ∧ m_document v' = m_document (construct exRemoteDoc)
     ∧ m_imageCache v' = m_imageCache (construct exRemoteDoc)
     ∧ downloadRequests v' = downloadRequests (construct exRemoteDoc)
     ∧ imageLoads v'
       = replicate n (qs "bad.png") ++ imageLoads (construct exRemoteDoc))
  ∧ (∀ env' n v',
       resolveRepeatedly exBadEnv (qs "bad.png") n (construct exRemoteDoc)
       = Ok (replicate n [], v') →
       fileExists env' (qs "bad.png") = true →
       isNull (loadImage env' (qs "bad.png")) = false →
       ∃ v'', imageCacheResourceName env' (qs "bad.png") v'
              = Ok (qs "bad.png", v'')
              ∧ m_imageCache v'' !! qs "bad.png" = Some (qs "bad.png")).
Proof.
  apply (C6_decode_failure_is_retried_on_every_call exBadEnv (qs "bad.png")
           (construct exRemoteDoc)); [done|reflexivity..].
Defined.

(** C7.  For a remote key (no local file, not yet cached) and any sequence
    of download completions and resolutions of that key: the run returns,
    entries of other keys are untouched, and the cache ends with the one
    entry [key ↦ key] whose resource is the image of the first completion
    that decoded (with no entry when none decoded).  A completion for a key
    that is already cached leaves the whole engine, cache and document
    resources included, as it is. *)
Theorem C7_first_download_completion_wins
  (env : Env) (key : QString) (evs : list CacheEvent) (v : VImagePreviewer) :
  key ≠ [] → fileExists env key = false → m_imageCache v !! key = None →
  (∃ v', runCacheEvents env key evs v = Ok v'
         ∧ (∀ other, other ≠ key →
                     m_imageCache v' !! other = m_imageCache v !! other)
         ∧ match firstDecoded env evs with
           | Some image =>
               m_imageCache v' !! key = Some key
               ∧ imageResources (m_document v') !! key = Some image
           | None => m_imageCache v' !! key = None
           end)
  ∧ (∀ w name data,
       m_imageCache w !! key = Some name →
       imageDownloaded env data key w = w).
Proof.
  intros Hk Hf Hc. split.
  - destruct (runCacheEvents_uncached env key evs v Hk Hf Hc)
      as (v' & Hrun & H).
    exists v'. split; [done|].
    destruct (firstDecoded env evs) as [image|]; destruct H as [H1 H2].
    + rewrite H1, H2. split.
      * intros other Hne. by rewrite lookup_insert_ne.
      * by rewrite !lookup_insert_eq.
    + rewrite H1. by split.
  - intros w name data Hw. by apply (imageDownloaded_cached _ _ _ _ name).
Qed.

(** C7 at the example race: of the completions decoding to images 5 and
    6, the first one is kept. *)
Lemma C7_witness :
  (∃ v', runCacheEvents exEnv (qs "http://h/b.png") exRace
           (construct exRemoteDoc) = Ok v'
         ∧ (∀ other, other ≠ qs "http://h/b.png" →
                     m_imageCache v' !! other
                     = m_imageCache (construct exRemoteDoc) !! other)
         ∧ m_imageCache v' !! qs "http://h/b.png" = Some (qs "http://h/b.png")
         ∧ imageResources (m_document v') !! qs "http://h/b.png"
           = Some (Bitmap 5))
  ∧ (∀ w name data,
       m_imageCache w !! qs "http://h/b.png" = Some name →
       imageDownloaded exEnv data (qs "http://h/b.png") w = w).
Proof.
  apply (C7_first_download_completion_wins exEnv (qs "http://h/b.png") exRace
           (construct exRemoteDoc)); [done|reflexivity|reflexivity].
Defined.

(** C8.  On a block that mixes placeholder characters with text that is
    not whitespace, [clearCorruptedImagePreviewBlock] removes exactly the
    placeholder characters: the other characters stay, in order and with
    their formats, no other block changes, the modified flag is what it was
    before, and, when no edit block is open, the deletions enter the undo
    stack as one step.  A block that is not corrupted, in particular one
    made of whitespace and placeholders only, is left untouched. *)
Theorem C8_cleanup_strips_exactly_the_placeholders
  (v : VImagePreviewer) (block : QTextBlock) (b : BlockData) :
  blocks (m_document v) !! block = Some b →
  (Corrupted (blockText b) →
   ∃ v',
     clearCorruptedImagePreviewBlock block v = Ok v'
     ∧ v' = withDocument (m_document v') v
     ∧ blocks (m_document v')
       = <[block := stripPlaceholders b]> (blocks (m_document v))
     ∧ text (m_document v') block
       = remove ObjectReplacementCharacter (blockText b)
     ∧ isModified (m_document v') = isModified (m_document v)
     ∧ imageResources (m_document v') = imageResources (m_document v)
     ∧ (editBlockDepth (m_document v) = O →
        editBlockOps (m_document v) = [] →
        editBlockDepth (m_document v') = O
        ∧ undoStack (m_document v')
          = map (OpDeleteChar block)
                (rev (placeholderPositions (blockText b) 0))
            :: undoStack (m_document v)))
  ∧ (¬ Corrupted (blockText b) →
     clearCorruptedImagePreviewBlock block v = Ok v)
  ∧ (onlySpacesAround (blockText b) = true →
     clearCorruptedImagePreviewBlock block v = Ok v).
Proof.
  intros Hb.
  assert (Hidle : ¬ Corrupted (blockText b) →
                  clearCorruptedImagePreviewBlock block v = Ok v).
  { intros Hnc. apply clearCorrupted_idle. by rewrite (text_Some _ _ _ Hb). }
  split; [|split; [done|]].
  - intros Hc. rewrite (clearCorrupted_active _ _ _ Hb Hc).
    eexists. split; [done|]. split; [done|].
    cbn [m_document withDocument].
    split; [apply cleanedDocument_blocks|]. split.
    { unfold text. rewrite cleanedDocument_blocks.
      rewrite list_lookup_insert_eq by (by eapply lookup_lt_Some).
      apply blockText_strip. }
    split; [apply cleanedDocument_isModified|].
    split; [apply cleanedDocument_resources|].
    intros Hd Ho. unfold cleanedDocument. by rewrite Hd, Ho.
  - intros Hs. apply Hidle. intros [_ Hc].
    apply onlySpacesAround_false in Hc. congruence.
Qed.

(** C8 at the line [abc], placeholder, [def]: the text becomes [abcdef],
    the modified flag stays, one undo step is recorded. *)
Lemma C8_witness :
  ∃ v',
    clearCorruptedImagePreviewBlock 0 exCorrupted = Ok v'
    ∧ text (m_document v') 0 = qs "abcdef"
    ∧ isModified (m_document v') = isModified (m_document exCorrupted)
    ∧ undoStack (m_document v') = [[OpDeleteChar 0 3]].
Proof.
  destruct (C8_cleanup_strips_exactly_the_placeholders exCorrupted O
              exCorruptedBlock eq_refl) as [H _].
  destruct H as (v' & Hrun & _ & _ & Ht & Hm & _ & Hu).
  { split.
    - apply list_elem_of_In. vm_compute. tauto.
    - exists 97%N. split; [|done]. apply list_elem_of_In. vm_compute. tauto. }
  exists v'. split; [done|]. split; [done|]. split; [done|].
  by destruct (Hu eq_refl eq_refl).
Defined.

(** C9.  The scanning guard is always released.
    - A call of [previewImages] that finds the guard free returns, on every
      well-formed document and whatever the host calls during the scan; when
      it returns, [m_isPreviewing] and both request latches are false.
    - A re-entrant call, made while a scan holds the guard, changes nothing.
    - No event handled between scans (timer, content change, enable,
      disable, refresh, finished download) leaves the guard or a latch set.
    - Hence in every state reachable from the constructor the guard and both
      latches are false: a later scan is never blocked. *)
Theorem C9_scanning_guard_is_released :
  (∀ env hooks v,
     WellFormed (blocks (m_document v)) →
     ∃ v', previewImages env hooks v = Ok v')
  ∧ (∀ env hooks v v',
       m_isPreviewing v = false → previewImages env hooks v = Ok v' →
       m_isPreviewing v' = false ∧ m_requestCearBlocks v' = false
       ∧ m_requestRefreshBlocks v' = false)
  ∧ (∀ env hooks v,
       m_isPreviewing v = true → previewImages env hooks v = Ok v)
  ∧ (∀ env e v v',
       m_isPreviewing v = false → m_requestCearBlocks v = false →
       m_requestRefreshBlocks v = false → handle env e v = Ok v' →
       m_isPreviewing v' = false ∧ m_requestCearBlocks v' = false
       ∧ m_requestRefreshBlocks v' = false)
  ∧ (∀ v, Reachable v →
          m_isPreviewing v = false ∧ m_requestCearBlocks v = false
          ∧ m_requestRefreshBlocks v = false).
Proof.
  split; [intros; by apply previewImages_total|].
  split; [apply previewImages_released|].
  split; [intros; by apply previewImagesAt_guard|].
  split; [apply handle_released|].
  induction 1 as [d|env e v v' _ (H1 & H2 & H3) Hrun]; [done|].
  by apply (handle_released env e v).
Qed.

(** C10.  A block counts as a preview block exactly when it is valid and
    its text, trimmed, is one placeholder character.  So a placeholder with
    only whitespace around it is a preview block: the cleanup of corrupted
    lines does not touch it and the scan handles it by the orphan rule
    (kept when valid, removed otherwise); a block with two placeholders, or
    with a placeholder next to text that is not whitespace, is never a
    preview block. *)
Theorem C10_isImagePreviewBlock_is_trimmed_single_placeholder
  (v : VImagePreviewer) (block : QTextBlock) :
  (isImagePreviewBlock v block = true
   ↔ isValid (m_document v) block = true
     ∧ trimmed (text (m_document v) block) = [ObjectReplacementCharacter])
  ∧ (isValid (m_document v) block = true →
     SinglePlaceholder (text (m_document v) block) →
     isImagePreviewBlock v block = true)
  ∧ (isImagePreviewBlock v block = true →
     SinglePlaceholder (text (m_document v) block)
     ∧ ¬ Corrupted (text (m_document v) block)
     ∧ clearCorruptedImagePreviewBlock block v = Ok v
     ∧ ∀ env,
         scanStep env block v
         = if isValidImagePreviewBlock env v block
           then Ok (next block, v)
           else Ok (rebase (m_document v)
                      (m_document (removeBlock block v)) block (next block),
                    removeBlock block v))
  ∧ (∀ a b c,
       text (m_document v) block
       = a ++ [ObjectReplacementCharacter] ++ b
           ++ [ObjectReplacementCharacter] ++ c →
       isImagePreviewBlock v block = false)
  ∧ (∀ c, c ∈ text (m_document v) block →
          c ≠ ObjectReplacementCharacter → isSpace c = false →
          isImagePreviewBlock v block = false).
Proof.
  assert (Hiff : isImagePreviewBlock v block = true
                 ↔ isValid (m_document v) block = true
                   ∧ trimmed (text (m_document v) block)
                     = [ObjectReplacementCharacter]).
  { unfold isImagePreviewBlock.
    destruct (isValid (m_document v) block); cbn [negb].
    - rewrite qstring_eqb_true. split; [by intros ?|by intros [_ ?]].
    - split; [done|by intros [? _]]. }
  assert (Hsingle : isImagePreviewBlock v block = true →
                    SinglePlaceholder (text (m_document v) block)).
  { intros [_ H]%Hiff. by apply trimmed_placeholder. }
  split; [done|]. split; [|split; [|split]].
  - intros Hv Hs. apply Hiff. split; [done|]. by apply trimmed_placeholder.
  - intros Hp. split; [by apply Hsingle|].
    assert (¬ Corrupted (text (m_document v) block)) as Hnc
      by (by apply SinglePlaceholder_not_corrupted, Hsingle).
    split; [done|]. split; [by apply clearCorrupted_idle|].
    intros env. unfold scanStep. rewrite Hp.
    by destruct (isValidImagePreviewBlock env v block).
  - intros a b c Ht. apply not_true_is_false. intros Hp.
    apply Hsingle, SinglePlaceholder_count in Hp.
    pose proof (two_placeholders_count a b c) as H2.
    rewrite <- Ht in H2. lia.
  - intros c Hin Hne Hsp. apply not_true_is_false. intros Hp.
    pose proof (Hsingle Hp) as Hs.
    apply (SinglePlaceholder_not_corrupted _ Hs). split; [|by exists c].
    destruct Hs as (ws1 & ws2 & -> & _). apply elem_of_app. right. by left.
Qed.

(* ===================================================================== *)
(** ** Facts about whole documents, the cache and runs of events          *)
(* ===================================================================== *)

Module BehaviourFacts.
Import Behaviour PassFacts.

Lemma lookup_unique_middle {A} (c : A) (pre rest : list A) k :
  c ∉ pre → c ∉ rest → (pre ++ c :: rest) !! k = Some c → k = length pre.
Proof.
  intros Hpre Hrest Hk.
  destruct (decide (k < length pre)%nat) as [Hlt|Hge].
  - rewrite lookup_app_l in Hk by done.
    exfalso. apply Hpre. by eapply list_elem_of_lookup_2.
  - rewrite lookup_app_r in Hk by lia.
    destruct (k - length pre)%nat as [|m] eqn:E; [lia|].
    simpl in Hk. exfalso. apply Hrest. by eapply list_elem_of_lookup_2.
Qed.

Lemma Occurrence_bang line pos ref :
  Occurrence line pos ref → line !! pos = Some chBang.
Proof.
  intros (pre & alt & post & -> & <- & _).
  by rewrite lookup_app_r, Nat.sub_diag by lia.
Qed.

Lemma preview_block_has_no_key env v i :
  isImagePreviewBlock v i = true →
  fetchImagePathToPreview env (text (m_document v) i) = [].
Proof.
  rewrite isImagePreviewBlock_lookup.
  destruct (blocks (m_document v) !! i) as [b|] eqn:Hb; [|done].
  intros Hp. rewrite (text_Some _ _ _ Hb). by apply (pathOf_preview env).
Qed.

Lemma resolve_local env key v :
  key ≠ [] → m_imageCache v !! key = None → fileExists env key = true →
  isNull (loadImage env key) = false →
  imageCacheResourceName env key v
  = Ok (key,
        withImageCache (<[key := key]> (m_imageCache v))
          (withDocument (addResource key (loadImage env key) (m_document v))
             (noteImageLoad key v))).
Proof.
  intros Hk Hc Hf Hn. unfold imageCacheResourceName, V_ASSERT.
  apply isEmpty_false in Hk. rewrite Hk, Hc, Hf. cbn [negb mbind result_bind].
  by rewrite Hn.
Qed.

(** A key that resolves: the name returned is not empty and is the cache
    entry of the key afterwards. *)
Lemma resolve_resolvable env p v :
  p ≠ [] → resolvable env (m_imageCache v) p = true →
  ∃ name v1,
    imageCacheResourceName env p v = Ok (name, v1)
    ∧ name ≠ []
    ∧ m_imageCache v1 !! p = Some name
    ∧ sameContent (m_document v) (m_document v1)
    ∧ control v1 = control v.
Proof.
  intros Hp Hr. unfold resolvable in Hr.
  destruct (m_imageCache v !! p) as [name|] eqn:Hc.
  - exists name, v. rewrite (resolve_cached _ _ _ _ Hp Hc).
    split; [done|]. split; [by destruct name|]. done.
  - apply andb_true_iff in Hr as [Hf Hn]. apply negb_true_iff in Hn.
    eexists _, _. rewrite (resolve_local _ _ _ Hp Hc Hf Hn).
    split; [done|]. split; [done|]. split; [|done].
    cbn. by rewrite lookup_insert_eq.
Qed.

Lemma previewOne_over_preview env i v b nb :
  blocks (m_document v) !! i = Some b →
  blocks (m_document v) !! S i = Some nb →
  isPreviewData nb = true → pathOf env b ≠ [] →
  previewImageOfOneBlock env i v
  = v' ← updateImagePreviewBlock env (S i) (pathOf env b) v;
    Ok (rebase (m_document v) (m_document v') (S i) (S (S i)), v').
Proof.
  intros Hi Hn Hp Hk. unfold previewImageOfOneBlock.
  rewrite (isValid_Some _ _ _ Hi). cbn [negb].
  rewrite (text_Some _ _ _ Hi). fold (pathOf env b).
  apply isEmpty_false in Hk. rewrite Hk.
  unfold next. by rewrite isImagePreviewBlock_lookup, Hn, Hp.
Qed.

Lemma removeBlock_frame i v :
  ∃ d', removeBlock i v = withDocument d' v
        ∧ blocks d' = removedBlocks i (blocks (m_document v))
        ∧ isModified d' = isModified (m_document v)
        ∧ imageResources d' = imageResources (m_document v)
        ∧ (∀ n, editBlockDepth (m_document v) = S n →
                editBlockDepth d' = S n
                ∧ undoStack d' = undoStack (m_document v)).
Proof.
  unfold removeBlock. eexists. split; [done|].
  unfold removeBlockUnderCursor, removedBlocks.
  destruct (blocks (m_document v) !! i) as [[|c b]|]; simpl; [done| |done].
  destruct i; unfold recordEdit;
    destruct (editBlockDepth _) eqn:E; repeat split; try done;
    intros n Hn; (discriminate || by inversion Hn).
Qed.

Lemma cleanupDocument_undo i d n :
  editBlockDepth d = S n →
  editBlockDepth (cleanupDocument i d) = S n
  ∧ undoStack (cleanupDocument i d) = undoStack d.
Proof.
  intros Hn. unfold cleanupDocument.
  destruct (blocks d !! i) as [b|]; [|done].
  destruct (isCorrupted _); [|done].
  unfold cleanedDocument. by rewrite Hn.
Qed.

Lemma drop_delete_same {A} (l : list A) i : drop i (delete i l) = drop (S i) l.
Proof.
  revert i. induction l as [|x l IH]; intros [|i]; simpl; done.
Qed.

Lemma take_S_insert {A} (l : list A) i x :
  (i < length l)%nat → take (S i) (<[i := x]> l) = take i l ++ [x].
Proof.
  revert i. induction l as [|y l IH]; intros [|i] H; simpl in *; try lia.
  - by rewrite take_0.
  - f_equal. apply IH. lia.
Qed.

Lemma clearAllLoop_blocks fuel : ∀ i v,
  (1 ≤ i)%nat →
  (length (blocks (m_document v)) - i ≤ fuel)%nat →
  ∃ d',
    clearAllLoop fuel i v = Ok (withDocument d' v)
    ∧ blocks d'
      = take i (blocks (m_document v))
        ++ map cleanBlock
             (filter (λ b', isPreviewData b' = false)
                     (drop i (blocks (m_document v))))
    ∧ isModified d' = isModified (m_document v)
    ∧ imageResources d' = imageResources (m_document v)
    ∧ (∀ n, editBlockDepth (m_document v) = S n →
            editBlockDepth d' = S n
            ∧ undoStack d' = undoStack (m_document v)).
Proof.
  induction fuel as [|fuel IH]; intros i v Hi Hfuel.
  - exists (m_document v). cbn [clearAllLoop].
    rewrite (proj2 (isValid_false _ _)) by (apply lookup_ge_None; lia).
    rewrite withDocument_id. split; [done|].
    rewrite drop_ge, take_ge by lia. simpl. by rewrite app_nil_r.
  - cbn [clearAllLoop].
    destruct (blocks (m_document v) !! i) as [b|] eqn:Hb.
    2:{ exists (m_document v). rewrite (proj2 (isValid_false _ _) Hb).
        apply lookup_ge_None in Hb. rewrite withDocument_id. split; [done|].
        rewrite drop_ge, take_ge by lia. simpl. by rewrite app_nil_r. }
    assert (Hlen : (i < length (blocks (m_document v)))%nat)
      by (by eapply lookup_lt_Some).
    rewrite (isValid_Some _ _ _ Hb), isImagePreviewBlock_lookup, Hb.
    rewrite (drop_S _ _ _ Hb).
    destruct (isPreviewData b) eqn:Hp.
    + destruct (removeBlock_frame i v) as (d1 & -> & Hbl & Hm & Hr & Hu).
      rewrite (removedBlocks_preview _ _ _ Hb Hp) in Hbl.
      destruct i as [|k]; [lia|].
      cbn [m_document withDocument]. unfold rebase, next.
      rewrite bool_decide_eq_true_2 by lia. rewrite Hbl.
      rewrite length_delete by (by eexists).
      replace (S (S k) + _ - _)%nat with (S k) by lia.
      destruct (IH (S k) (withDocument d1 v)) as (d' & -> & Hbl' & Hm' & Hr' & Hu').
      * lia.
      * cbn [m_document withDocument].
        rewrite Hbl, length_delete by (by eexists). lia.
      * exists d'. split; [done|]. cbn [m_document withDocument] in *.
        rewrite Hbl, take_delete_same, drop_delete_same in Hbl'.
        rewrite filter_cons_False by congruence.
        split; [done|]. split; [congruence|]. split; [congruence|].
        intros n Hn. destruct (Hu n Hn) as [Hd1 Hu1].
        destruct (Hu' n Hd1) as [Hd2 Hu2]. split; congruence.
    + rewrite clearCorrupted_eq. cbn [mbind result_bind]. unfold next.
      set (v1 := withDocument (cleanupDocument i (m_document v)) v).
      assert (Hb1 : blocks (m_document v1)
                    = <[i := cleanBlock b]> (blocks (m_document v)))
        by (by apply cleanupDocument_blocks).
      destruct (IH (S i) v1) as (d' & -> & Hbl' & Hm' & Hr' & Hu').
      * lia.
      * rewrite Hb1, length_insert. lia.
      * exists d'. split; [done|].
        rewrite Hb1, take_S_insert, drop_insert_lt in Hbl' by lia.
        rewrite filter_cons_True by done. cbn [map].
        split; [by rewrite Hbl', <- app_assoc|].
        subst v1. cbn [m_document withDocument] in *.
        rewrite cleanupDocument_isModified in Hm'.
        rewrite cleanupDocument_resources in Hr'.
        split; [done|]. split; [done|].
        intros n Hn. destruct (cleanupDocument_undo i _ n Hn) as [Hd1 Hu1].
        destruct (Hu' n Hd1) as [Hd2 Hu2]. split; congruence.
Qed.

(** The whole loop, from the first block. *)
Lemma clearAllLoop_from_start v :
  ∃ d',
    clearAllLoop (length (blocks (m_document v))) O v = Ok (withDocument d' v)
    ∧ blocks d' = clearedBlocks (blocks (m_document v))
    ∧ isModified d' = isModified (m_document v)
    ∧ imageResources d' = imageResources (m_document v)
    ∧ (∀ n, editBlockDepth (m_document v) = S n →
            editBlockDepth d' = S n
            ∧ undoStack d' = undoStack (m_document v)).
Proof.
  destruct (blocks (m_document v)) as [|b rest] eqn:Hbs.
  - exists (m_document v). cbn [length clearAllLoop].
    rewrite (proj2 (isValid_false _ _)) by (by rewrite Hbs).
    by rewrite withDocument_id, Hbs.
  - assert (blocks (m_document v) !! O = Some b) as Hb by (by rewrite Hbs).
    cbn [length clearAllLoop].
    rewrite (isValid_Some _ _ _ Hb), isImagePreviewBlock_lookup, Hb.
    cbn [clearedBlocks].
    destruct (isPreviewData b) eqn:Hp.
    + destruct (removeBlock_frame O v) as (d1 & -> & Hbl & Hm & Hr & Hu).
      rewrite (removedBlocks_preview _ _ _ Hb Hp), Hbs in Hbl. cbn in Hbl.
      cbn [m_document withDocument]. unfold rebase, next.
      rewrite bool_decide_eq_true_2 by lia. rewrite Hbl, Hbs.
      cbn [length]. replace (1 + _ - _)%nat with 1%nat by lia.
      destruct (clearAllLoop_blocks (length rest) 1 (withDocument d1 v))
        as (d' & -> & Hbl' & Hm' & Hr' & Hu'); [lia| |].
      { cbn [m_document withDocument]. rewrite Hbl. simpl. lia. }
      exists d'. split; [done|]. cbn [m_document withDocument] in *.
      rewrite Hbl in Hbl'. cbn in Hbl'. rewrite drop_0 in Hbl'.
      split; [done|]. split; [congruence|]. split; [congruence|].
      intros n Hn. destruct (Hu n Hn) as [Hd1 Hu1].
      destruct (Hu' n Hd1) as [Hd2 Hu2]. split; congruence.
    + rewrite clearCorrupted_eq. cbn [mbind result_bind]. unfold next.
      set (v1 := withDocument (cleanupDocument O (m_document v)) v).
      assert (Hb1 : blocks (m_document v1) = cleanBlock b :: rest).
      { subst v1. cbn [m_document withDocument].
        by rewrite (cleanupDocument_blocks _ _ _ Hb), Hbs. }
      destruct (clearAllLoop_blocks (length rest) 1 v1)
        as (d' & -> & Hbl' & Hm' & Hr' & Hu'); [lia| |].
      { rewrite Hb1. simpl. lia. }
      exists d'. split; [done|].
      rewrite Hb1 in Hbl'. cbn in Hbl'. rewrite drop_0 in Hbl'.
      split; [done|].
      subst v1. cbn [m_document withDocument] in *.
      rewrite cleanupDocument_isModified in Hm'.
      rewrite cleanupDocument_resources in Hr'.
      split; [done|]. split; [done|].
      intros n Hn. destruct (cleanupDocument_undo O _ n Hn) as [Hd1 Hu1].
      destruct (Hu' n Hd1) as [Hd2 Hu2]. split; congruence.
Qed.

Lemma clearAll_effect v :
  m_isPreviewing v = false →
  ∃ d',
    clearAllImagePreviewBlocks v = Ok (emitStatusChanged (withDocument d' v))
    ∧ blocks d' = clearedBlocks (blocks (m_document v))
    ∧ isModified d' = isModified (m_document v)
    ∧ imageResources d' = imageResources (m_document v)
    ∧ (editBlockDepth (m_document v) = O →
       editBlockOps (m_document v) = [] →
       editBlockDepth d' = O ∧ editBlockOps d' = []
       ∧ (undoStack d' = undoStack (m_document v)
          ∨ ∃ ops, undoStack d' = ops :: undoStack (m_document v))).
Proof.
  intros Hprev. unfold clearAllImagePreviewBlocks, V_ASSERT. rewrite Hprev.
  cbn [negb mbind result_bind].
  set (v0 := withDocument (beginEditBlock (m_document v)) v).
  destruct (clearAllLoop_from_start v0) as (d1 & Hloop & Hbl & Hm & Hr & Hu).
  change (blocks (m_document v0)) with (blocks (m_document v)) in *.
  rewrite Hloop. cbn [mbind result_bind m_document withDocument].
  eexists. split; [reflexivity|]. cbn [blocks isModified imageResources setModified].
  rewrite endEditBlock_blocks, endEditBlock_resources.
  split; [done|]. split; [done|]. split; [done|].
  intros Hd Ho. cbn [editBlockDepth editBlockOps undoStack].
  destruct (Hu O) as [Hd1 Hu1]; [subst v0; cbn; by rewrite Hd|].
  subst v0. cbn [m_document withDocument beginEditBlock undoStack] in Hu1.
  unfold endEditBlock. rewrite Hd1. cbn.
  split; [done|]. split; [done|]. rewrite Hu1.
  destruct (editBlockOps d1); [by left|right; by eexists].
Qed.

Lemma clearedBlocks_clean bs :
  Forall (λ b, isPreviewData b = false ∧ isCorrupted (blockText b) = false)
         (clearedBlocks bs).
Proof.
  destruct bs as [|b rest]; [constructor|]. cbn [clearedBlocks].
  constructor.
  - destruct (isPreviewData b) eqn:Hp; [done|].
    split; [by apply cleanBlock_not_preview|apply cleanBlock_not_corrupted].
  - apply Forall_forall. intros x Hx.
    apply list_elem_of_fmap in Hx as (y & -> & Hy).
    apply list_elem_of_filter in Hy as [Hy _].
    split; [by apply cleanBlock_not_preview|apply cleanBlock_not_corrupted].
Qed.

Lemma clearedBlocks_fixed bs :
  Forall (λ b, isPreviewData b = false ∧ isCorrupted (blockText b) = false) bs →
  clearedBlocks bs = bs.
Proof.
  intros H. assert (∀ l,
    Forall (λ b, isPreviewData b = false ∧ isCorrupted (blockText b) = false) l →
    map cleanBlock (filter (λ b', isPreviewData b' = false) l) = l) as Hrest.
  { induction 1 as [|x l [Hx1 Hx2] _ IH]; [done|].
    rewrite filter_cons_True by done. cbn [map].
    by rewrite IH, cleanBlock_idle. }
  destruct H as [|b rest [Hb1 Hb2] Hrest']; [done|]. cbn [clearedBlocks].
  by rewrite Hb1, cleanBlock_idle, Hrest.
Qed.

Lemma clearedBlocks_length bs : (length (clearedBlocks bs) ≤ length bs)%nat.
Proof.
  destruct bs as [|b rest]; [done|]. cbn [clearedBlocks length].
  rewrite length_map. pose proof (length_filter (λ b', isPreviewData b' = false) rest).
  lia.
Qed.

(** The refresh latch survives every call made into a running scan. *)
Lemma deliver_refresh_latched env pi r v :
  (∀ w, m_isPreviewing w = true → pi w = Ok w) →
  m_isPreviewing v = true →
  ∃ v',
    deliver env pi r v = Ok v'
    ∧ m_isPreviewing v' = true
    ∧ (m_requestRefreshBlocks v = true → m_requestRefreshBlocks v' = true).
Proof.
  intros Hpi Hprev. destruct r; cbn [deliver].
  - eexists. split; [done|]. unfold enableImagePreview.
    by destruct (getEnablePreviewImages env).
  - rewrite disable_latched by done. by eexists.
  - unfold refresh. rewrite Hprev. by eexists.
  - unfold timerTimeoutWith.
    destruct (getEnablePreviewImages env); cbn [negb].
    + destruct (m_enablePreview v); cbn [negb]; [|by eexists].
      rewrite Hpi by done. by eexists.
    + destruct (m_enablePreview v); [|by eexists].
      rewrite disable_latched by done. by eexists.
  - eexists. split; [done|]. unfold handleContentChange.
    by destruct (_ && _).
  - eexists. split; [done|]. unfold imageDownloaded.
    destruct (negb _); [|done]. by destruct (m_imageCache v !! p_url).
Qed.

Lemma deliverAll_refresh_latched env pi rs : ∀ v,
  (∀ w, m_isPreviewing w = true → pi w = Ok w) →
  m_isPreviewing v = true →
  ∃ v',
    deliverAll env pi rs v = Ok v'
    ∧ m_isPreviewing v' = true
    ∧ (m_requestRefreshBlocks v = true → m_requestRefreshBlocks v' = true).
Proof.
  induction rs as [|r rs IH]; intros v Hpi Hprev; cbn [deliverAll].
  - by exists v.
  - destruct (deliver_refresh_latched env pi r v Hpi Hprev)
      as (v1 & -> & Hp1 & Hl1).
    cbn [mbind result_bind].
    destruct (IH v1 Hpi Hp1) as (v' & -> & Hp' & Hl').
    exists v'. split; [done|]. split; [done|]. auto.
Qed.

Lemma scanLoop_refresh_latched env pi fuel : ∀ hooks i v i' v',
  (∀ w, m_isPreviewing w = true → pi w = Ok w) →
  m_isPreviewing v = true →
  scanLoop env pi fuel hooks i v = Ok (i', v') →
  m_requestRefreshBlocks v = true → m_requestRefreshBlocks v' = true.
Proof.
  induction fuel as [|fuel IH]; intros hooks i v i' v' Hpi Hprev Hrun;
    cbn [scanLoop] in Hrun.
  - destruct (_ && _); [done|]. by injection Hrun as <- <-.
  - destruct (isValid (m_document v) i) eqn:Hv; cbn [andb] in Hrun.
    2:{ by injection Hrun as <- <-. }
    destruct (m_enablePreview v); [|by injection Hrun as <- <-].
    apply isValid_true in Hv as [b Hb].
    destruct (scanStep_spec env i v b Hb)
      as [[Hfail _]|(i1 & v1 & Hstep & Hctl & _)];
      rewrite ?Hfail, ?Hstep in Hrun; [done|].
    cbn [mbind result_bind] in Hrun. unfold control in Hctl.
    destruct (deliverAll_refresh_latched env pi (hd [] hooks) v1 Hpi)
      as (v2 & Hd & Hp2 & Hl2); [congruence|].
    rewrite Hd in Hrun. cbn [mbind result_bind] in Hrun.
    intros Hl. apply (IH _ _ _ _ _ Hpi Hp2 Hrun), Hl2. congruence.
Qed.

Lemma finishPreview_refresh v v' :
  m_requestRefreshBlocks v = true → finishPreview v = Ok v' →
  m_imageCache v' = ∅ ∧ m_timerActive v' = true
  ∧ ∀ j, isImagePreviewBlock v' j = false.
Proof.
  intros Hl. unfold finishPreview.
  set (v0 := withIsPreviewing false v).
  assert (∃ v1, (if m_requestCearBlocks v0
                 then clearAllImagePreviewBlocks (withRequestCearBlocks false v0)
                 else Ok v0) = Ok v1
           ∧ m_isPreviewing v1 = false
           ∧ m_requestRefreshBlocks v1 = true)
    as (v1 & -> & Hp1 & Hr1).
  { destruct (m_requestCearBlocks v0) eqn:Hc.
    - destruct (clearAll_spec (withRequestCearBlocks false v0) eq_refl)
        as (v1 & -> & Hctl & _).
      exists v1. unfold control in Hctl. simpl in Hctl.
      split; [done|]. split; congruence.
    - by exists v0. }
  cbn [mbind result_bind]. rewrite Hr1.
  destruct (refresh_spec (withRequestRefreshBlocks false v1) Hp1)
    as (v2 & -> & _ & Hc & Ht & Hno).
  cbn [mbind result_bind]. intros [= <-].
  split; [done|]. split; [done|]. intros j.
  specialize (Hno j). by rewrite isImagePreviewBlock_lookup in *.
Qed.

Lemma remove_char_idem c (t : QString) : remove c (remove c t) = remove c t.
Proof.
  unfold remove. induction t as [|d t IH]; [done|].
  destruct (decide (d ≠ c)) as [Hd|Hd].
  - rewrite !filter_cons_True by done. by rewrite IH.
  - by rewrite !filter_cons_False by done.
Qed.

Lemma userLine_strip b : userLine (stripPlaceholders b) = userLine b.
Proof. unfold userLine. by rewrite blockText_strip, remove_char_idem. Qed.

Lemma userLine_clean b : userLine (cleanBlock b) = userLine b.
Proof.
  unfold cleanBlock. destruct (isCorrupted _); [apply userLine_strip|done].
Qed.

Lemma userLine_nil : userLine [] = [].
Proof. reflexivity. Qed.

Lemma remove_spaces ws :
  Forall (λ c, isSpace c = true) ws →
  remove ObjectReplacementCharacter ws = ws.
Proof.
  unfold remove. induction 1 as [|c ws Hc _ IH]; [done|].
  rewrite filter_cons_True; [by rewrite IH|].
  intros ->. by rewrite isSpace_ORC in Hc.
Qed.

Lemma remove_char_app c (s t : QString) : remove c (s ++ t) = remove c s ++ remove c t.
Proof. unfold remove. apply filter_app. Qed.

Lemma userLine_preview b : isPreviewData b = true → userLine b = [].
Proof.
  intros (ws1 & ws2 & Ht & H1 & H2)%isPreviewData_true.
  unfold userLine. cbn zeta. rewrite Ht, !remove_char_app.
  rewrite (remove_spaces ws1), (remove_spaces ws2) by done.
  replace (remove ObjectReplacementCharacter [ObjectReplacementCharacter])
    with (@nil QChar)
    by (unfold remove; by rewrite filter_cons_False by (by intros H)).
  replace (forallb isSpace (ws1 ++ [] ++ ws2)) with true; [done|].
  symmetry. apply forallb_forall. intros c Hc.
  apply in_app_or in Hc as [Hc|Hc]; apply list_elem_of_In in Hc.
  - by apply (proj1 (Forall_forall _ _) H1).
  - by apply (proj1 (Forall_forall _ _) H2).
Qed.

Lemma userLine_retarget name p b : userLine (retargetBlock name p b) = userLine b.
Proof. unfold userLine. by rewrite retargetBlock_text. Qed.

Lemma userLine_previewBlock name p : userLine (previewBlock name p) = [].
Proof. apply userLine_preview, isPreviewData_previewBlock. Qed.

Lemma userContent_app l1 l2 :
  userContent (l1 ++ l2) = userContent l1 ++ userContent l2.
Proof. unfold userContent. by rewrite map_app, filter_app. Qed.

Lemma userContent_cons_blank b l : userLine b = [] → userContent (b :: l) = userContent l.
Proof.
  intros H. unfold userContent. cbn [map]. rewrite H.
  rewrite filter_cons_False; [done|]. intros Hne. by apply Hne.
Qed.

Lemma userContent_cons_same b b' l :
  userLine b' = userLine b → userContent (b' :: l) = userContent (b :: l).
Proof. intros H. unfold userContent. cbn [map]. by rewrite H. Qed.

Lemma userContent_insert bs i b b' :
  bs !! i = Some b → userLine b' = userLine b →
  userContent (<[i := b']> bs) = userContent bs.
Proof.
  intros Hi Hb. rewrite <- (take_drop_middle _ _ _ Hi) at 2.
  rewrite insert_take_drop by (by eapply lookup_lt_Some).
  rewrite !userContent_app. f_equal. by apply userContent_cons_same.
Qed.

Lemma userContent_delete bs i b :
  bs !! i = Some b → userLine b = [] →
  userContent (delete i bs) = userContent bs.
Proof.
  intros Hi Hb. rewrite <- (take_drop_middle _ _ _ Hi) at 2.
  rewrite delete_take_drop, !userContent_app. f_equal.
  by rewrite userContent_cons_blank.
Qed.

Lemma userContent_add bs k x :
  userLine x = [] → userContent (take k bs ++ x :: drop k bs) = userContent bs.
Proof.
  intros Hx. rewrite userContent_app, userContent_cons_blank by done.
  by rewrite <- userContent_app, take_drop.
Qed.

Lemma userContent_removed bs i b :
  bs !! i = Some b → isPreviewData b = true →
  userContent (removedBlocks i bs) = userContent bs.
Proof.
  intros Hi Hp. rewrite (removedBlocks_preview _ _ _ Hi Hp).
  destruct i.
  - apply (userContent_insert _ _ b); [done|].
    by rewrite userLine_nil, userLine_preview.
  - apply (userContent_delete _ _ b); [done|]. by apply userLine_preview.
Qed.

Lemma userContent_cleared bs : userContent (clearedBlocks bs) = userContent bs.
Proof.
  assert (∀ l, userContent (map cleanBlock
                 (filter (λ b', isPreviewData b' = false) l))
               = userContent l) as Hrest.
  { induction l as [|x l IH]; [done|].
    destruct (isPreviewData x) eqn:Hx.
    - rewrite filter_cons_False by congruence.
      by rewrite userContent_cons_blank by (by apply userLine_preview).
    - rewrite filter_cons_True by done. cbn [map].
      rewrite (userContent_cons_same x) by apply userLine_clean.
      change (userContent ([x] ++ map cleanBlock
                (filter (λ b', isPreviewData b' = false) l))
              = userContent ([x] ++ l)).
      by rewrite !userContent_app, IH. }
  destruct bs as [|b rest]; [done|]. cbn [clearedBlocks].
  change (?x :: ?l) with ([x] ++ l). rewrite !userContent_app, Hrest.
  f_equal. destruct (isPreviewData b) eqn:Hp.
  - rewrite !userContent_cons_blank; [done|by apply userLine_preview|done].
  - apply userContent_cons_same, userLine_clean.
Qed.

Lemma scanStep_userContent env i v b i' v' :
  blocks (m_document v) !! i = Some b →
  scanStep env i v = Ok (i', v') →
  userContent (blocks (m_document v')) = userContent (blocks (m_document v)).
Proof.
  intros Hb Hrun.
  assert (userContent (<[i := cleanBlock b]> (blocks (m_document v)))
          = userContent (blocks (m_document v))) as Hc
    by (apply (userContent_insert _ _ b); [done|apply userLine_clean]).
  destruct (scanStep_outcome env i v b i' v' Hb Hrun)
    as [(_ & -> & _)|[(Hp & -> & _)|[(_ & -> & _)|[(_ & nb & Hn & Hpn & -> & _)
       |[(_ & nb & name & Hn & Hpn & _ & -> & _)|(_ & name & _ & -> & _)]]]]].
  - done.
  - by apply (userContent_removed _ _ b).
  - done.
  - rewrite (userContent_delete _ _ nb); [done|done|by apply userLine_preview].
  - rewrite (userContent_insert _ _ nb); [done|done|apply userLine_retarget].
  - rewrite userContent_add; [done|apply userLine_previewBlock].
Qed.

Lemma scanLoop_userContent env pi fuel : ∀ hooks i v i' v',
  (∀ w, m_isPreviewing w = true → pi w = Ok w) →
  m_isPreviewing v = true →
  scanLoop env pi fuel hooks i v = Ok (i', v') →
  userContent (blocks (m_document v')) = userContent (blocks (m_document v)).
Proof.
  induction fuel as [|fuel IH]; intros hooks i v i' v' Hpi Hprev Hrun;
    cbn [scanLoop] in Hrun.
  - destruct (_ && _); [done|]. by injection Hrun as <- <-.
  - destruct (isValid (m_document v) i) eqn:Hv; cbn [andb] in Hrun.
    2:{ by injection Hrun as <- <-. }
    destruct (m_enablePreview v); [|by injection Hrun as <- <-].
    apply isValid_true in Hv as [b Hb].
    destruct (scanStep env i v) as [[i1 v1]| |] eqn:Hstep; [|done..].
    cbn [mbind result_bind] in Hrun.
    pose proof (scanStep_userContent env i v b i1 v1 Hb Hstep) as Hu1.
    destruct (scanStep_spec env i v b Hb)
      as [[Hfail _]|(i1' & v1' & Hstep' & Hctl & _)]; [congruence|].
    assert (v1' = v1) as -> by congruence. unfold control in Hctl.
    destruct (deliverAll_scanning env pi (hd [] hooks) v1 Hpi)
      as (v2 & Hd & Hp2 & Hb2 & _); [congruence|].
    rewrite Hd in Hrun. cbn [mbind result_bind] in Hrun.
    rewrite (IH _ _ _ _ _ Hpi Hp2 Hrun). by rewrite Hb2.
Qed.

Lemma clearAll_userContent v v' :
  clearAllImagePreviewBlocks v = Ok v' →
  userContent (blocks (m_document v')) = userContent (blocks (m_document v)).
Proof.
  intros Hrun. destruct (m_isPreviewing v) eqn:Hp.
  - unfold clearAllImagePreviewBlocks, V_ASSERT in Hrun. by rewrite Hp in Hrun.
  - destruct (clearAll_effect v Hp) as (d' & Hrun' & Hbl & _).
    assert (v' = emitStatusChanged (withDocument d' v)) as -> by congruence.
    cbn [m_document emitStatusChanged withDocument].
    rewrite Hbl. apply userContent_cleared.
Qed.

Lemma refresh_userContent v v' :
  refresh v = Ok v' →
  userContent (blocks (m_document v')) = userContent (blocks (m_document v)).
Proof.
  unfold refresh. destruct (m_isPreviewing v); [by intros [= <-]|].
  destruct (clearAllImagePreviewBlocks _) as [v1| |] eqn:Hc; [|done..].
  cbn [mbind result_bind]. intros [= <-].
  exact (clearAll_userContent _ _ Hc).
Qed.

Lemma disable_userContent v v' :
  disableImagePreview v = Ok v' →
  userContent (blocks (m_document v')) = userContent (blocks (m_document v)).
Proof.
  unfold disableImagePreview.
  destruct (m_isPreviewing (withEnablePreview false v)); [by intros [= <-]|].
  intros H. exact (clearAll_userContent _ _ H).
Qed.

Lemma finishPreview_userContent v v' :
  finishPreview v = Ok v' →
  userContent (blocks (m_document v')) = userContent (blocks (m_document v)).
Proof.
  unfold finishPreview. set (v0 := withIsPreviewing false v).
  destruct (if m_requestCearBlocks v0 then _ else _) as [v1| |] eqn:H1;
    [|done..].
  cbn [mbind result_bind].
  destruct (if m_requestRefreshBlocks v1 then _ else _) as [v2| |] eqn:H2;
    [|done..].
  cbn [mbind result_bind]. intros [= <-].
  cbn [m_document emitStatusChanged].
  assert (userContent (blocks (m_document v1))
          = userContent (blocks (m_document v))) as E1.
  { destruct (m_requestCearBlocks v0).
    - exact (clearAll_userContent _ _ H1).
    - by injection H1 as <-. }
  rewrite <- E1. destruct (m_requestRefreshBlocks v1).
  - exact (refresh_userContent _ _ H2).
  - by injection H2 as <-.
Qed.

Lemma previewImages_userContent env hooks v v' :
  previewImages env hooks v = Ok v' →
  userContent (blocks (m_document v')) = userContent (blocks (m_document v)).
Proof.
  intros Hrun. destruct (m_isPreviewing v) eqn:Hp.
  { unfold previewImages in Hrun.
    rewrite previewImagesAt_guard in Hrun by done. by injection Hrun as <-. }
  rewrite previewImages_unfold in Hrun by done.
  destruct (scanLoop _ _ _ _ _ _) as [[i1 v1]| |] eqn:Hloop; [|done..].
  cbn [mbind result_bind] in Hrun.
  rewrite (finishPreview_userContent _ _ Hrun).
  apply (scanLoop_userContent _ _ _ _ _ _ _ _) in Hloop; [done| |done].
  intros. by apply previewImagesAt_guard.
Qed.

Lemma handle_userContent env e v v' :
  handle env e v = Ok v' →
  userContent (blocks (m_document v')) = userContent (blocks (m_document v)).
Proof.
  destruct e; cbn [handle].
  - unfold timerTimeout, timerTimeoutWith.
    destruct (negb (getEnablePreviewImages env)).
    + destruct (m_enablePreview (timerStop v)).
      * intros H. exact (disable_userContent _ _ H).
      * by intros [= <-].
    + destruct (negb (m_enablePreview (timerStop v))); [by intros [= <-]|].
      intros H. exact (previewImages_userContent _ _ _ _ H).
  - intros [= <-]. unfold handleContentChange. by destruct (_ && _).
  - intros [= <-]. unfold enableImagePreview.
    by destruct (getEnablePreviewImages env).
  - apply disable_userContent.
  - apply refresh_userContent.
  - intros [= <-]. unfold imageDownloaded.
    destruct (negb _); [|done]. by destruct (m_imageCache v !! p_url).
Qed.

Lemma WellFormed_cleared bs : WellFormed (clearedBlocks bs).
Proof.
  unfold WellFormed. eapply Forall_impl; [apply clearedBlocks_clean|].
  intros b [Hp _] Hp'. congruence.
Qed.

Lemma clearAll_WellFormed v v' :
  clearAllImagePreviewBlocks v = Ok v' → WellFormed (blocks (m_document v')).
Proof.
  intros Hrun. destruct (m_isPreviewing v) eqn:Hp.
  - unfold clearAllImagePreviewBlocks, V_ASSERT in Hrun. by rewrite Hp in Hrun.
  - destruct (clearAll_effect v Hp) as (d' & Hrun' & Hbl & _).
    assert (v' = emitStatusChanged (withDocument d' v)) as -> by congruence.
    cbn [m_document emitStatusChanged withDocument].
    rewrite Hbl. apply WellFormed_cleared.
Qed.

Lemma refresh_WellFormed v v' :
  refresh v = Ok v' → WellFormed (blocks (m_document v)) →
  WellFormed (blocks (m_document v')).
Proof.
  unfold refresh. destruct (m_isPreviewing v); [by intros [= <-]|].
  destruct (clearAllImagePreviewBlocks _) as [v1| |] eqn:Hc; [|done..].
  cbn [mbind result_bind]. intros [= <-] _.
  exact (clearAll_WellFormed _ _ Hc).
Qed.

Lemma disable_WellFormed v v' :
  disableImagePreview v = Ok v' → WellFormed (blocks (m_document v)) →
  WellFormed (blocks (m_document v')).
Proof.
  unfold disableImagePreview.
  destruct (m_isPreviewing (withEnablePreview false v)); [by intros [= <-]|].
  intros H _. exact (clearAll_WellFormed _ _ H).
Qed.

Lemma scanLoop_WellFormed env pi fuel : ∀ hooks i v i' v',
  (∀ w, m_isPreviewing w = true → pi w = Ok w) →
  m_isPreviewing v = true →
  scanLoop env pi fuel hooks i v = Ok (i', v') →
  WellFormed (blocks (m_document v)) → WellFormed (blocks (m_document v')).
Proof.
  induction fuel as [|fuel IH]; intros hooks i v i' v' Hpi Hprev Hrun;
    cbn [scanLoop] in Hrun.
  - destruct (_ && _); [done|]. by injection Hrun as <- <-.
  - destruct (isValid (m_document v) i) eqn:Hv; cbn [andb] in Hrun.
    2:{ by injection Hrun as <- <-. }
    destruct (m_enablePreview v); [|by injection Hrun as <- <-].
    apply isValid_true in Hv as [b Hb].
    destruct (scanStep_spec env i v b Hb)
      as [[Hfail _]|(i1 & v1 & Hstep & Hctl & _ & _ & _ & Hwf)];
      rewrite ?Hfail, ?Hstep in Hrun; [done|].
    cbn [mbind result_bind] in Hrun. unfold control in Hctl.
    destruct (deliverAll_scanning env pi (hd [] hooks) v1 Hpi)
      as (v2 & Hd & Hp2 & Hb2 & _); [congruence|].
    rewrite Hd in Hrun. cbn [mbind result_bind] in Hrun.
    intros H. apply (IH _ _ _ _ _ Hpi Hp2 Hrun). rewrite Hb2. by apply Hwf.
Qed.

Lemma finishPreview_WellFormed v v' :
  finishPreview v = Ok v' → WellFormed (blocks (m_document v)) →
  WellFormed (blocks (m_document v')).
Proof.
  unfold finishPreview. set (v0 := withIsPreviewing false v).
  destruct (if m_requestCearBlocks v0 then _ else _) as [v1| |] eqn:H1;
    [|done..].
  cbn [mbind result_bind].
  destruct (if m_requestRefreshBlocks v1 then _ else _) as [v2| |] eqn:H2;
    [|done..].
  cbn [mbind result_bind]. intros [= <-] Hwf.
  cbn [m_document emitStatusChanged].
  assert (WellFormed (blocks (m_document v1))) as E1.
  { destruct (m_requestCearBlocks v0).
    - exact (clearAll_WellFormed _ _ H1).
    - by injection H1 as <-. }
  destruct (m_requestRefreshBlocks v1).
  - exact (refresh_WellFormed _ _ H2 E1).
  - by injection H2 as <-.
Qed.

Lemma previewImages_WellFormed env hooks v v' :
  previewImages env hooks v = Ok v' → WellFormed (blocks (m_document v)) →
  WellFormed (blocks (m_document v')).
Proof.
  intros Hrun Hwf. destruct (m_isPreviewing v) eqn:Hp.
  { unfold previewImages in Hrun.
    rewrite previewImagesAt_guard in Hrun by done. by injection Hrun as <-. }
  rewrite previewImages_unfold in Hrun by done.
  destruct (scanLoop _ _ _ _ _ _) as [[i1 v1]| |] eqn:Hloop; [|done..].
  cbn [mbind result_bind] in Hrun.
  apply (finishPreview_WellFormed _ _ Hrun).
  apply (scanLoop_WellFormed _ _ _ _ _ _ _ _) in Hloop; [done| |done|done].
  intros. by apply previewImagesAt_guard.
Qed.

Lemma handle_WellFormed env e v v' :
  handle env e v = Ok v' → WellFormed (blocks (m_document v)) →
  WellFormed (blocks (m_document v')).
Proof.
  destruct e; cbn [handle].
  - unfold timerTimeout, timerTimeoutWith.
    destruct (negb (getEnablePreviewImages env)).
    + destruct (m_enablePreview (timerStop v)).
      * intros H. exact (disable_WellFormed _ _ H).
      * by intros [= <-].
    + destruct (negb (m_enablePreview (timerStop v))); [by intros [= <-]|].
      intros H. exact (previewImages_WellFormed _ _ _ _ H).
  - intros [= <-]. unfold handleContentChange. by destruct (_ && _).
  - intros [= <-]. unfold enableImagePreview.
    by destruct (getEnablePreviewImages env).
  - apply disable_WellFormed.
  - apply refresh_WellFormed.
  - intros [= <-]. unfold imageDownloaded.
    destruct (negb _); [|done]. by destruct (m_imageCache v !! p_url).
Qed.

Lemma handle_idle_WellFormed env e v :
  WellFormed (blocks (m_document v)) → Idle v →
  ∃ v', handle env e v = Ok v'
        ∧ WellFormed (blocks (m_document v')) ∧ Idle v'.
Proof.
  intros Hwf (Hp & Hc & Hr).
  destruct (handle_total env e v Hp Hwf) as (v1 & H1).
  exists v1. split; [done|].
  split; [by apply (handle_WellFormed env e v v1)|].
  by apply (handle_released env e v v1).
Qed.

Lemma userEdit_idle_WellFormed bs r a v :
  WellFormed bs → Idle v →
  WellFormed (blocks (m_document (userEdit bs r a v)))
  ∧ Idle (userEdit bs r a v).
Proof.
  intros Hwf Hidle. unfold userEdit, handleContentChange.
  by destruct (_ && _).
Qed.

Lemma runInputs_idle_WellFormed ins : ∀ v,
  WellFormed (blocks (m_document v)) → Idle v →
  Forall keepsWellFormed ins →
  ∃ v', runInputs ins v = Ok v'
        ∧ WellFormed (blocks (m_document v')) ∧ Idle v'.
Proof.
  induction ins as [|x ins IH]; intros v Hwf Hidle Hall; cbn [runInputs].
  - by exists v.
  - inversion Hall as [|? ? Hx Hrest]; subst. destruct x as [env e|bs r a].
    + destruct (handle_idle_WellFormed env e v Hwf Hidle)
        as (v1 & -> & Hwf1 & Hidle1).
      cbn [mbind result_bind]. by apply IH.
    + destruct (userEdit_idle_WellFormed bs r a v Hx Hidle) as [Hwf1 Hidle1].
      by apply IH.
Qed.

Lemma scanStep_bare_placeholder env i v b nb :
  blocks (m_document v) !! i = Some b →
  isPreviewData b = false → isCorrupted (blockText b) = false →
  pathOf env b ≠ [] →
  blocks (m_document v) !! S i = Some nb →
  isPreviewData nb = true → formatOf nb = None →
  scanStep env i v = AssertFailed.
Proof.
  intros Hb Hp Hc Hk Hn Hpn Hf. unfold scanStep.
  rewrite isImagePreviewBlock_lookup, Hb, Hp.
  rewrite clearCorrupted_eq, (cleanupDocument_idle _ _ _ Hb Hc).
  rewrite withDocument_id. cbn [mbind result_bind].
  unfold previewImageOfOneBlock.
  rewrite (isValid_Some _ _ _ Hb). cbn [negb].
  rewrite (text_Some _ _ _ Hb). fold (pathOf env b).
  apply isEmpty_false in Hk. rewrite Hk.
  unfold next. rewrite isImagePreviewBlock_lookup, Hn, Hpn.
  by rewrite (update_failure env _ _ _ _ Hn Hf).
Qed.

Lemma insertBlock_resources c d :
  imageResources (insertBlock c d).1 = imageResources d.
Proof.
  unfold insertBlock. destruct (blocks d !! c.1); [|done].
  apply recordEdit_resources.
Qed.

Lemma insertImage_resources f c d :
  imageResources (insertImage f c d).1 = imageResources d.
Proof.
  unfold insertImage. destruct (blocks d !! c.1); [|done].
  apply recordEdit_resources.
Qed.

Lemma setCharFormat_resources b off f d :
  imageResources (setCharFormat b off f d) = imageResources d.
Proof.
  unfold setCharFormat. destruct (blocks d !! b) as [data|]; [|done].
  destruct (data !! off); [|done]. apply recordEdit_resources.
Qed.

(** ** Invariants of the cache and the image resources

    The cache and the resources of the document change in one way only while
    blocks are scanned: a key that is not cached yet is entered under its own
    name together with a decoded image.  A property of the two maps that
    survives such an entry survives every pass of a scan. *)

Section CacheInvariant.

Variable P : gmap QString QString → gmap QString QImage → Prop.

Hypothesis P_add : ∀ cache res key image,
  cache !! key = None → isNull image = false →
  P cache res → P (<[key := key]> cache) (<[key := image]> res).

Lemma resolve_inv env p v name v' :
  imageCacheResourceName env p v = Ok (name, v') →
  P (m_imageCache v) (imageResources (m_document v)) →
  P (m_imageCache v') (imageResources (m_document v')).
Proof using P_add.
  unfold imageCacheResourceName, V_ASSERT.
  destruct (negb (isEmpty p)); [|done]. cbn [mbind result_bind].
  destruct (m_imageCache v !! p) as [n|] eqn:Hc; [by intros [= <- <-]|].
  destruct (fileExists env p).
  - destruct (isNull (loadImage env p)) eqn:Hn; intros [= <- <-] Hcb; [done|].
    by apply P_add.
  - cbn [isNull]. by intros [= <- <-].
Qed.

Lemma imageDownloaded_inv env data url v :
  P (m_imageCache v) (imageResources (m_document v)) →
  P (m_imageCache (imageDownloaded env data url v))
    (imageResources (m_document (imageDownloaded env data url v))).
Proof using P_add.
  intros Hcb. unfold imageDownloaded.
  destruct (isNull (imageFromData env data)) eqn:Hn; cbn [negb]; [done|].
  destruct (m_imageCache v !! url) eqn:Hc; [done|].
  by apply P_add.
Qed.

Lemma removeBlock_inv i v :
  P (m_imageCache v) (imageResources (m_document v)) →
  P (m_imageCache (removeBlock i v))
    (imageResources (m_document (removeBlock i v))).
Proof.
  destruct (removeBlock_eq i v) as (d' & -> & _ & _ & Hr).
  cbn [m_imageCache m_document withDocument]. by rewrite Hr.
Qed.

Lemma clearCorrupted_inv i v v' :
  clearCorruptedImagePreviewBlock i v = Ok v' →
  P (m_imageCache v) (imageResources (m_document v)) →
  P (m_imageCache v') (imageResources (m_document v')).
Proof.
  rewrite clearCorrupted_eq. intros [= <-].
  cbn [m_imageCache m_document withDocument].
  by rewrite cleanupDocument_resources.
Qed.

Lemma insert_inv env i p v j v' :
  insertImagePreviewBlock env i p v = Ok (j, v') →
  P (m_imageCache v) (imageResources (m_document v)) →
  P (m_imageCache v') (imageResources (m_document v')).
Proof using P_add.
  unfold insertImagePreviewBlock.
  destruct (imageCacheResourceName env p v) as [[name v1]| |] eqn:Hres;
    [|done..].
  cbn [mbind result_bind]. intros Hrun Hcb.
  apply (resolve_inv _ _ _ _ _ Hres) in Hcb.
  destruct (isEmpty name); [by injection Hrun as <- <-|].
  destruct (insertBlock _ _) as [d1 c1] eqn:H1.
  destruct (insertImage _ _ _) as [d2 c2] eqn:H2.
  destruct (V_ASSERT _); cbn [mbind result_bind] in Hrun; [|done..].
  injection Hrun as <- <-.
  cbn [m_imageCache m_document withDocument setModified imageResources].
  rewrite endEditBlock_resources.
  change d2 with (d2, c2).1. rewrite <- H2, insertImage_resources.
  change d1 with (d1, c1).1. by rewrite <- H1, insertBlock_resources.
Qed.

Lemma update_inv env i p v v' :
  updateImagePreviewBlock env i p v = Ok v' →
  P (m_imageCache v) (imageResources (m_document v)) →
  P (m_imageCache v') (imageResources (m_document v')).
Proof using P_add.
  unfold updateImagePreviewBlock.
  destruct (V_ASSERT _); [|done..]. cbn [mbind result_bind].
  destruct (qstring_eqb _ _); [by intros [= <-]|].
  destruct (imageCacheResourceName env p v) as [[name v1]| |] eqn:Hres;
    [|done..].
  cbn [mbind result_bind]. intros Hrun Hcb.
  apply (resolve_inv _ _ _ _ _ Hres) in Hcb.
  destruct (isEmpty name).
  - injection Hrun as <-. by apply removeBlock_inv.
  - unfold updateFormatInPreviewBlock, V_ASSERT in Hrun.
    destruct (0 <=? _); cbn [mbind result_bind] in Hrun; [|done].
    destruct (bool_decide _); cbn [mbind result_bind] in Hrun; [|done].
    injection Hrun as <-. cbn [m_imageCache m_document withDocument].
    by rewrite setCharFormat_resources.
Qed.

Lemma previewOne_inv env i v i' v' :
  previewImageOfOneBlock env i v = Ok (i', v') →
  P (m_imageCache v) (imageResources (m_document v)) →
  P (m_imageCache v') (imageResources (m_document v')).
Proof using P_add.
  unfold previewImageOfOneBlock.
  destruct (negb (isValid _ _)); [by intros [= <- <-]|].
  destruct (isEmpty _); [by intros [= <- <-]|].
  destruct (isImagePreviewBlock _ _).
  - destruct (updateImagePreviewBlock _ _ _ _) as [v1| |] eqn:Hu; [|done..].
    cbn [mbind result_bind]. intros [= <- <-].
    by apply (update_inv _ _ _ _ _ Hu).
  - destruct (insertImagePreviewBlock _ _ _ _) as [[j v1]| |] eqn:Hi; [|done..].
    cbn [mbind result_bind]. intros [= <- <-].
    by apply (insert_inv _ _ _ _ _ _ Hi).
Qed.

Lemma scanStep_inv env i v i' v' :
  scanStep env i v = Ok (i', v') →
  P (m_imageCache v) (imageResources (m_document v)) →
  P (m_imageCache v') (imageResources (m_document v')).
Proof using P_add.
  unfold scanStep. destruct (isImagePreviewBlock v i).
  - destruct (negb _); intros [= <- <-]; [|done].
    apply removeBlock_inv.
  - destruct (clearCorruptedImagePreviewBlock i v) as [v1| |] eqn:Hc; [|done..].
    cbn [mbind result_bind]. intros Hrun Hcb.
    apply (previewOne_inv _ _ _ _ _ Hrun).
    by apply (clearCorrupted_inv _ _ _ Hc).
Qed.

(** With only benign calls of the host the whole loop keeps it. *)
Lemma scanLoop_quiet_inv env pi fuel : ∀ hooks i v i' v',
  (∀ w, m_isPreviewing w = true → pi w = Ok w) →
  Quiet env hooks →
  m_isPreviewing v = true → m_enablePreview v = true →
  scanLoop env pi fuel hooks i v = Ok (i', v') →
  P (m_imageCache v) (imageResources (m_document v)) →
  P (m_imageCache v') (imageResources (m_document v')).
Proof using P_add.
  induction fuel as [|fuel IH]; intros hooks i v i' v' Hpi Hq Hprev Hen Hrun;
    cbn [scanLoop] in Hrun.
  - destruct (_ && _); [done|]. by injection Hrun as <- <-.
  - destruct (isValid (m_document v) i) eqn:Hv; cbn [andb] in Hrun.
    2:{ by injection Hrun as <- <-. }
    rewrite Hen in Hrun.
    apply isValid_true in Hv as [b Hb].
    destruct (scanStep_spec env i v b Hb)
      as [[Hfail _]|(i1 & v1 & Hstep & Hctl & _)];
      rewrite ?Hfail, ?Hstep in Hrun; [done|].
    cbn [mbind result_bind] in Hrun. unfold control in Hctl.
    assert (Hp1 : m_isPreviewing v1 = true) by congruence.
    assert (He1 : m_enablePreview v1 = true) by congruence.
    destruct (deliverAll_benign env pi (hd [] hooks) v1 Hpi
                (Quiet_hd _ _ Hq) Hp1 He1)
      as (v2 & Hd & Hdoc & Hcache & Hctl2).
    rewrite Hd in Hrun. cbn [mbind result_bind] in Hrun.
    unfold control in Hctl2.
    intros Hcb. apply (IH _ _ _ _ _ Hpi (Quiet_tl _ _ Hq)) in Hrun;
      [done|congruence|congruence|].
    rewrite Hdoc, Hcache. by apply (scanStep_inv _ _ _ _ _ Hstep).
Qed.

Lemma previewImages_quiet_inv env hooks v v' :
  Quiet env hooks →
  m_isPreviewing v = false → m_enablePreview v = true →
  m_requestCearBlocks v = false → m_requestRefreshBlocks v = false →
  previewImages env hooks v = Ok v' →
  P (m_imageCache v) (imageResources (m_document v)) →
  P (m_imageCache v') (imageResources (m_document v')).
Proof using P_add.
  intros Hq Hprev Hen Hc Hr Hrun Hcb.
  rewrite previewImages_unfold in Hrun by done.
  assert (Hpi : ∀ w, m_isPreviewing w = true →
                     previewImagesAt 0 env [] w = Ok w)
    by (intros; by apply previewImagesAt_guard).
  destruct (scanLoop_spec env _ (length (blocks (m_document v))) hooks O
              (withIsPreviewing true v) Hpi Hq)
    as [[Hfail _]|(i1 & v1 & Hloop & Hctl & _)];
    [cbn; lia|done|done| |].
  { by rewrite Hfail in Hrun. }
  rewrite Hloop in Hrun. cbn [mbind result_bind] in Hrun.
  unfold control in Hctl. cbn in Hctl.
  rewrite finishPreview_quiet in Hrun by congruence.
  injection Hrun as <-.
  by apply (scanLoop_quiet_inv _ _ _ _ _ _ _ _ Hpi Hq) in Hloop.
Qed.

(** Across events the cache is also emptied by [refresh]. *)
Hypothesis P_clear : ∀ cache res, P cache res → P ∅ res.

Lemma clearAll_inv v v' :
  clearAllImagePreviewBlocks v = Ok v' →
  P (m_imageCache v) (imageResources (m_document v)) →
  P (m_imageCache v') (imageResources (m_document v')).
Proof.
  intros Hrun. destruct (m_isPreviewing v) eqn:Hp.
  - unfold clearAllImagePreviewBlocks, V_ASSERT in Hrun. by rewrite Hp in Hrun.
  - destruct (clearAll_effect v Hp) as (d' & Hrun' & _ & _ & Hr & _).
    assert (v' = emitStatusChanged (withDocument d' v)) as -> by congruence.
    cbn [m_imageCache m_document withDocument emitStatusChanged].
    by rewrite Hr.
Qed.

Lemma refresh_inv v v' :
  refresh v = Ok v' →
  P (m_imageCache v) (imageResources (m_document v)) →
  P (m_imageCache v') (imageResources (m_document v')).
Proof using P_clear.
  unfold refresh. destruct (m_isPreviewing v) eqn:Hp; [by intros [= <-]|].
  destruct (clearAllImagePreviewBlocks _) as [v1| |] eqn:Hc; [|done..].
  cbn [mbind result_bind]. intros [= <-] Hcb.
  apply (clearAll_inv _ _ Hc). cbn. by apply (P_clear (m_imageCache v)).
Qed.

Lemma disable_inv v v' :
  disableImagePreview v = Ok v' →
  P (m_imageCache v) (imageResources (m_document v)) →
  P (m_imageCache v') (imageResources (m_document v')).
Proof.
  unfold disableImagePreview.
  destruct (m_isPreviewing (withEnablePreview false v)); [by intros [= <-]|].
  intros H. exact (clearAll_inv _ _ H).
Qed.

Lemma deliver_inv env pi r v v' :
  (∀ w, m_isPreviewing w = true → pi w = Ok w) →
  m_isPreviewing v = true →
  deliver env pi r v = Ok v' →
  P (m_imageCache v) (imageResources (m_document v)) →
  P (m_imageCache v') (imageResources (m_document v')).
Proof using P_add P_clear.
  intros Hpi Hprev. destruct r; cbn [deliver].
  - intros [= <-]. unfold enableImagePreview.
    by destruct (getEnablePreviewImages env).
  - apply disable_inv.
  - apply refresh_inv.
  - unfold timerTimeoutWith.
    destruct (negb (getEnablePreviewImages env)).
    + destruct (m_enablePreview v); [apply disable_inv|by intros [= <-]].
    + destruct (negb (m_enablePreview v)); [by intros [= <-]|].
      rewrite Hpi by done. by intros [= <-].
  - intros [= <-]. unfold handleContentChange. by destruct (_ && _).
  - intros [= <-]. apply imageDownloaded_inv.
Qed.

Lemma deliverAll_inv env pi rs : ∀ v v',
  (∀ w, m_isPreviewing w = true → pi w = Ok w) →
  m_isPreviewing v = true →
  deliverAll env pi rs v = Ok v' →
  P (m_imageCache v) (imageResources (m_document v)) →
  P (m_imageCache v') (imageResources (m_document v')).
Proof using P_add P_clear.
  induction rs as [|r rs IH]; intros v v' Hpi Hprev; cbn [deliverAll].
  - by intros [= <-].
  - destruct (deliver_scanning env pi r v Hpi Hprev) as (v1 & Hd & Hp1 & _).
    rewrite Hd. cbn [mbind result_bind]. intros Hrun Hcb.
    apply (IH _ _ Hpi Hp1 Hrun). by apply (deliver_inv _ _ _ _ _ Hpi Hprev Hd).
Qed.

Lemma scanLoop_inv env pi fuel : ∀ hooks i v i' v',
  (∀ w, m_isPreviewing w = true → pi w = Ok w) →
  m_isPreviewing v = true →
  scanLoop env pi fuel hooks i v = Ok (i', v') →
  P (m_imageCache v) (imageResources (m_document v)) →
  P (m_imageCache v') (imageResources (m_document v')).
Proof using P_add P_clear.
  induction fuel as [|fuel IH]; intros hooks i v i' v' Hpi Hprev Hrun;
    cbn [scanLoop] in Hrun.
  - destruct (_ && _); [done|]. by injection Hrun as <- <-.
  - destruct (isValid (m_document v) i) eqn:Hv; cbn [andb] in Hrun.
    2:{ by injection Hrun as <- <-. }
    destruct (m_enablePreview v); [|by injection Hrun as <- <-].
    apply isValid_true in Hv as [b Hb].
    destruct (scanStep_spec env i v b Hb)
      as [[Hfail _]|(i1 & v1 & Hstep & Hctl & _)];
      rewrite ?Hfail, ?Hstep in Hrun; [done|].
    cbn [mbind result_bind] in Hrun. unfold control in Hctl.
    assert (Hp1 : m_isPreviewing v1 = true) by congruence.
    destruct (deliverAll_scanning env pi (hd [] hooks) v1 Hpi Hp1)
      as (v2 & Hd & Hp2 & _).
    rewrite Hd in Hrun. cbn [mbind result_bind] in Hrun.
    intros Hcb. apply (IH _ _ _ _ _ Hpi Hp2 Hrun).
    apply (deliverAll_inv _ _ _ _ _ Hpi Hp1 Hd).
    by apply (scanStep_inv _ _ _ _ _ Hstep).
Qed.

Lemma finishPreview_inv v v' :
  finishPreview v = Ok v' →
  P (m_imageCache v) (imageResources (m_document v)) →
  P (m_imageCache v') (imageResources (m_document v')).
Proof using P_clear.
  unfold finishPreview. set (v0 := withIsPreviewing false v).
  destruct (if m_requestCearBlocks v0 then _ else _) as [v1| |] eqn:H1;
    [|done..].
  cbn [mbind result_bind].
  destruct (if m_requestRefreshBlocks v1 then _ else _) as [v2| |] eqn:H2;
    [|done..].
  cbn [mbind result_bind]. intros [= <-] Hcb.
  cbn [m_imageCache m_document emitStatusChanged].
  assert (P (m_imageCache v1) (imageResources (m_document v1))) as E1.
  { destruct (m_requestCearBlocks v0).
    - by apply (clearAll_inv _ _ H1).
    - by injection H1 as <-. }
  destruct (m_requestRefreshBlocks v1).
  - by apply (refresh_inv _ _ H2).
  - by injection H2 as <-.
Qed.

Lemma previewImages_inv env hooks v v' :
  previewImages env hooks v = Ok v' →
  P (m_imageCache v) (imageResources (m_document v)) →
  P (m_imageCache v') (imageResources (m_document v')).
Proof using P_add P_clear.
  intros Hrun Hcb. destruct (m_isPreviewing v) eqn:Hp.
  { unfold previewImages in Hrun.
    rewrite previewImagesAt_guard in Hrun by done. by injection Hrun as <-. }
  rewrite previewImages_unfold in Hrun by done.
  destruct (scanLoop _ _ _ _ _ _) as [[i1 v1]| |] eqn:Hloop; [|done..].
  cbn [mbind result_bind] in Hrun.
  apply (finishPreview_inv _ _ Hrun).
  apply (scanLoop_inv _ _ _ _ _ _ _ _) in Hloop; [done| |done|done].
  intros. by apply previewImagesAt_guard.
Qed.

Lemma handle_inv env e v v' :
  handle env e v = Ok v' →
  P (m_imageCache v) (imageResources (m_document v)) →
  P (m_imageCache v') (imageResources (m_document v')).
Proof using P_add P_clear.
  destruct e; cbn [handle].
  - unfold timerTimeout, timerTimeoutWith.
    destruct (negb (getEnablePreviewImages env)).
    + destruct (m_enablePreview (timerStop v)).
      * intros H. exact (disable_inv _ _ H).
      * by intros [= <-].
    + destruct (negb (m_enablePreview (timerStop v))); [by intros [= <-]|].
      intros H. exact (previewImages_inv _ _ _ _ H).
  - intros [= <-]. unfold handleContentChange. by destruct (_ && _).
  - intros [= <-]. unfold enableImagePreview.
    by destruct (getEnablePreviewImages env).
  - apply disable_inv.
  - apply refresh_inv.
  - intros [= <-]. apply imageDownloaded_inv.
Qed.

End CacheInvariant.

Lemma backed_add (cache : gmap QString QString) (res : gmap QString QImage)
  key image :
  cache !! key = None → isNull image = false →
  (∀ k n, cache !! k = Some n →
          n = k ∧ ∃ img, res !! n = Some img ∧ isNull img = false) →
  ∀ k n, <[key := key]> cache !! k = Some n →
         n = k ∧ ∃ img, <[key := image]> res !! n = Some img
                        ∧ isNull img = false.
Proof.
  intros _ Hn Hcb k n. destruct (decide (key = k)) as [->|Hne].
  - rewrite lookup_insert_eq. intros [= <-]. split; [done|].
    exists image. by rewrite lookup_insert_eq.
  - rewrite lookup_insert_ne by done. intros Hk.
    destruct (Hcb k n Hk) as (-> & img & Hr & Hi). split; [done|].
    exists img. by rewrite lookup_insert_ne.
Qed.

Lemma resolveRepeatedly_cached env key n : ∀ v name,
  key ≠ [] → m_imageCache v !! key = Some name →
  resolveRepeatedly env key n v = Ok (replicate n name, v).
Proof.
  induction n as [|n IH]; intros v name Hk Hc; cbn [resolveRepeatedly replicate].
  - done.
  - rewrite (resolve_cached _ _ _ _ Hk Hc). cbn [mbind result_bind].
    by rewrite (IH _ _ Hk Hc).
Qed.

Lemma iter_download key n v :
  m_document (Nat.iter n (download key) v) = m_document v
  ∧ m_imageCache (Nat.iter n (download key) v) = m_imageCache v
  ∧ imageLoads (Nat.iter n (download key) v) = imageLoads v
  ∧ downloadRequests (Nat.iter n (download key) v)
    = replicate n key ++ downloadRequests v.
Proof.
  induction n as [|n (H1 & H2 & H3 & H4)]; [done|]. simpl.
  by rewrite H1, H2, H3, H4.
Qed.

Lemma resolveRepeatedly_remote env key n : ∀ v,
  key ≠ [] → m_imageCache v !! key = None → fileExists env key = false →
  resolveRepeatedly env key n v
  = Ok (replicate n [], Nat.iter n (download key) v).
Proof.
  induction n as [|n IH]; intros v Hk Hc Hf; cbn [resolveRepeatedly replicate].
  - done.
  - rewrite (resolve_remote _ _ _ Hk Hc Hf). cbn [mbind result_bind].
    rewrite (IH (download key v)) by done. cbn [mbind result_bind].
    by rewrite Nat.iter_succ_r.
Qed.

(** ** The size of the document across a scan *)

Lemma scanStep_potential env i v b i' v' :
  blocks (m_document v) !! i = Some b →
  scanStep env i v = Ok (i', v') →
  (2 * length (blocks (m_document v')) + i
   ≤ 2 * length (blocks (m_document v)) + i')%nat
  ∧ (i' ≤ length (blocks (m_document v')))%nat.
Proof.
  intros Hb Hrun.
  assert (Hlen : (i < length (blocks (m_document v)))%nat)
    by (by eapply lookup_lt_Some).
  destruct (scanStep_outcome env i v b i' v' Hb Hrun)
    as [(_ & -> & ->)|[(Hp & -> & ->)|[(_ & -> & Hi')
       |[(_ & nb & Hn & Hpn & -> & ->)
       |[(_ & nb & name & Hn & Hpn & _ & -> & ->)|(_ & name & _ & -> & ->)]]]]].
  - lia.
  - rewrite (removedBlocks_preview _ _ _ Hb Hp).
    destruct i; [rewrite length_insert|rewrite length_delete by (by eexists)];
      lia.
  - rewrite length_insert. destruct Hi' as [->|[-> ?]]; lia.
  - apply lookup_lt_Some in Hn as Hl. rewrite length_insert in Hl.
    rewrite length_delete by (by eexists). rewrite length_insert. lia.
  - apply lookup_lt_Some in Hn as Hl. rewrite !length_insert in *. lia.
  - rewrite length_app, length_take. cbn [length]. rewrite length_drop.
    rewrite length_insert. lia.
Qed.

Lemma scanLoop_potential env pi fuel : ∀ hooks i v i' v',
  (∀ w, m_isPreviewing w = true → pi w = Ok w) →
  m_isPreviewing v = true →
  (i ≤ length (blocks (m_document v)))%nat →
  scanLoop env pi fuel hooks i v = Ok (i', v') →
  (2 * length (blocks (m_document v')) + i
   ≤ 2 * length (blocks (m_document v)) + i')%nat
  ∧ (i' ≤ length (blocks (m_document v')))%nat.
Proof.
  induction fuel as [|fuel IH]; intros hooks i v i' v' Hpi Hprev Hi Hrun;
    cbn [scanLoop] in Hrun.
  - destruct (_ && _); [done|]. injection Hrun as <- <-. lia.
  - destruct (isValid (m_document v) i) eqn:Hv; cbn [andb] in Hrun.
    2:{ injection Hrun as <- <-. lia. }
    destruct (m_enablePreview v); [|injection Hrun as <- <-; lia].
    apply isValid_true in Hv as [b Hb].
    destruct (scanStep env i v) as [[i1 v1]| |] eqn:Hstep; [|done..].
    cbn [mbind result_bind] in Hrun.
    destruct (scanStep_potential env i v b i1 v1 Hb Hstep) as [Hpot Hi1].
    destruct (scanStep_spec env i v b Hb)
      as [[Hfail _]|(i1' & v1' & Hstep' & Hctl & _)]; [congruence|].
    assert (v1' = v1) as -> by congruence. unfold control in Hctl.
    destruct (deliverAll_scanning env pi (hd [] hooks) v1 Hpi)
      as (v2 & Hd & Hp2 & Hb2 & _); [congruence|].
    rewrite Hd in Hrun. cbn [mbind result_bind] in Hrun.
    destruct (IH _ _ _ _ _ Hpi Hp2 ltac:(by rewrite Hb2) Hrun) as [Hpot' Hi'].
    rewrite Hb2 in Hpot'. lia.
Qed.

Lemma clearAll_length v v' :
  clearAllImagePreviewBlocks v = Ok v' →
  (length (blocks (m_document v')) ≤ length (blocks (m_document v)))%nat.
Proof.
  intros Hrun. destruct (m_isPreviewing v) eqn:Hp.
  - unfold clearAllImagePreviewBlocks, V_ASSERT in Hrun. by rewrite Hp in Hrun.
  - destruct (clearAll_effect v Hp) as (d' & Hrun' & Hbl & _).
    assert (v' = emitStatusChanged (withDocument d' v)) as -> by congruence.
    cbn [m_document emitStatusChanged withDocument].
    rewrite Hbl. apply clearedBlocks_length.
Qed.

Lemma refresh_length v v' :
  refresh v = Ok v' →
  (length (blocks (m_document v')) ≤ length (blocks (m_document v)))%nat.
Proof.
  unfold refresh. destruct (m_isPreviewing v); [by intros [= <-]|].
  destruct (clearAllImagePreviewBlocks _) as [v1| |] eqn:Hc; [|done..].
  cbn [mbind result_bind]. intros [= <-].
  exact (clearAll_length _ _ Hc).
Qed.

Lemma finishPreview_length v v' :
  finishPreview v = Ok v' →
  (length (blocks (m_document v')) ≤ length (blocks (m_document v)))%nat.
Proof.
  unfold finishPreview. set (v0 := withIsPreviewing false v).
  destruct (if m_requestCearBlocks v0 then _ else _) as [v1| |] eqn:H1;
    [|done..].
  cbn [mbind result_bind].
  destruct (if m_requestRefreshBlocks v1 then _ else _) as [v2| |] eqn:H2;
    [|done..].
  cbn [mbind result_bind]. intros [= <-].
  cbn [m_document emitStatusChanged].
  assert (length (blocks (m_document v1))
          ≤ length (blocks (m_document v)))%nat as E1.
  { destruct (m_requestCearBlocks v0).
    - exact (clearAll_length _ _ H1).
    - by injection H1 as <-. }
  assert (length (blocks (m_document v2))
          ≤ length (blocks (m_document v1)))%nat as E2.
  { destruct (m_requestRefreshBlocks v1).
    - exact (refresh_length _ _ H2).
    - by injection H2 as <-. }
  lia.
Qed.

(** ** A finished download and the scan it schedules *)

Lemma pinned_add (k : QString) (img : QImage)
  (cache : gmap QString QString) (res : gmap QString QImage) key image :
  cache !! key = None → isNull image = false →
  cache !! k = Some k ∧ res !! k = Some img →
  <[key := key]> cache !! k = Some k ∧ <[key := image]> res !! k = Some img.
Proof.
  intros Hc _ [H1 H2].
  assert (key ≠ k) by (intros ->; congruence).
  by rewrite !lookup_insert_ne.
Qed.

Lemma subseteq_add (cache0 cache : gmap QString QString)
  (res : gmap QString QImage) key (image : QImage) :
  cache !! key = None → isNull image = false →
  cache0 ⊆ cache → cache0 ⊆ <[key := key]> cache.
Proof. intros Hc _ Hsub. etrans; [exact Hsub|]. by apply insert_subseteq. Qed.

End BehaviourFacts.

(* ===================================================================== *)
(** ** Further properties of the engine                                   *)
(* ===================================================================== *)

Import Behaviour BehaviourFacts.

(** X1.  A line that holds one image link and no other exclamation mark
    yields the reference of that link: for the line [pre ![alt](ref) post]
    with no [!] in [pre], [alt], [ref] and [post], no closing bracket in
    [alt], no closing parenthesis in [ref] and [ref] not empty,
    [fetchImageUrlToPreview] returns [ref]. *)
Theorem X1_single_link_yields_its_reference (pre alt ref post : QString) :
  chBang ∉ pre ++ alt ++ ref ++ post →
  chRBracket ∉ alt → chRParen ∉ ref → ref ≠ [] →
  fetchImageUrlToPreview
    (pre ++ [chBang; chLBracket] ++ alt ++ [chRBracket; chLParen]
         ++ ref ++ [chRParen] ++ post) = ref.
Proof.
  intros Hbang Halt Href Hne.
  apply (proj1 (fetch_exactly_one _ ref)).
  exists (length pre). split.
  - exists pre, alt, post. done.
  - intros pos' ref' Hocc. apply Occurrence_bang in Hocc.
    eapply (lookup_unique_middle chBang pre); [| |exact Hocc].
    + intros H. apply Hbang. apply elem_of_app. by left.
    + cbn [app]. intros H. apply Hbang. clear -H.
      set_unfold. unfold chBang, chLBracket, chRBracket, chLParen, chRParen in *.
      intuition discriminate.
Qed.

(** X1 at the line [see ![alt](a.png) here]. *)
Lemma X1_witness :
  fetchImageUrlToPreview
    (qs "see " ++ [chBang; chLBracket] ++ qs "alt" ++ [chRBracket; chLParen]
        ++ qs "a.png" ++ [chRParen] ++ qs " here") = qs "a.png".
Proof.
  apply (X1_single_link_yields_its_reference
           (qs "see ") (qs "alt") (qs "a.png") (qs " here"));
    [apply (bool_decide_unpack _); vm_compute; exact I
    |apply (bool_decide_unpack _); vm_compute; exact I
    |apply (bool_decide_unpack _); vm_compute; exact I
    |discriminate].
Defined.

(** X2.  [isValidImagePreviewBlock] accepts a preview block only behind a
    source block.  The first block of a document is never valid.  A preview
    block that directly follows another preview block is never valid, since
    a placeholder line yields no reference.  A block that is valid is a
    preview block, the block in front of it is not one, and the key stored
    in it equals the non-empty key of the block in front of it. *)
Theorem X2_isValidImagePreviewBlock_needs_a_source_in_front
  (env : Env) (v : VImagePreviewer) (i : QTextBlock) :
  isValidImagePreviewBlock env v O = false
  ∧ (isImagePreviewBlock v i = true →
     isValidImagePreviewBlock env v (S i) = false)
  ∧ (isValidImagePreviewBlock env v (S i) = true →
     isImagePreviewBlock v (S i) = true
     ∧ isImagePreviewBlock v i = false
     ∧ fetchImagePathToPreview env (text (m_document v) i) ≠ []
     ∧ fetchImagePathFromPreviewBlock v (S i)
       = fetchImagePathToPreview env (text (m_document v) i)).
Proof.
  split; [|split].
  - unfold isValidImagePreviewBlock. by destruct (isImagePreviewBlock v O).
  - intros Hp. unfold isValidImagePreviewBlock.
    rewrite (preview_block_has_no_key env v i Hp).
    by destruct (isImagePreviewBlock v (S i)).
  - unfold isValidImagePreviewBlock.
    destruct (isImagePreviewBlock v (S i)) eqn:Hs; [|done]. cbn [negb].
    destruct (isEmpty _) eqn:He; [done|]. intros Heq.
    apply isEmpty_false in He. apply qstring_eqb_true in Heq.
    split; [done|]. split; [|by split].
    destruct (isImagePreviewBlock v i) eqn:Hi; [|done].
    by rewrite (preview_block_has_no_key env v i Hi) in He.
Qed.

(** X3.  [insertImagePreviewBlock] on a valid block [i] and a non-empty
    key [p].  When [p] resolves (it is cached under a name, or it is a local
    file that decodes) the call returns the block behind [i]; that block is
    new, holds one placeholder whose format carries the name and the key,
    counts as a preview block with stored key [p], and is valid when [p] is
    the key of block [i]; all other blocks are where they were, the cache
    holds [p], the modified flag is what it was, and, when no edit block is
    open, the two changes (new block, placeholder) enter the undo stack as
    one step.  When [p] does not resolve the call returns [i] and leaves
    document and cache untouched. *)
Theorem X3_insertImagePreviewBlock_contract
  (env : Env) (i : QTextBlock) (p : QString) (v : VImagePreviewer)
  (b : BlockData) :
  p ≠ [] → blocks (m_document v) !! i = Some b →
  (resolvable env (m_imageCache v) p = true →
   ∃ name v',
     insertImagePreviewBlock env i p v = Ok (S i, v')
     ∧ name ≠ [] ∧ m_imageCache v' !! p = Some name
     ∧ blocks (m_document v')
       = take (S i) (blocks (m_document v))
           ++ previewBlock name p :: drop (S i) (blocks (m_document v))
     ∧ isImagePreviewBlock v' (S i) = true
     ∧ fetchImagePathFromPreviewBlock v' (S i) = p
     ∧ (fetchImagePathToPreview env (text (m_document v) i) = p →
        isValidImagePreviewBlock env v' (S i) = true)
     ∧ isModified (m_document v') = isModified (m_document v)
     ∧ (editBlockDepth (m_document v) = O →
        editBlockOps (m_document v) = [] →
        editBlockDepth (m_document v') = O
        ∧ editBlockOps (m_document v') = []
        ∧ undoStack (m_document v')
          = [OpInsertBlock i (length b);
             OpInsertImage (S i) 0 (mkImageFormat name p)]
            :: undoStack (m_document v)))
  ∧ (resolvable env (m_imageCache v) p = false →
     ∃ v',
       insertImagePreviewBlock env i p v = Ok (i, v')
       ∧ m_document v' = m_document v
       ∧ m_imageCache v' = m_imageCache v).
Proof.
  intros Hp Hi. split; intros Hr.
  - destruct (resolve_resolvable env p v Hp Hr)
      as (name & v1 & Hres & Hname & Hcache & Hsame & Hctl).
    destruct Hsame as (Hb & Hm & Hdepth & Hops & Hundo).
    assert (blocks (m_document v1) !! i = Some b) as Hi1 by (by rewrite Hb).
    assert (Hlen : (i < length (blocks (m_document v1)))%nat)
      by (by eapply lookup_lt_Some).
    assert ((take i (blocks (m_document v1))
             ++ [take (length b) b; drop (length b) b]
             ++ drop (S i) (blocks (m_document v1))) !! S i
            = Some []) as Hnew.
    { rewrite lookup_app_r by (rewrite length_take; lia).
      rewrite length_take. replace (S i - i `min` _)%nat with 1%nat by lia.
      simpl. by rewrite drop_all. }
    assert (∀ d', blocks d'
                  = take (S i) (blocks (m_document v))
                    ++ previewBlock name p :: drop (S i) (blocks (m_document v)) →
            blocks d' !! S i = Some (previewBlock name p)) as Hlook.
    { intros d' ->. rewrite lookup_app_r by (rewrite length_take; lia).
      rewrite length_take.
      replace (S i - S i `min` _)%nat with O; [done|].
      rewrite <- Hb. lia. }
    exists name. unfold insertImagePreviewBlock. rewrite Hres.
    cbn [mbind result_bind].
    apply isEmpty_false in Hname as Hname'. rewrite Hname'.
    unfold moveEndOfBlock, cursorAt, insertBlock, insertImage.
    cbn [fst snd beginEditBlock blocks]. rewrite Hi1. cbn [fst snd].
    rewrite Hi1. rewrite recordEdit_blocks. cbn [fst snd]. rewrite Hnew.
    cbn [fst snd]. unfold V_ASSERT, text.
    rewrite endEditBlock_blocks, recordEdit_blocks.
    rewrite list_lookup_insert_eq
      by (rewrite !length_app, length_take; simpl; lia).
    cbn [app take drop blockText map head]. rewrite bool_decide_eq_true_2 by done.
    cbn [mbind result_bind]. eexists. split; [done|].
    split; [done|]. split; [done|].
    match goal with |- ?B ∧ _ => assert B as Hblocks end.
    { cbn [m_document withDocument setModified blocks].
      rewrite endEditBlock_blocks, recordEdit_blocks.
      rewrite firstn_all, Hb. by apply insert_after_split. }
    split; [exact Hblocks|].
    pose proof (Hlook _ Hblocks) as Hl.
    split; [by rewrite isImagePreviewBlock_lookup, Hl|].
    split; [by rewrite (fetchImagePath_lookup _ _ _ Hl)|].
    split.
    { intros Hkey. rewrite (isValidImagePreviewBlock_lookup _ _ _ _ Hl).
      unfold validData. cbn [blockBefore].
      rewrite Hblocks, lookup_app_l by (rewrite length_take; rewrite <- Hb; lia).
      rewrite lookup_take_lt by lia. rewrite Hi.
      rewrite Hi in Hkey. unfold pathOf. rewrite Hkey.
      apply isEmpty_false in Hp. rewrite Hp. cbn.
      by apply qstring_eqb_true. }
    split; [by cbn|].
    intros Hd0 Ho0. cbn [m_document withDocument setModified].
    rewrite <- Hdepth in Hd0. rewrite <- Hops in Ho0. rewrite <- Hundo.
    destruct (m_document v1) as [bs res m depth ops undo]. cbn in Hd0, Ho0.
    subst depth ops. by cbn.
  - destruct (insert_spec env i p v b Hp Hi)
      as (j & v' & Hins & _ & _ & _ & Hfail & _).
    destruct (Hfail Hr) as (-> & Hd & Hc). by exists v'.
Qed.

(** X3 at a note whose only line names the local image [a.png]. *)
Lemma X3_witness :
  ∃ name v',
    insertImagePreviewBlock exEnv 0 (qs "a.png")
      (construct (document [plain (qs "![x](a.png)")])) = Ok (1%nat, v')
    ∧ name ≠ [] ∧ m_imageCache v' !! qs "a.png" = Some name
    ∧ blocks (m_document v')
      = [plain (qs "![x](a.png)"); previewBlock name (qs "a.png")]
    ∧ isImagePreviewBlock v' 1 = true
    ∧ fetchImagePathFromPreviewBlock v' 1 = qs "a.png"
    ∧ isModified (m_document v') = false.
Proof.
  destruct (proj1 (X3_insertImagePreviewBlock_contract exEnv 0 (qs "a.png")
                     (construct (document [plain (qs "![x](a.png)")]))
                     (plain (qs "![x](a.png)"))
                     ltac:(discriminate) eq_refl) eq_refl)
    as (name & v' & H1 & H2 & H3 & H4 & H5 & H6 & _ & H8 & _).
  exists name, v'. repeat split; done.
Defined.

(** X4.  [previewImageOfOneBlock] on a source block that is already
    followed by a preview block (one that carries an image format).  If the
    stored key equals the key of the source line nothing changes.  If it
    differs and the new key resolves, the preview block is retargeted in
    place: no block is inserted or removed, every text is what it was, and
    the block is now valid, with the new key stored.  If the new key does
    not resolve, the stale preview block is removed, with the modified flag
    and the cache left as they were.  The walk continues behind the preview
    block in the first two cases and at the block that followed it in the
    third. *)
Theorem X4_stale_preview_is_retargeted_in_place
  (env : Env) (i : QTextBlock) (v : VImagePreviewer) (b nb : BlockData) :
  blocks (m_document v) !! i = Some b →
  blocks (m_document v) !! S i = Some nb →
  isPreviewData nb = true → is_Some (formatOf nb) →
  pathOf env b ≠ [] →
  (payloadOf nb = pathOf env b →
   previewImageOfOneBlock env i v = Ok (S (S i), v))
  ∧ (payloadOf nb ≠ pathOf env b →
     resolvable env (m_imageCache v) (pathOf env b) = true →
     ∃ name v',
       previewImageOfOneBlock env i v = Ok (S (S i), v')
       ∧ blocks (m_document v')
         = <[S i := retargetBlock name (pathOf env b) nb]>
             (blocks (m_document v))
       ∧ length (blocks (m_document v')) = length (blocks (m_document v))
       ∧ (∀ j, text (m_document v') j = text (m_document v) j)
       ∧ isValidImagePreviewBlock env v' (S i) = true
       ∧ fetchImagePathFromPreviewBlock v' (S i) = pathOf env b)
  ∧ (payloadOf nb ≠ pathOf env b →
     resolvable env (m_imageCache v) (pathOf env b) = false →
     ∃ v',
       previewImageOfOneBlock env i v = Ok (S i, v')
       ∧ blocks (m_document v') = delete (S i) (blocks (m_document v))
       ∧ isModified (m_document v') = isModified (m_document v)
       ∧ m_imageCache v' = m_imageCache v).
Proof.
  intros Hi Hn Hp Hf Hk.
  rewrite (previewOne_over_preview env i v b nb Hi Hn Hp Hk).
  destruct (update_spec env (S i) (pathOf env b) v nb Hk Hn Hp Hf)
    as (v' & Hupd & _ & _ & Hsame & Hrem & Hret).
  rewrite Hupd. cbn [mbind result_bind].
  assert (Hlen : (S i < length (blocks (m_document v)))%nat)
    by (by eapply lookup_lt_Some).
  split; [|split].
  - intros Heq. rewrite (Hsame Heq). unfold rebase.
    rewrite bool_decide_eq_true_2 by lia. do 2 f_equal. lia.
  - intros Hne Hr. destruct (Hret Hne Hr) as (name & Hbl & _).
    exists name, v'.
    assert (length (blocks (m_document v')) = length (blocks (m_document v)))
      as Hl by (by rewrite Hbl, length_insert).
    assert (blocks (m_document v') !! S i
            = Some (retargetBlock name (pathOf env b) nb)) as Hl'
      by (rewrite Hbl; by apply list_lookup_insert_eq).
    split.
    { unfold rebase. rewrite bool_decide_eq_true_2 by lia.
      do 2 f_equal. lia. }
    split; [done|]. split; [done|]. split.
    { intros j. unfold text. rewrite Hbl.
      destruct (decide (j = S i)) as [->|Hj].
      - rewrite list_lookup_insert_eq by done. rewrite Hn.
        apply retargetBlock_text.
      - by rewrite list_lookup_insert_ne. }
    split.
    + rewrite (isValidImagePreviewBlock_lookup _ _ _ _ Hl').
      unfold validData. cbn [blockBefore].
      rewrite retargetBlock_preview, Hp.
      rewrite Hbl, list_lookup_insert_ne, Hi by lia.
      apply isEmpty_false in Hk. rewrite Hk. cbn.
      apply qstring_eqb_true. by apply retargetBlock_payload.
    + rewrite (fetchImagePath_lookup _ _ _ Hl').
      by apply retargetBlock_payload.
  - intros Hne Hr. destruct (Hrem Hne Hr) as (Hbl & Hm & Hc).
    rewrite (removedBlocks_delete _ _ _ Hn Hp) in Hbl.
    exists v'. split; [|done].
    unfold rebase. rewrite bool_decide_eq_true_2 by lia.
    rewrite Hbl, length_delete by (by eexists). do 2 f_equal. lia.
Qed.

(** X4 at the stale example: the line names [a.png], the preview block behind it stores [old.png]. *)
Lemma X4_witness :
  ∃ v',
    previewImageOfOneBlock exEnv 0 exStale = Ok (2%nat, v')
    ∧ length (blocks (m_document v')) = 2%nat
    ∧ (∀ j, text (m_document v') j = text (m_document exStale) j)
    ∧ isValidImagePreviewBlock exEnv v' 1 = true
    ∧ fetchImagePathFromPreviewBlock v' 1 = qs "a.png".
Proof.
  destruct (proj1 (proj2
              (X4_stale_preview_is_retargeted_in_place exEnv 0 exStale
                 (plain (qs "![x](a.png)"))
                 (preview (qs "old.png") (qs "old.png"))
                 eq_refl eq_refl eq_refl
                 (mk_is_Some _ (mkImageFormat (qs "old.png") (qs "old.png")) eq_refl)
                 ltac:(vm_compute; discriminate)))
              ltac:(vm_compute; discriminate) eq_refl)
    as (name & v' & H1 & _ & H3 & H4 & H5 & H6).
  exists v'. repeat split; try done.
Defined.

(** X5.  The format written by [updateFormatInPreviewBlock] is the format
    read back.  On a preview block whose placeholder carries an image
    format the call succeeds; afterwards [fetchFormatFromPreviewBlock]
    returns the format written and [fetchImagePathFromPreviewBlock] its
    key; no text and no other block changes, the cache is untouched, and
    the document is marked modified.  On a block without a placeholder the
    call fails its assertion, and the two readers return the default format
    and the empty key. *)
Theorem X5_format_written_to_a_preview_block_is_the_format_read_back
  (i : QTextBlock) (f : QTextImageFormat) (v : VImagePreviewer)
  (b : BlockData) :
  blocks (m_document v) !! i = Some b →
  (isPreviewData b = true → is_Some (formatOf b) →
   ∃ v',
     updateFormatInPreviewBlock i f v = Ok v'
     ∧ fetchFormatFromPreviewBlock v' i = Some f
     ∧ fetchImagePathFromPreviewBlock v' i = propImagePath f
     ∧ (∀ j, text (m_document v') j = text (m_document v) j)
     ∧ (∀ j, j ≠ i → blocks (m_document v') !! j = blocks (m_document v) !! j)
     ∧ m_imageCache v' = m_imageCache v
     ∧ isModified (m_document v') = true)
  ∧ (ObjectReplacementCharacter ∉ blockText b →
     updateFormatInPreviewBlock i f v = AssertFailed
     ∧ fetchFormatFromPreviewBlock v i = Some defaultImageFormat
     ∧ fetchImagePathFromPreviewBlock v i = []).
Proof.
  intros Hi. split.
  - intros Hp Hf.
    destruct (formatOf_preview b Hp) as (k & cell & Hk & Hcell & Hc & Hfmt).
    unfold updateFormatInPreviewBlock.
    rewrite (text_Some _ _ _ Hi), Hk.
    replace (0 <=? Z.of_nat k) with true by (symmetry; apply Z.leb_le; lia).
    unfold charImageFormat, setCharFormat. rewrite Hi, Nat2Z.id, Hcell.
    rewrite bool_decide_eq_true_2 by (by rewrite <- Hfmt).
    cbn [V_ASSERT mbind result_bind]. eexists. split; [done|].
    set (b' := <[k := mkCell (chr cell) (Some f)]> b).
    assert (blockText b' = blockText b) as Ht
      by (by apply blockText_insert_chr).
    assert (Hlen : (i < length (blocks (m_document v)))%nat)
      by (by eapply lookup_lt_Some).
    assert (blocks (m_document
              (withDocument
                 (recordEdit (OpSetCharFormat i k f)
                    (<[i := b']> (blocks (m_document v))) (m_document v)) v))
            !! i = Some b') as Hi'.
    { cbn [m_document withDocument]. rewrite recordEdit_blocks.
      by apply list_lookup_insert_eq. }
    assert (formatOf b' = Some f) as Hf'.
    { unfold formatOf. rewrite Ht, Hk.
      replace (0 <=? Z.of_nat k) with true by (symmetry; apply Z.leb_le; lia).
      rewrite Nat2Z.id. subst b'.
      by rewrite list_lookup_insert_eq by (by eapply lookup_lt_Some). }
    split; [by rewrite (fetchFormat_lookup _ _ _ Hi')|].
    split.
    { rewrite (fetchImagePath_lookup _ _ _ Hi'). unfold payloadOf.
      by rewrite Hf'. }
    cbn [m_document withDocument m_imageCache].
    rewrite recordEdit_blocks, recordEdit_isModified.
    split; [|split; [|done]].
    + intros j. unfold text. rewrite recordEdit_blocks.
      destruct (decide (j = i)) as [->|Hj].
      * rewrite list_lookup_insert_eq by done. by rewrite Hi.
      * by rewrite list_lookup_insert_ne.
    + intros j Hj. by rewrite list_lookup_insert_ne.
  - intros Hno.
    assert (indexOf ObjectReplacementCharacter (blockText b) = -1) as Hidx.
    { unfold indexOf.
      destruct (indexOfFrom_spec ObjectReplacementCharacter (blockText b) 0)
        as [[H _]|(k & _ & Hk)]; [lia|done|].
      exfalso. apply Hno. by eapply list_elem_of_lookup_2. }
    split; [|split].
    + unfold updateFormatInPreviewBlock. by rewrite (text_Some _ _ _ Hi), Hidx.
    + rewrite (fetchFormat_lookup _ _ _ Hi). unfold formatOf. by rewrite Hidx.
    + rewrite (fetchImagePath_lookup _ _ _ Hi). unfold payloadOf, formatOf.
      by rewrite Hidx.
Qed.

(** X5 at the preview block of the stale example. *)
Lemma X5_witness :
  ∃ v',
    updateFormatInPreviewBlock 1 (mkImageFormat (qs "n") (qs "p")) exStale
    = Ok v'
    ∧ fetchFormatFromPreviewBlock v' 1 = Some (mkImageFormat (qs "n") (qs "p"))
    ∧ fetchImagePathFromPreviewBlock v' 1 = qs "p"
    ∧ (∀ j, text (m_document v') j = text (m_document exStale) j)
    ∧ isModified (m_document v') = true.
Proof.
  destruct (proj1 (X5_format_written_to_a_preview_block_is_the_format_read_back
                     1 (mkImageFormat (qs "n") (qs "p")) exStale
                     (preview (qs "old.png") (qs "old.png")) eq_refl)
              eq_refl
              (mk_is_Some _ (mkImageFormat (qs "old.png") (qs "old.png")) eq_refl))
    as (v' & H1 & H2 & H3 & H4 & _ & _ & H7).
  exists v'. repeat split; done.
Defined.

(** X6.  [clearCorruptedImagePreviewBlock] always returns (its closing
    assertion holds on every block), and a second call changes nothing: the
    block it leaves is not corrupted.  It never turns a block that was not
    a preview block into one, it does nothing on an invalid block, and it
    never touches another block. *)
Theorem X6_cleanup_is_idempotent_and_creates_no_preview_block
  (i : QTextBlock) (v : VImagePreviewer) :
  ∃ v1,
    clearCorruptedImagePreviewBlock i v = Ok v1
    ∧ clearCorruptedImagePreviewBlock i v1 = Ok v1
    ∧ ¬ Corrupted (text (m_document v1) i)
    ∧ (isImagePreviewBlock v i = false → isImagePreviewBlock v1 i = false)
    ∧ (isValid (m_document v) i = false → v1 = v)
    ∧ (∀ j, j ≠ i →
            blocks (m_document v1) !! j = blocks (m_document v) !! j).
Proof.
  rewrite clearCorrupted_eq. eexists. split; [done|].
  set (v1 := withDocument (cleanupDocument i (m_document v)) v).
  destruct (blocks (m_document v) !! i) as [b|] eqn:Hb.
  - assert (Hb1 : blocks (m_document v1)
                  = <[i := cleanBlock b]> (blocks (m_document v)))
      by (by apply cleanupDocument_blocks).
    assert (Hi1 : blocks (m_document v1) !! i = Some (cleanBlock b)).
    { rewrite Hb1. apply list_lookup_insert_eq. by eapply lookup_lt_Some. }
    assert (¬ Corrupted (text (m_document v1) i)) as Hnc.
    { rewrite (text_Some _ _ _ Hi1). apply isCorrupted_false.
      apply cleanBlock_not_corrupted. }
    split; [by apply clearCorrupted_idle|]. split; [done|].
    split.
    { rewrite !isImagePreviewBlock_lookup, Hi1, Hb.
      apply cleanBlock_not_preview. }
    split.
    { intros Hv. apply isValid_false in Hv. congruence. }
    intros j Hj. rewrite Hb1. by apply list_lookup_insert_ne.
  - assert (v1 = v) as ->.
    { subst v1. rewrite cleanupDocument_blocks_None by done.
      apply withDocument_id. }
    assert (¬ Corrupted (text (m_document v) i)) as Hnc.
    { rewrite text_None by done. intros [H _]. by apply elem_of_nil in H. }
    split; [by apply clearCorrupted_idle|]. done.
Qed.

(** X7.  The pass of the scan over an orphan (a preview block that is not
    valid) removes it with [removeBlock] and continues at the block that
    followed the orphan: no block is skipped.  The blocks in front are
    untouched and the modified flag is what it was.  An orphan in the first
    block of the document is emptied instead of removed (an empty line
    stays and the number of blocks does not change); anywhere else the
    document is one block shorter. *)
Theorem X7_block_behind_a_removed_orphan_is_visited_next
  (env : Env) (i : QTextBlock) (v : VImagePreviewer) :
  isImagePreviewBlock v i = true →
  isValidImagePreviewBlock env v i = false →
  ∃ i',
    scanStep env i v = Ok (i', removeBlock i v)
    ∧ blocks (m_document (removeBlock i v)) !! i'
      = blocks (m_document v) !! S i
    ∧ take i (blocks (m_document (removeBlock i v)))
      = take i (blocks (m_document v))
    ∧ isModified (m_document (removeBlock i v)) = isModified (m_document v)
    ∧ match i with
      | O => i' = 1%nat
             ∧ blocks (m_document (removeBlock i v)) !! O = Some []
             ∧ length (blocks (m_document (removeBlock i v)))
               = length (blocks (m_document v))
      | S _ => i' = i
               ∧ S (length (blocks (m_document (removeBlock i v))))
                 = length (blocks (m_document v))
      end.
Proof.
  intros Hp Hinv. unfold scanStep. rewrite Hp, Hinv. cbn [negb].
  rewrite isImagePreviewBlock_lookup in Hp.
  destruct (blocks (m_document v) !! i) as [b|] eqn:Hb; [|done].
  assert (Hlen : (i < length (blocks (m_document v)))%nat)
    by (by eapply lookup_lt_Some).
  destruct (removeBlock_eq i v) as (d' & -> & Hbl & Hm & _).
  rewrite (removedBlocks_preview _ _ _ Hb Hp) in Hbl.
  cbn [m_document withDocument]. unfold rebase, next.
  rewrite bool_decide_eq_true_2 by lia. rewrite Hbl.
  destruct i as [|k].
  - rewrite length_insert. exists 1%nat.
    split; [do 2 f_equal; lia|]. split; [by destruct (blocks (m_document v))|].
    split; [done|]. split; [done|]. split; [done|].
    split; [by apply list_lookup_insert_eq|done].
  - rewrite length_delete by (by eexists). exists (S k).
    split; [do 2 f_equal; lia|].
    split; [by rewrite list_lookup_delete_ge by lia|].
    split; [apply take_delete_same|]. split; [done|]. split; [done|]. lia.
Qed.

(** X7 at the stray preview block of the mixed example note. *)
Lemma X7_witness :
  ∃ i',
    scanStep exEnv 2 (construct exMixedDoc)
    = Ok (i', removeBlock 2 (construct exMixedDoc))
    ∧ blocks (m_document (removeBlock 2 (construct exMixedDoc))) !! i'
      = blocks (m_document (construct exMixedDoc)) !! 3%nat
    ∧ i' = 2%nat
    ∧ S (length (blocks (m_document (removeBlock 2 (construct exMixedDoc)))))
      = length (blocks (m_document (construct exMixedDoc))).
Proof.
  destruct (X7_block_behind_a_removed_orphan_is_visited_next
              exEnv 2 (construct exMixedDoc) eq_refl eq_refl)
    as (i' & H1 & H2 & _ & _ & H5 & H6).
  exists i'. repeat split; done.
Defined.

(** X8.  [clearAllImagePreviewBlocks].  Called while a scan is active it
    fails its assertion.  Otherwise it returns; the blocks left are the
    blocks that were not preview blocks, each after the corruption cleanup,
    in their order, except that a preview block in first position leaves an
    empty first block; the modified flag and the image resources are what
    they were; when no edit block was open, all changes together are at
    most one undo step; the enable flag, the guard, the latches, the cache
    and the requests made so far are untouched, and [statusChanged] has
    been emitted once.  Nothing is stated about the timer: the edits of the
    clear reach [handleContentChange] through the [contentsChange] signal
    of the document, which restarts it. *)
Theorem X8_clearAllImagePreviewBlocks_effect (v : VImagePreviewer) :
  (m_isPreviewing v = true → clearAllImagePreviewBlocks v = AssertFailed)
  ∧ (m_isPreviewing v = false →
     ∃ v',
       clearAllImagePreviewBlocks v = Ok v'
       ∧ blocks (m_document v') = clearedBlocks (blocks (m_document v))
       ∧ isModified (m_document v') = isModified (m_document v)
       ∧ imageResources (m_document v') = imageResources (m_document v)
       ∧ (editBlockDepth (m_document v) = O →
          editBlockOps (m_document v) = [] →
          editBlockDepth (m_document v') = O
          ∧ editBlockOps (m_document v') = []
          ∧ (undoStack (m_document v') = undoStack (m_document v)
             ∨ ∃ ops, undoStack (m_document v')
                      = ops :: undoStack (m_document v)))
       ∧ control v' = control v
       ∧ m_imageCache v' = m_imageCache v
       ∧ downloadRequests v' = downloadRequests v
       ∧ imageLoads v' = imageLoads v
       ∧ statusChanged v' = S (statusChanged v)).
Proof.
  split.
  - intros H. unfold clearAllImagePreviewBlocks, V_ASSERT. by rewrite H.
  - intros Hprev.
    destruct (clearAll_effect v Hprev) as (d' & -> & Hbl & Hm & Hr & Hu).
    eexists. split; [done|].
    cbn [m_document m_imageCache downloadRequests imageLoads statusChanged
         emitStatusChanged withDocument].
    do 4 (split; [done|]). done.
Qed.

(** X9.  Clearing twice is clearing once.  After
    [clearAllImagePreviewBlocks] no block is a preview block and no block
    is corrupted, the document has not grown, and a second call leaves
    every block as it is. *)
Theorem X9_clearing_twice_is_clearing_once (v : VImagePreviewer) :
  m_isPreviewing v = false →
  ∃ v1 v2,
    clearAllImagePreviewBlocks v = Ok v1
    ∧ clearAllImagePreviewBlocks v1 = Ok v2
    ∧ (∀ j, isImagePreviewBlock v1 j = false)
    ∧ (∀ j, ¬ Corrupted (text (m_document v1) j))
    ∧ (length (blocks (m_document v1)) ≤ length (blocks (m_document v)))%nat
    ∧ blocks (m_document v2) = blocks (m_document v1).
Proof.
  intros Hprev.
  destruct (clearAll_effect v Hprev) as (d1 & Hrun1 & Hbl1 & _).
  set (v1 := emitStatusChanged (withDocument d1 v)) in *.
  destruct (clearAll_effect v1 Hprev) as (d2 & Hrun2 & Hbl2 & _).
  exists v1, (emitStatusChanged (withDocument d2 v1)).
  split; [done|]. split; [done|].
  change (blocks (m_document v1)) with (blocks d1) in *.
  change (m_document v1) with d1.
  pose proof (clearedBlocks_clean (blocks (m_document v))) as Hclean.
  rewrite <- Hbl1 in Hclean.
  split; [|split; [|split]].
  - intros j. rewrite isImagePreviewBlock_lookup.
    change (blocks (m_document v1)) with (blocks d1).
    destruct (blocks d1 !! j) as [b|] eqn:Hb; [|done].
    by apply (Forall_lookup_1 _ _ _ _ Hclean Hb).
  - intros j. unfold text.
    destruct (blocks d1 !! j) as [b|] eqn:Hb.
    + apply isCorrupted_false. by apply (Forall_lookup_1 _ _ _ _ Hclean Hb).
    + intros [H _]. by apply elem_of_nil in H.
  - rewrite Hbl1. apply clearedBlocks_length.
  - cbn [m_document withDocument emitStatusChanged].
    rewrite Hbl2. by apply clearedBlocks_fixed.
Qed.

(** X9 at the mixed example note. *)
Lemma X9_witness :
  ∃ v1 v2,
    clearAllImagePreviewBlocks (construct exMixedDoc) = Ok v1
    ∧ clearAllImagePreviewBlocks v1 = Ok v2
    ∧ (∀ j, isImagePreviewBlock v1 j = false)
    ∧ (∀ j, ¬ Corrupted (text (m_document v1) j))
    ∧ (length (blocks (m_document v1))
       ≤ length (blocks (m_document (construct exMixedDoc))))%nat
    ∧ blocks (m_document v2) = blocks (m_document v1).
Proof.
  exact (X9_clearing_twice_is_clearing_once (construct exMixedDoc) eq_refl).
Defined.

(** X10.  Switching previews off.  [disableImagePreview] outside a scan
    clears the flag and removes the preview blocks at once, as
    [clearAllImagePreviewBlocks] does: modified flag, image resources,
    guard, latches, cache and the requests made so far are what they were,
    and [statusChanged] has been emitted once (nothing is stated about the
    timer, which the edits of the clear restart through
    [handleContentChange]).  A timer tick of a disabled engine does
    nothing, whatever the configuration says.  A timer tick with the
    configuration off and the engine enabled is a call of
    [disableImagePreview]: it scans nothing.  [enableImagePreview] with the
    configuration off does not start the timer, and the next tick disables
    the engine again and leaves no preview block. *)
Theorem X10_switching_previews_off_clears_and_stops_scanning
  (env : Env) (hooks : list (list Request)) (v : VImagePreviewer) :
  (m_isPreviewing v = false →
   ∃ v',
     disableImagePreview v = Ok v'
     ∧ m_enablePreview v' = false
     ∧ blocks (m_document v') = clearedBlocks (blocks (m_document v))
     ∧ isModified (m_document v') = isModified (m_document v)
     ∧ imageResources (m_document v') = imageResources (m_document v)
     ∧ m_isPreviewing v' = false
     ∧ m_requestCearBlocks v' = m_requestCearBlocks v
     ∧ m_requestRefreshBlocks v' = m_requestRefreshBlocks v
     ∧ m_imageCache v' = m_imageCache v
     ∧ downloadRequests v' = downloadRequests v
     ∧ imageLoads v' = imageLoads v
     ∧ statusChanged v' = S (statusChanged v))
  ∧ (m_enablePreview v = false → timerTimeout env hooks v = Ok v)
  ∧ (getEnablePreviewImages env = false → m_enablePreview v = true →
     timerTimeout env hooks v = disableImagePreview v)
  ∧ (getEnablePreviewImages env = false → m_isPreviewing v = false →
     m_timerActive (enableImagePreview env v) = m_timerActive v
     ∧ ∃ v', timerTimeout env hooks (enableImagePreview env v) = Ok v'
             ∧ m_enablePreview v' = false
             ∧ ∀ j, isImagePreviewBlock v' j = false).
Proof.
  unfold timerTimeout, timerTimeoutWith. split; [|split; [|split]].
  - intros Hprev. unfold disableImagePreview.
    cbn [m_isPreviewing withEnablePreview]. rewrite Hprev.
    destruct (clearAll_effect (withEnablePreview false v) Hprev)
      as (d' & -> & Hbl & Hm & Hr & _).
    eexists. split; [done|].
    cbn [m_document m_imageCache downloadRequests imageLoads statusChanged
         m_enablePreview m_isPreviewing m_requestCearBlocks
         m_requestRefreshBlocks emitStatusChanged withDocument
         withEnablePreview].
    do 4 (split; [done|]). done.
  - intros ->. by destruct (getEnablePreviewImages env).
  - by intros -> ->.
  - intros Hcfg Hprev. unfold enableImagePreview. rewrite Hcfg.
    split; [done|]. cbn [negb m_enablePreview withEnablePreview].
    destruct (disable_spec (withEnablePreview true v) Hprev)
      as (v' & -> & _ & Hen & _ & _ & Hno).
    by exists v'.
Qed.

(** X11.  [refresh].  During a scan it only latches the request.  Outside
    a scan it empties the cache, clears the preview blocks as
    [clearAllImagePreviewBlocks] does (modified flag and image resources
    kept), and leaves the timer started; afterwards no block is a preview
    block and [fetchCachedImageFromPreviewBlock] finds no image for any
    block. *)
Theorem X11_refresh_effect (v : VImagePreviewer) :
  (m_isPreviewing v = true → refresh v = Ok (withRequestRefreshBlocks true v))
  ∧ (m_isPreviewing v = false →
     ∃ d',
       refresh v
       = Ok (timerStart
               (emitStatusChanged (withDocument d' (withImageCache ∅ v))))
       ∧ blocks d' = clearedBlocks (blocks (m_document v))
       ∧ isModified d' = isModified (m_document v)
       ∧ imageResources d' = imageResources (m_document v)
       ∧ ∀ v' j, refresh v = Ok v' →
                 isImagePreviewBlock v' j = false
                 ∧ fetchCachedImageFromPreviewBlock v' j = NullImage).
Proof.
  unfold refresh. split; intros Hprev; rewrite Hprev; [done|].
  destruct (clearAll_effect (withImageCache ∅ (timerStop v)) Hprev)
    as (d' & -> & Hbl & Hm & Hr & _).
  cbn [mbind result_bind]. exists d'. split; [done|].
  split; [done|]. split; [done|]. split; [done|].
  intros v' j [= <-]. split.
  - rewrite isImagePreviewBlock_lookup. cbn.
    destruct (blocks d' !! j) as [b|] eqn:Hb; [|done].
    assert (Forall (λ b, isPreviewData b = false
                         ∧ isCorrupted (blockText b) = false) (blocks d'))
      as Hclean by (rewrite Hbl; apply clearedBlocks_clean).
    by apply (Forall_lookup_1 _ _ _ _ Hclean Hb).
  - unfold fetchCachedImageFromPreviewBlock. cbn [m_imageCache timerStart
      emitStatusChanged withDocument withImageCache].
    destruct (isEmpty _); [done|]. by rewrite lookup_empty.
Qed.

(** X12.  A refresh asked for during a scan is carried out when the scan
    ends.  If [refresh] is called during the first pass of a scan, then,
    whatever else the host calls during the scan, the call of
    [previewImages] ends with the guard and the refresh latch released, the
    cache empty, the timer started and no preview block in the document. *)
Theorem X12_refresh_during_scan_is_carried_out_at_its_end
  (env : Env) (before after : list Request) (hooks : list (list Request))
  (v v' : VImagePreviewer) :
  m_isPreviewing v = false → m_enablePreview v = true →
  isValid (m_document v) O = true →
  previewImages env ((before ++ ReqRefresh :: after) :: hooks) v = Ok v' →
  m_isPreviewing v' = false ∧ m_requestRefreshBlocks v' = false
  ∧ m_imageCache v' = ∅ ∧ m_timerActive v' = true
  ∧ ∀ j, isImagePreviewBlock v' j = false.
Proof.
  assert (Hpi : ∀ w, m_isPreviewing w = true →
                     previewImagesAt 0 env [] w = Ok w)
    by (intros; by apply previewImagesAt_guard).
  intros Hprev Hen Hv Hrun.
  destruct (previewImages_released env _ v v' Hprev Hrun) as (Hg & _ & Hrl).
  split; [done|]. split; [done|].
  rewrite previewImages_unfold in Hrun by done.
  apply isValid_true in Hv as [b Hb].
  assert (Hlen : (0 < length (blocks (m_document v)))%nat)
    by (by eapply lookup_lt_Some).
  destruct (length (blocks (m_document v))) as [|fuel]; [lia|].
  cbn [scanLoop] in Hrun.
  assert (Hb0 : blocks (m_document (withIsPreviewing true v)) !! O = Some b)
    by done.
  rewrite (isValid_Some _ _ _ Hb0) in Hrun.
  cbn [m_enablePreview withIsPreviewing] in Hrun. rewrite Hen in Hrun.
  cbn [andb] in Hrun.
  destruct (scanStep_spec env O _ b Hb0)
    as [[Hfail _]|(i1 & v1 & Hstep & Hctl & _)];
    rewrite ?Hfail, ?Hstep in Hrun; [done|].
  cbn [mbind result_bind hd tl] in Hrun.
  assert (Hp1 : m_isPreviewing v1 = true)
    by (unfold control in Hctl; simpl in Hctl; congruence).
  rewrite deliverAll_app in Hrun.
  destruct (deliverAll_refresh_latched env _ before v1 Hpi Hp1)
    as (v2 & Hd2 & Hp2 & _).
  rewrite Hd2 in Hrun. cbn [mbind result_bind deliverAll deliver] in Hrun.
  unfold refresh in Hrun at 1. rewrite Hp2 in Hrun.
  cbn [mbind result_bind] in Hrun.
  set (v3 := withRequestRefreshBlocks true v2) in *.
  assert (Hp3 : m_isPreviewing v3 = true) by done.
  destruct (deliverAll_refresh_latched env _ after v3 Hpi Hp3)
    as (v4 & Hd4 & Hp4 & Hl4).
  rewrite Hd4 in Hrun. cbn [mbind result_bind] in Hrun.
  destruct (scanLoop _ _ _ _ _ v4) as [[i5 v5]| |] eqn:Hloop; [|done..].
  cbn [mbind result_bind] in Hrun.
  pose proof (scanLoop_refresh_latched _ _ _ _ _ _ _ _ Hpi Hp4 Hloop (Hl4 eq_refl))
    as Hl5.
  by apply (finishPreview_refresh v5 v' Hl5).
Qed.

(** X12 at the mixed example note. *)
Lemma X12_witness :
  ∃ v',
    previewImages exEnv [[ReqRefresh]] (construct exMixedDoc) = Ok v'
    ∧ m_isPreviewing v' = false ∧ m_requestRefreshBlocks v' = false
    ∧ m_imageCache v' = ∅ ∧ m_timerActive v' = true
    ∧ ∀ j, isImagePreviewBlock v' j = false.
Proof.
  eexists. split; [vm_compute; reflexivity|].
  apply (X12_refresh_during_scan_is_carried_out_at_its_end
           exEnv [] [] [] (construct exMixedDoc));
    [reflexivity|reflexivity|reflexivity|vm_compute; reflexivity].
Defined.

(** X13.  A local image is decoded once and then served from the cache.
    For a key that is not cached and names a local file that decodes,
    [imageCacheResourceName] returns the key as the resource name, enters
    [key -> key] in the cache and the image in the resources of the
    document, decodes once, requests no download and leaves blocks and
    modified flag alone.  From then on every resolution of the key, in any
    environment (the file may have changed or gone), returns the same name
    and changes nothing: no decode, no download. *)
Theorem X13_local_image_is_decoded_once_then_served_from_the_cache
  (env : Env) (key : QString) (v : VImagePreviewer) :
  key ≠ [] → m_imageCache v !! key = None → fileExists env key = true →
  isNull (loadImage env key) = false →
  ∃ v1,
    imageCacheResourceName env key v = Ok (key, v1)
    ∧ m_imageCache v1 = <[key := key]> (m_imageCache v)
    ∧ imageResources (m_document v1)
      = <[key := loadImage env key]> (imageResources (m_document v))
    ∧ blocks (m_document v1) = blocks (m_document v)
    ∧ isModified (m_document v1) = isModified (m_document v)
    ∧ imageLoads v1 = key :: imageLoads v
    ∧ downloadRequests v1 = downloadRequests v
    ∧ ∀ env' n, resolveRepeatedly env' key n v1 = Ok (replicate n key, v1).
Proof.
  intros Hk Hc Hf Hn. eexists. rewrite (resolve_local _ _ _ Hk Hc Hf Hn).
  split; [done|]. do 6 (split; [done|]).
  intros env' n. apply resolveRepeatedly_cached; [done|].
  cbn. by rewrite lookup_insert_eq.
Qed.

(** X13 at [a.png]. *)
Lemma X13_witness :
  ∃ v1,
    imageCacheResourceName exEnv (qs "a.png") (construct exRemoteDoc)
    = Ok (qs "a.png", v1)
    ∧ m_imageCache v1 = <[qs "a.png" := qs "a.png"]> ∅
    ∧ imageLoads v1 = [qs "a.png"]
    ∧ downloadRequests v1 = []
    ∧ ∀ env' n,
        resolveRepeatedly env' (qs "a.png") n v1
        = Ok (replicate n (qs "a.png"), v1).
Proof.
  destruct (X13_local_image_is_decoded_once_then_served_from_the_cache
              exEnv (qs "a.png") (construct exRemoteDoc)
              ltac:(discriminate) eq_refl eq_refl eq_refl)
    as (v1 & H1 & H2 & _ & _ & _ & H6 & H7 & H8).
  exists v1. repeat split; done.
Defined.

(** X14.  A pending download is requested again by every resolution.  For
    a key that is not cached and is not a local file, [n] resolutions in a
    row return no name [n] times and hand the key to the downloader [n]
    times; document and cache stay as they are and nothing is decoded.  The
    engine keeps no record that a download is under way. *)
Theorem X14_pending_download_is_requested_again_by_every_resolution
  (env : Env) (key : QString) (n : nat) (v : VImagePreviewer) :
  key ≠ [] → m_imageCache v !! key = None → fileExists env key = false →
  ∃ v',
    resolveRepeatedly env key n v = Ok (replicate n [], v')
    ∧ m_document v' = m_document v
    ∧ m_imageCache v' = m_imageCache v
    ∧ imageLoads v' = imageLoads v
    ∧ downloadRequests v' = replicate n key ++ downloadRequests v.
Proof.
  intros Hk Hc Hf. eexists.
  rewrite (resolveRepeatedly_remote _ _ _ _ Hk Hc Hf).
  split; [done|]. apply iter_download.
Qed.

(** X14 at three resolutions of [http://h/b.png]. *)
Lemma X14_witness :
  ∃ v',
    resolveRepeatedly exEnv (qs "http://h/b.png") 3 (construct exRemoteDoc)
    = Ok (replicate 3 [], v')
    ∧ m_document v' = m_document (construct exRemoteDoc)
    ∧ m_imageCache v' = m_imageCache (construct exRemoteDoc)
    ∧ imageLoads v' = imageLoads (construct exRemoteDoc)
    ∧ downloadRequests v'
      = replicate 3 (qs "http://h/b.png")
        ++ downloadRequests (construct exRemoteDoc).
Proof.
  exact (X14_pending_download_is_requested_again_by_every_resolution
           exEnv (qs "http://h/b.png") 3 (construct exRemoteDoc)
           ltac:(discriminate) eq_refl eq_refl).
Defined.

(** X15.  In every state reachable from the constructor each cache entry
    maps a key to itself and the document holds a decoded (non-null) image
    under that name.  Hence [fetchCachedImageFromPreviewBlock] returns a
    non-null image for every block whose stored key is non-empty and
    cached. *)
Theorem X15_every_cache_entry_is_backed_by_a_decoded_image
  (v : VImagePreviewer) :
  Reachable v →
  CacheBacked v
  ∧ ∀ j name,
      fetchImagePathFromPreviewBlock v j ≠ [] →
      m_imageCache v !! fetchImagePathFromPreviewBlock v j = Some name →
      isNull (fetchCachedImageFromPreviewBlock v j) = false.
Proof.
  intros Hreach.
  assert (CacheBacked v) as Hcb.
  { induction Hreach as [d|env e v v' _ IH Hrun].
    - intros k n. cbn. by rewrite lookup_empty.
    - refine (handle_inv
                (λ cache res, ∀ k n, cache !! k = Some n →
                   n = k ∧ ∃ img, res !! n = Some img ∧ isNull img = false)
                backed_add _ env e v v' Hrun IH).
      intros cache res _ k n. by rewrite lookup_empty. }
  split; [done|]. intros j name Hne Hc.
  unfold fetchCachedImageFromPreviewBlock.
  apply isEmpty_false in Hne. rewrite Hne, Hc.
  destruct (Hcb _ _ Hc) as (_ & image & -> & Hn). done.
Qed.

(** X15 at the state one scan of the mixed example note leaves. *)
Lemma X15_witness :
  CacheBacked exMixedAfter
  ∧ ∀ j name,
      fetchImagePathFromPreviewBlock exMixedAfter j ≠ [] →
      m_imageCache exMixedAfter !! fetchImagePathFromPreviewBlock exMixedAfter j
      = Some name →
      isNull (fetchCachedImageFromPreviewBlock exMixedAfter j) = false.
Proof.
  apply (X15_every_cache_entry_is_backed_by_a_decoded_image exMixedAfter).
  apply (reach_handle exEnv (EvTimerTimeout []) (construct exMixedDoc)
           exMixedAfter (reach_construct exMixedDoc)).
  vm_compute; reflexivity.
Defined.

(** X16.  A scan with no latched request and only benign calls of the host
    never evicts or changes a cache entry: the cache it leaves extends the
    cache it found. *)
Theorem X16_quiet_scan_never_evicts_a_cache_entry
  (env : Env) (hooks : list (list Request)) (v v' : VImagePreviewer) :
  Quiet env hooks →
  m_isPreviewing v = false → m_enablePreview v = true →
  m_requestCearBlocks v = false → m_requestRefreshBlocks v = false →
  previewImages env hooks v = Ok v' →
  m_imageCache v ⊆ m_imageCache v'.
Proof.
  intros Hq Hprev Hen Hc Hr Hrun.
  refine (previewImages_quiet_inv (λ cache _, m_imageCache v ⊆ cache)
            _ env hooks v v' Hq Hprev Hen Hc Hr Hrun _); [|done].
  intros cache res key image. apply (subseteq_add _ _ res).
Qed.

(** X16 at the mixed example note. *)
Lemma X16_witness :
  m_imageCache (construct exMixedDoc) ⊆ m_imageCache exMixedAfter.
Proof.
  apply (X16_quiet_scan_never_evicts_a_cache_entry
           exEnv [] (construct exMixedDoc) exMixedAfter);
    [constructor|reflexivity|reflexivity|reflexivity|reflexivity
    |vm_compute; reflexivity].
Defined.

(** X17.  A finished download is shown by the scan it schedules.  When the
    data of a download for a non-empty, uncached key decodes,
    [imageDownloaded] starts the timer; and the scan that follows (no
    request latched, only benign calls of the host) returns on a well-formed
    document and leaves, behind every source block whose key is that URL, a
    preview block that stores the URL and for which
    [fetchCachedImageFromPreviewBlock] returns the downloaded image. *)
Theorem X17_downloaded_image_is_shown_by_the_scan_it_schedules
  (env : Env) (data : QByteArray) (url : QString)
  (hooks : list (list Request)) (v : VImagePreviewer) :
  url ≠ [] → isNull (imageFromData env data) = false →
  m_imageCache v !! url = None →
  Quiet env hooks →
  m_isPreviewing v = false → m_enablePreview v = true →
  m_requestCearBlocks v = false → m_requestRefreshBlocks v = false →
  WellFormed (blocks (m_document v)) →
  m_timerActive (imageDownloaded env data url v) = true
  ∧ ∃ v2,
      previewImages env hooks (imageDownloaded env data url v) = Ok v2
      ∧ ∀ i, isValid (m_document v2) i = true →
             isImagePreviewBlock v2 i = false →
             fetchImagePathToPreview env (text (m_document v2) i) = url →
             isImagePreviewBlock v2 (S i) = true
             ∧ fetchImagePathFromPreviewBlock v2 (S i) = url
             ∧ fetchCachedImageFromPreviewBlock v2 (S i)
               = imageFromData env data.
Proof.
  intros Hurl Hn Hc Hq Hprev Hen Hcl Hrl Hwf.
  set (img := imageFromData env data) in *.
  assert (imageDownloaded env data url v
          = timerStart
              (withImageCache (<[url := url]> (m_imageCache v))
                 (withDocument (addResource url img (m_document v))
                    (timerStop v)))) as Hdl.
  { unfold imageDownloaded. fold img. by rewrite Hn, Hc. }
  rewrite Hdl. set (v1 := timerStart _).
  split; [done|].
  destruct (previewImages_quiet env hooks v1 Hq Hprev Hen Hcl Hrl)
    as [[_ HW]|(v2 & Hrun & HS & _ & _)]; [by destruct HW|].
  exists v2. split; [done|].
  assert (m_imageCache v2 !! url = Some url
          ∧ imageResources (m_document v2) !! url = Some img) as [Hc2 Hr2].
  { refine (previewImages_quiet_inv
              (λ cache res, cache !! url = Some url ∧ res !! url = Some img)
              (pinned_add url img) env hooks v1 v2 Hq Hprev Hen Hcl Hrl Hrun _).
    subst v1. cbn. by rewrite !lookup_insert_eq. }
  intros i Hi Hnp Hpath.
  apply isValid_true in Hi as [b Hb].
  rewrite isImagePreviewBlock_lookup, Hb in Hnp.
  rewrite (text_Some _ _ _ Hb) in Hpath. fold (pathOf env b) in Hpath.
  pose proof (HS i b ltac:(by eapply lookup_lt_Some) Hb) as Hset.
  unfold settledBlock in Hset. rewrite Hnp in Hset.
  destruct Hset as [_ Hsrc].
  destruct (Hsrc ltac:(by rewrite Hpath))
    as [[_ (nb & Hnb & Hpn)]|Hno].
  2:{ rewrite Hpath in Hno. unfold resolvable in Hno. rewrite Hc2 in Hno.
      by destruct url. }
  destruct (Settled_preview_payload _ _ _ _ _ _ HS Hb Hnb Hpn) as [_ Hpay].
  rewrite Hpath in Hpay.
  rewrite isImagePreviewBlock_lookup, Hnb. split; [done|].
  split; [by rewrite (fetchImagePath_lookup _ _ _ Hnb)|].
  unfold fetchCachedImageFromPreviewBlock.
  rewrite (fetchImagePath_lookup _ _ _ Hnb), Hpay.
  apply isEmpty_false in Hurl. by rewrite Hurl, Hc2, Hr2.
Qed.

(** X17 at the note with one remote image. *)
Lemma X17_witness :
  m_timerActive
    (imageDownloaded exEnv [5%N] (qs "http://h/b.png") (construct exRemoteDoc))
  = true
  ∧ ∃ v2,
      previewImages exEnv []
        (imageDownloaded exEnv [5%N] (qs "http://h/b.png")
           (construct exRemoteDoc)) = Ok v2
      ∧ ∀ i, isValid (m_document v2) i = true →
             isImagePreviewBlock v2 i = false →
             fetchImagePathToPreview exEnv (text (m_document v2) i)
             = qs "http://h/b.png" →
             isImagePreviewBlock v2 (S i) = true
             ∧ fetchImagePathFromPreviewBlock v2 (S i) = qs "http://h/b.png"
             ∧ fetchCachedImageFromPreviewBlock v2 (S i)
               = imageFromData exEnv [5%N].
Proof.
  apply (X17_downloaded_image_is_shown_by_the_scan_it_schedules
           exEnv [5%N] (qs "http://h/b.png") [] (construct exRemoteDoc));
    [discriminate|reflexivity|reflexivity|constructor
    |reflexivity|reflexivity|reflexivity|reflexivity
    |apply (bool_decide_unpack _); vm_compute; exact I].
Defined.

(** X18.  The walk of [previewImages] ends within as many passes as the
    document had blocks when it started, although it inserts blocks while
    it walks (the model never runs out of fuel), and when it returns the
    document holds at most twice as many blocks as before, whatever the
    host called during the scan. *)
Theorem X18_scan_ends_within_its_fuel_and_at_most_doubles_the_document
  (env : Env) (hooks : list (list Request)) (v : VImagePreviewer) :
  previewImages env hooks v ≠ OutOfFuel
  ∧ ∀ v', previewImages env hooks v = Ok v' →
          (length (blocks (m_document v'))
           ≤ 2 * length (blocks (m_document v)))%nat.
Proof.
  split; [apply previewImages_fuel|].
  intros v' Hrun. destruct (m_isPreviewing v) eqn:Hp.
  { unfold previewImages in Hrun.
    rewrite previewImagesAt_guard in Hrun by done. injection Hrun as <-. lia. }
  rewrite previewImages_unfold in Hrun by done.
  destruct (scanLoop _ _ _ _ _ _) as [[i1 v1]| |] eqn:Hloop; [|done..].
  cbn [mbind result_bind] in Hrun.
  apply finishPreview_length in Hrun.
  apply scanLoop_potential in Hloop as [Hpot Hi1]; [|..].
  - cbn [m_document withIsPreviewing] in Hpot. lia.
  - intros. by apply previewImagesAt_guard.
  - done.
  - lia.
Qed.

(** X19.  The engine never changes what the user wrote.  Take the lines of
    the document without their placeholder characters and leave out the
    lines that are then blank: this list is the same before and after any
    run of events (timer ticks with any calls of the host during the scan,
    content changes, enable, disable, refresh, finished downloads).  Blank
    lines are left out because the engine adds and removes lines that hold
    only a placeholder and whitespace, and empties the first block rather
    than removing it. *)
Theorem X19_the_engine_never_changes_what_the_user_wrote
  (es : list (Env * Event)) (v v' : VImagePreviewer) :
  handleAll es v = Ok v' →
  userContent (blocks (m_document v')) = userContent (blocks (m_document v)).
Proof.
  revert v. induction es as [|[env e] es IH]; intros v; cbn [handleAll].
  - by intros [= <-].
  - destruct (handle env e v) as [v1| |] eqn:H1; [|done..].
    cbn [mbind result_bind]. intros H.
    by rewrite (IH _ H), (handle_userContent _ _ _ _ H1).
Qed.

(** X19 at a scan of the mixed example note followed by [disableImagePreview]. *)
Lemma X19_witness :
  ∃ v',
    handleAll [(exEnv, EvTimerTimeout []); (exEnv, EvDisable)]
      (construct exMixedDoc) = Ok v'
    ∧ userContent (blocks (m_document v'))
      = userContent (blocks (m_document (construct exMixedDoc))).
Proof.
  eexists. split; [vm_compute; reflexivity|].
  apply (X19_the_engine_never_changes_what_the_user_wrote
           [(exEnv, EvTimerTimeout []); (exEnv, EvDisable)]
           (construct exMixedDoc)).
  vm_compute; reflexivity.
Defined.

(** X20.  The handlers keep the document well-formed, and well-formedness
    is what their assertions need.  Call a document well-formed when every
    preview block carries an image format on its placeholder.
    - On a well-formed document an idle engine (guard and latches clear)
      handles every event to its end: no [V_ASSERT] fails, no loop runs out
      of fuel, and the document is well-formed and the engine idle again.
    - Hence a run of events and edits of the user is handled to its end
      when the document is well-formed at the start and after every edit;
      the edits may change the text in any other way.
    - The condition is needed: when a source block with a key is followed
      by a preview block whose placeholder carries no image format (a bare
      placeholder typed or pasted by the user), the pass over the source
      block fails the assertion of [updateImagePreviewBlock] that the
      format is valid. *)
Theorem X20_handlers_keep_the_document_well_formed :
  (∀ env e v,
     WellFormed (blocks (m_document v)) → Idle v →
     ∃ v', handle env e v = Ok v'
           ∧ WellFormed (blocks (m_document v')) ∧ Idle v')
  ∧ (∀ ins v,
       WellFormed (blocks (m_document v)) → Idle v →
       Forall keepsWellFormed ins →
       ∃ v', runInputs ins v = Ok v'
             ∧ WellFormed (blocks (m_document v')) ∧ Idle v')
  ∧ (∀ env i v b nb,
       blocks (m_document v) !! i = Some b →
       isPreviewData b = false → isCorrupted (blockText b) = false →
       pathOf env b ≠ [] →
       blocks (m_document v) !! S i = Some nb →
       isPreviewData nb = true → formatOf nb = None →
       scanStep env i v = AssertFailed).
Proof.
  split; [|split].
  - apply handle_idle_WellFormed.
  - intros ins v. apply runInputs_idle_WellFormed.
  - apply scanStep_bare_placeholder.
Qed.

(** X20 at a run with an edit of the user, and at a bare placeholder behind an image line. *)
Lemma X20_witness :
  (∃ v',
     runInputs
       [InEvent exEnv (EvTimerTimeout [[ReqRefresh]]);
        InEdit [plain (qs "![x](a.png)");
                preview (qs "old.png") (qs "old.png")] 0 5;
        InEvent exEnv (EvTimerTimeout []);
        InEvent exEnv EvDisable]
       (construct exMixedDoc) = Ok v'
     ∧ WellFormed (blocks (m_document v')) ∧ Idle v')
  ∧ scanStep exEnv 0
      (construct (document [plain (qs "![x](a.png)");
                            [mkCell ObjectReplacementCharacter None]]))
    = AssertFailed.
Proof.
  destruct X20_handlers_keep_the_document_well_formed as (_ & Hrun & Hfail).
  split.
  - apply Hrun.
    + apply (bool_decide_unpack _); vm_compute; exact I.
    + repeat split.
    + constructor; [exact I|].
      constructor; [apply (bool_decide_unpack _); vm_compute; exact I|].
      constructor; [exact I|]. constructor; [exact I|]. constructor.
  - apply (Hfail exEnv 0%nat _ (plain (qs "![x](a.png)"))
             [mkCell ObjectReplacementCharacter None]);
      [reflexivity|reflexivity|reflexivity|vm_compute; discriminate
      |reflexivity|reflexivity|reflexivity].
Defined.
